(** * CounterUp.js: a shallow embedding of [src/CounterUp.js]

    The development follows the source file from the leaves up:

    - [JSNumber]: the IEEE binary64 numbers of JavaScript, with the built-ins
      the class calls ([parseFloat] on a decimal literal, [toFixed],
      [Math.min], [Math.pow]);
    - [JSString]: the string methods the class calls ([trim], [includes],
      [startsWith], [endsWith], [substring], [split], [join]);
    - [JSRegExp]: the three regular expressions of the class;
    - the class itself: [parseValue], [formatNumber], the easing table,
      [init], [animate], [cancelAnimation], [reset], [replay], ... over an
      explicit state (DOM text, dataset, scheduler, observers, console).

    Numbers are [spec_float] values of the Standard Library at precision 53 and
    exponent bound 1024, so that every operation computes inside the logic. *)

From Stdlib Require Import ZArith Lia Bool List Ascii String.
From Stdlib Require Import Floats.SpecFloat.
From stdpp Require Import base option list gmap strings.

Open Scope Z_scope.

(* ===================================================================== *)
(** * JavaScript numbers *)
(* ===================================================================== *)

Module JSNumber.

Abbreviation number := spec_float.

Definition prec : Z := 53.
Definition emax : Z := 1024.

Definition add : number -> number -> number := SFadd prec emax.
Definition sub : number -> number -> number := SFsub prec emax.
Definition mul : number -> number -> number := SFmul prec emax.
Definition div : number -> number -> number := SFdiv prec emax.
Definition ltb : number -> number -> bool := SFltb.
(** [===] on two numbers: [NaN] differs from everything, [+0 === -0]. *)
Definition strict_eqb : number -> number -> bool := SFeqb.

Declare Scope number_scope.
Delimit Scope number_scope with num.
Infix "+" := add : number_scope.
Infix "-" := sub : number_scope.
Infix "*" := mul : number_scope.
Infix "/" := div : number_scope.
Infix "<?" := ltb : number_scope.

Definition NaN : number := S754_nan.
Definition isNaN (x : number) : bool :=
  match x with S754_nan => true | _ => false end.

(** ** Correctly rounded quotient of two positive integers

    [round_ratio s p q] is the binary64 number nearest to [(-1)^s * p / q],
    ties to even; this is the rounding ECMAScript prescribes for the
    mathematical value of a numeric literal. *)

(** [bit_length p q] is the [ex] with [2^(ex-1) <= p/q < 2^ex]. *)
Definition bit_length (p q : Z) : Z :=
  let g := Z.log2 p - Z.log2 q in
  if q * 2 ^ Z.max 0 g <=? p * 2 ^ Z.max 0 (- g) then g + 1 else g.

Definition round_half_even (num den : Z) : Z :=
  let m := num / den in
  let r := num mod den in
  if 2 * r <? den then m
  else if den <? 2 * r then m + 1
  else if Z.even m then m else m + 1.

Definition round_ratio (s : bool) (p q : Z) : number :=
  let e := Z.max (bit_length p q - prec) (3 - emax - prec) in
  let m := round_half_even (p * 2 ^ Z.max 0 (- e)) (q * 2 ^ Z.max 0 e) in
  if m =? 0 then S754_zero s
  else
    let '(m, e) := if m =? 2 ^ prec then (2 ^ (prec - 1), e + 1) else (m, e) in
    if emax - prec <? e then S754_infinity s
    else S754_finite s (Z.to_pos m) e.

(** The number for an integer (exact below [2^53]). *)
Definition of_Z (z : Z) : number :=
  match z with
  | Z0 => S754_zero false
  | Zpos p => round_ratio false (Zpos p) 1
  | Zneg p => round_ratio true (Zpos p) 1
  end.

Definition zero : number := S754_zero false.
Definition one : number := Eval vm_compute in of_Z 1.
Definition two : number := Eval vm_compute in of_Z 2.
Definition four : number := Eval vm_compute in of_Z 4.
Definition half : number := Eval vm_compute in round_ratio false 1 2.
Definition minus_one : number := Eval vm_compute in of_Z (-1).
Definition minus_ten : number := Eval vm_compute in of_Z (-10).

(** ** [Math.min] and [Math.pow] *)

(** [Math.min(a, b)]: [NaN] if either is [NaN]; [-0] is below [+0]. *)
Definition Math_min (a b : number) : number :=
  if isNaN a || isNaN b then NaN
  else if ltb b a then b
  else if ltb a b then a
  else match a, b with
       | S754_zero false, S754_zero true => b
       | _, _ => a
       end.

(** What an engine supplies beyond the cases ECMAScript fixes exactly. *)
Class Engine := {
  (** [Number::exponentiate] where the standard only asks for an
      "implementation-approximated" result *)
  pow_approx : number -> number -> number;
  (** [new RegExp(pattern, "g")] followed by [replace(_, "")] for a pattern
      outside the fragment of [JSRegExp.compile]; [None] stands for the
      [SyntaxError] of an ill-formed pattern *)
  regexp_beyond : string -> option (string -> string);
  (** whether [new IntersectionObserver(_, {rootMargin})] takes a margin
      outside the fragment of [margin] below (other white space, comments,
      escapes and units as the tokenizer of the style sheets reads them);
      [false] stands for the [SyntaxError] of a margin that is none *)
  root_margin_beyond : string -> bool
}.

(** [Math.pow(base, exponent)], the first cases of [Number::exponentiate]:
    a [NaN] exponent gives [NaN], a zero exponent gives 1. *)
Definition Math_pow `{Engine} (base exponent : number) : number :=
  match exponent with
  | S754_nan => NaN
  | S754_zero _ => one
  | _ => pow_approx base exponent
  end.

(** ** Decimal digits *)

Definition digit_char (d : Z) : ascii := ascii_of_nat (48 + Z.to_nat d).

(** The decimal representation of [n >= 0], most significant digit first
    ("0" for 0).  [fuel] bounds the number of digits. *)
Fixpoint digits_go (fuel : nat) (n : Z) (acc : list ascii) : list ascii :=
  match fuel with
  | O => acc
  | S fuel' =>
      let acc' := digit_char (n mod 10) :: acc in
      if n / 10 =? 0 then acc' else digits_go fuel' (n / 10) acc'
  end.

Definition digits (n : Z) : list ascii :=
  digits_go (S (Z.to_nat (Z.log2 n))) n [].

(** ** [Number.prototype.toFixed] *)

Inductive exn := TypeError | RangeError | SyntaxError.

(** A completion: a value, or an exception thrown. *)
Inductive completion (A : Type) :=
  | Normal (a : A)
  | Throw (e : exn).
Arguments Normal {A} a.
Arguments Throw {A} e.

(** [round_half_up m e f] is the integer [n] for which [n / 10^f - m * 2^e]
    is as close to zero as possible, the larger one if there are two. *)
Definition round_half_up (m e f : Z) : Z :=
  if 0 <=? e then m * 2 ^ e * 10 ^ f
  else (2 * m * 10 ^ f + 2 ^ (- e)) / (2 * 2 ^ (- e)).

(** Steps 8 to 10 of [toFixed]: the digits of [n] with a point before the
    last [f] of them, padded with zeros on the left to [f + 1] digits. *)
Definition fixed_notation (n : Z) (f : nat) : list ascii :=
  let m := digits n in
  match f with
  | O => m
  | _ =>
      let m := if (length m <=? f)%nat
               then repeat "0"%char (f + 1 - length m) ++ m else m in
      let k := length m in
      take (k - f) m ++ "."%char :: drop (k - f) m
  end.

(** [Number::toString] of a finite [x >= 10^21], given as the integer [X]
    it denotes: the shortest decimal [s * 10^(n-k)] that reads back as [x],
    the one nearest to [x] if several have that length, written with an
    exponent ("1e+21", "1.5e+21"). *)
Definition reads_back (x : number) (s n k : Z) : bool :=
  (10 ^ (k - 1) <=? s) && (s <? 10 ^ k)
  && SFeqb (round_ratio false (s * 10 ^ (n - k)) 1) x.

Definition shortest_candidates (x : number) (X k : Z)
  : list (Z * Z (* s, n *)) :=
  let n0 := Z.of_nat (length (digits X)) in
  flat_map (fun n =>
    let q := X / 10 ^ (n - k) in
    filter (fun sn => reads_back x (fst sn) (snd sn) k) [(q, n); (q + 1, n)])
    [n0; n0 + 1].

Definition nearest (X k : Z) (c : list (Z * Z)) : option (Z * Z) :=
  let dist (sn : Z * Z) := Z.abs (fst sn * 10 ^ (snd sn - k) - X) in
  fold_left (fun best sn =>
    match best with
    | None => Some sn
    | Some b => if dist sn <? dist b then Some sn
                else if (dist sn =? dist b) && Z.even (fst sn) && Z.odd (fst b)
                     then Some sn else best
    end) c None.

Fixpoint shortest_go (fuel : nat) (x : number) (X k : Z) : Z * Z * Z :=
  match fuel with
  | O => (X, Z.of_nat (length (digits X)), Z.of_nat (length (digits X)))
  | S fuel' =>
      match nearest X k (shortest_candidates x X k) with
      | Some (s, n) => (s, n, k)
      | None => shortest_go fuel' x X (k + 1)
      end
  end.

Definition toString_large (x : number) (X : Z) : list ascii :=
  let '(s, n, k) := shortest_go 17 x X 1 in
  let ds := digits s in
  let mantissa := match ds with
                  | d :: (_ :: _) as rest => d :: "."%char :: rest
                  | _ => ds
                  end in
  mantissa ++ "e"%char :: "+"%char :: digits (n - 1).

(** [m * 2^e >= 10^21]; such a number has [e >= 0], as [m < 2^53]. *)
Definition at_least_1e21 (m : positive) (e : Z) : bool :=
  (0 <=? e) && (10 ^ 21 <=? Zpos m * 2 ^ e).

(** [x.toFixed(f)] for an integer [f]. *)
Definition toFixed (x : number) (f : Z) : completion string :=
  if (f <? 0) || (100 <? f) then Throw RangeError
  else Normal (string_of_list_ascii
    match x with
    | S754_nan => list_ascii_of_string "NaN"
    | S754_infinity false => list_ascii_of_string "Infinity"
    | S754_infinity true => list_ascii_of_string "-Infinity"
    | S754_zero _ => fixed_notation 0 (Z.to_nat f)
    | S754_finite s m e =>
        let sign := if s then ["-"%char] else [] in
        if at_least_1e21 m e
        then sign ++ toString_large (S754_finite false m e) (Zpos m * 2 ^ e)
        else sign ++ fixed_notation (round_half_up (Zpos m) e f) (Z.to_nat f)
    end).

End JSNumber.

(* ===================================================================== *)
(** * JavaScript strings *)
(* ===================================================================== *)

(** Text is a [string] of 8-bit code units. *)
Module JSString.

Definition is_digit (c : ascii) : bool :=
  let n := nat_of_ascii c in (48 <=? n)%nat && (n <=? 57)%nat.

(** [\w]: a letter, a digit or the underscore. *)
Definition is_word_char (c : ascii) : bool :=
  let n := nat_of_ascii c in
  is_digit c || ((65 <=? n)%nat && (n <=? 90)%nat)
  || ((97 <=? n)%nat && (n <=? 122)%nat) || (n =? 95)%nat.

(** Line terminators among the 8-bit code units: LF and CR. *)
Definition is_line_terminator (c : ascii) : bool :=
  let n := nat_of_ascii c in (n =? 10)%nat || (n =? 13)%nat.

(** What [trim] removes: TAB, LF, VT, FF, CR, space, no-break space. *)
Definition is_white_space (c : ascii) : bool :=
  let n := nat_of_ascii c in
  ((9 <=? n)%nat && (n <=? 13)%nat) || (n =? 32)%nat || (n =? 160)%nat.

Fixpoint trimStart (s : string) : string :=
  match s with
  | String c s' => if is_white_space c then trimStart s' else s
  | EmptyString => s
  end.

Definition trim (s : string) : string :=
  String.rev (trimStart (String.rev (trimStart s))).

Fixpoint startsWith (s p : string) : bool :=
  match p, s with
  | EmptyString, _ => true
  | String a p', String b s' => Ascii.eqb a b && startsWith s' p'
  | String _ _, EmptyString => false
  end.

Definition endsWith (s p : string) : bool :=
  startsWith (String.rev s) (String.rev p).

Fixpoint includes (s p : string) : bool :=
  startsWith s p ||
  match s with
  | String _ s' => includes s' p
  | EmptyString => false
  end.

(** [s.substring(n)] *)
Fixpoint substring_from (n : nat) (s : string) : string :=
  match n, s with
  | S n', String _ s' => substring_from n' s'
  | _, _ => s
  end.

(** [s.substring(0, n)] *)
Fixpoint substring_to (n : nat) (s : string) : string :=
  match n, s with
  | S n', String c s' => String c (substring_to n' s')
  | _, _ => EmptyString
  end.

(** [s.split(".")]: the pieces between the points, at least one. *)
Fixpoint split_dot (s : string) : list string :=
  match s with
  | EmptyString => [EmptyString]
  | String c s' =>
      if Ascii.eqb c "."%char then EmptyString :: split_dot s'
      else match split_dot s' with
           | p :: ps => String c p :: ps
           | [] => [String c EmptyString]
           end
  end.

(** [parts.join(".")] *)
Fixpoint join_dot (parts : list string) : string :=
  match parts with
  | [] => EmptyString
  | [p] => p
  | p :: ps => p +:+ String "."%char (join_dot ps)
  end.

End JSString.

(* ===================================================================== *)
(** * The regular expressions of the class *)
(* ===================================================================== *)

Module JSRegExp.
Import JSNumber JSString.

(** ** [new RegExp(separator, "g")]

    The fragment modelled: a disjunction of alternatives, each a sequence of
    pattern characters, [.], [^] and [$].  A separator with any of
    [\ * + ? ( ) [ ] { }] is left to the engine ([regexp_beyond]). *)

Inductive term :=
  | PatternChar (c : ascii)   (** the character itself *)
  | AnyChar                   (** [.]: any character but a line terminator *)
  | InputStart                (** [^] *)
  | InputEnd.                 (** [$] *)

Definition alternative := list term.
Definition disjunction := list alternative.

Definition beyond_fragment (c : ascii) : bool :=
  existsb (Ascii.eqb c) (list_ascii_of_string "\*+?()[]{}").

(** The pattern text, read left to right; [cur] is the alternative being
    read, reversed. *)
Fixpoint compile_go (p : string) (cur : alternative) : option disjunction :=
  match p with
  | EmptyString => Some [rev cur]
  | String c p' =>
      if beyond_fragment c then None
      else if Ascii.eqb c "|"%char
      then option_map (cons (rev cur)) (compile_go p' [])
      else compile_go p'
             ((if Ascii.eqb c "."%char then AnyChar
               else if Ascii.eqb c "^"%char then InputStart
               else if Ascii.eqb c "$"%char then InputEnd
               else PatternChar c) :: cur)
  end.

Definition compile (p : string) : option disjunction := compile_go p [].

(** Matching an alternative against the input at the current position:
    [at_start] tells whether the position is index 0, [rest] is the input
    from the position on.  The result is the number of characters matched. *)
Fixpoint match_alternative (a : alternative) (at_start : bool) (rest : string)
  : option nat :=
  match a with
  | [] => Some O
  | PatternChar c :: a' =>
      match rest with
      | String c' rest' =>
          if Ascii.eqb c c' then S <$> match_alternative a' false rest'
          else None
      | EmptyString => None
      end
  | AnyChar :: a' =>
      match rest with
      | String c' rest' =>
          if is_line_terminator c' then None
          else S <$> match_alternative a' false rest'
      | EmptyString => None
      end
  | InputStart :: a' =>
      if at_start then match_alternative a' at_start rest else None
  | InputEnd :: a' =>
      match rest with
      | EmptyString => match_alternative a' at_start rest
      | String _ _ => None
      end
  end.

(** The first alternative that matches wins. *)
Fixpoint match_here (d : disjunction) (at_start : bool) (rest : string)
  : option nat :=
  match d with
  | [] => None
  | a :: d' =>
      match match_alternative a at_start rest with
      | Some n => Some n
      | None => match_here d' at_start rest
      end
  end.

(** [s.replace(re, "")] with the [g] flag: every match is dropped; after an
    empty match the search resumes one character further.  [skip] counts the
    characters of the current match still to drop. *)
Fixpoint remove_matches (d : disjunction) (skip : nat) (at_start : bool)
  (s : string) : string :=
  match s with
  | EmptyString => EmptyString
  | String c s' =>
      match skip with
      | S k => remove_matches d k false s'
      | O =>
          match match_here d at_start s with
          | Some (S k) => remove_matches d k false s'
          | _ => String c (remove_matches d O false s')
          end
      end
  end.

(** [value.replace(new RegExp(separator, "g"), "")] *)
Definition remove_separator `{Engine} (separator value : string)
  : completion string :=
  match compile separator with
  | Some d => Normal (remove_matches d O true value)
  | None =>
      match regexp_beyond separator with
      | Some replace => Normal (replace value)
      | None => Throw SyntaxError
      end
  end.

(** ** [/^[-+]?[0-9]*\.?[0-9]+([eE][-+]?[0-9]+)?$/]

    A string of this language is read into its parts. *)

Record literal := {
  lit_negative : bool;            (** a leading [-] *)
  lit_integer : list ascii;       (** [[0-9]*] *)
  lit_fraction : option (list ascii);  (** the digits after the point *)
  lit_exponent : option (bool * list ascii)  (** sign and digits after [e] *)
}.

Fixpoint take_digits (s : string) : list ascii * string :=
  match s with
  | String c s' =>
      if is_digit c then let '(ds, r) := take_digits s' in (c :: ds, r)
      else ([], s)
  | EmptyString => ([], s)
  end.

(** [[-+]?]: the sign read, if any, and the rest. *)
Definition take_sign (s : string) : bool * string :=
  match s with
  | String c s' =>
      if Ascii.eqb c "-"%char then (true, s')
      else if Ascii.eqb c "+"%char then (false, s')
      else (false, s)
  | EmptyString => (false, s)
  end.

(** [([eE][-+]?[0-9]+)?$] *)
Definition scan_exponent (s : string) : option (option (bool * list ascii)) :=
  match s with
  | EmptyString => Some None
  | String c s' =>
      if Ascii.eqb c "e"%char || Ascii.eqb c "E"%char then
        let '(neg, s'') := take_sign s' in
        match take_digits s'' with
        | ((_ :: _) as ds, EmptyString) => Some (Some (neg, ds))
        | _ => None
        end
      else None
  end.

Definition scan_numeric (s : string) : option literal :=
  let '(neg, s1) := take_sign s in
  let '(int, s2) := take_digits s1 in
  let after_point :=
    match s2 with
    | String c s3 => if Ascii.eqb c "."%char then Some s3 else None
    | EmptyString => None
    end in
  match after_point with
  | Some s3 =>
      match take_digits s3 with
      | ((_ :: _) as frac, s4) =>
          option_map (Build_literal neg int (Some frac)) (scan_exponent s4)
      | ([], _) => None
      end
  | None =>
      match int with
      | _ :: _ => option_map (Build_literal neg int None) (scan_exponent s2)
      | [] => None
      end
  end.

(** ** [parseFloat] of a string of that language

    The whole string is then a [StrDecimalLiteral], and [parseFloat] returns
    the number nearest to its mathematical value.  (Past 20 significant
    digits ECMAScript lets an engine round the literal to 20 digits first;
    the nearest number is taken here throughout.) *)

Definition digit_value (c : ascii) : Z := Z.of_nat (nat_of_ascii c) - 48.

Definition digits_value (ds : list ascii) : Z :=
  fold_left (fun acc c => 10 * acc + digit_value c) ds 0.

Definition literal_number (l : literal) : number :=
  let frac := default [] (lit_fraction l) in
  let mant := digits_value (lit_integer l ++ frac) in
  let exp := match lit_exponent l with
             | Some (neg, ds) => if neg then - digits_value ds else digits_value ds
             | None => 0
             end - Z.of_nat (length frac) in
  if mant =? 0 then S754_zero (lit_negative l)
  else if 0 <=? exp then round_ratio (lit_negative l) (mant * 10 ^ exp) 1
  else round_ratio (lit_negative l) mant (10 ^ (- exp)).

(** [cleanValue.match(/\.([0-9]+)/)]: on a string of the language above the
    capture is the fraction, and there is no match without a point. *)
Definition fraction_length (l : literal) : Z :=
  match lit_fraction l with
  | Some frac => Z.of_nat (length frac)
  | None => 0
  end.

(** ** [/\B(?=(\d{3})+(?!\d))/g] and the replacement string *)

(** [(\d{3})+(?!\d)] at the start of [rest].  The quantifier is greedy: one
    more group is tried first, and given up if what follows fails.  The
    result is the capture, the last group matched. *)
Fixpoint groups_of_three (rest : string) : option string :=
  match rest with
  | String a (String b (String c rest')) =>
      if is_digit a && is_digit b && is_digit c then
        match groups_of_three rest' with
        | Some capture => Some capture
        | None =>
            match rest' with
            | String d _ =>
                if is_digit d then None
                else Some (String a (String b (String c EmptyString)))
            | EmptyString => Some (String a (String b (String c EmptyString)))
            end
        end
      else None
  | _ => None
  end.

(** [\B] between [prev] and the head of [rest]: no word boundary. *)
Definition not_word_boundary (prev : option ascii) (rest : string) : bool :=
  Bool.eqb (from_option is_word_char false prev)
           (match rest with
            | String c _ => is_word_char c
            | EmptyString => false
            end).

(** [GetSubstitution]: the text a replacement template stands for at a
    match, with [$$], [$&], [$`], [$'], [$n] and [$nn] expanded.  There are
    no named groups, so [$<] stands for itself. *)
Fixpoint get_substitution (matched before after : string)
  (captures : list string) (template : string) : string :=
  let capture_or (index : nat) (ref : string) : string :=
    if (1 <=? index)%nat && (index <=? length captures)%nat
    then default EmptyString (captures !! (index - 1)%nat) else ref in
  let value_of (c : ascii) : nat := (nat_of_ascii c - 48)%nat in
  match template with
  | EmptyString => EmptyString
  | String c t1 =>
      if negb (Ascii.eqb c "$"%char)
      then String c (get_substitution matched before after captures t1)
      else
        match t1 with
        | EmptyString => String c EmptyString
        | String c1 t2 =>
            let continue2 := get_substitution matched before after captures t2 in
            if Ascii.eqb c1 "$"%char then String "$"%char continue2
            else if Ascii.eqb c1 "`"%char then before +:+ continue2
            else if Ascii.eqb c1 "&"%char then matched +:+ continue2
            else if Ascii.eqb c1 "'"%char then after +:+ continue2
            else if is_digit c1 then
              let one_digit :=
                capture_or (value_of c1) (String c (String c1 EmptyString))
                +:+ continue2 in
              match t2 with
              | String c2 t3 =>
                  let index := (10 * value_of c1 + value_of c2)%nat in
                  if is_digit c2 && (index <=? length captures)%nat
                  then capture_or index
                         (String c (String c1 (String c2 EmptyString)))
                       +:+ get_substitution matched before after captures t3
                  else one_digit
              | EmptyString => one_digit
              end
            else String c (String c1 continue2)
        end
  end.

(** [s.replace(/\B(?=(\d{3})+(?!\d))/g, template)]: every position of [s]
    is tried, the pattern matches the empty string there or not at all.
    [before] holds the characters to the left of the position, reversed. *)
Fixpoint replace_group_boundaries (template : string) (before : string)
  (rest : string) : string :=
  let prev := match before with
              | String c _ => Some c
              | EmptyString => None
              end in
  let here :=
    if not_word_boundary prev rest then
      match groups_of_three rest with
      | Some capture =>
          get_substitution EmptyString (String.rev before) rest [capture]
            template
      | None => EmptyString
      end
    else EmptyString in
  match rest with
  | EmptyString => here
  | String c rest' =>
      here +:+ String c (replace_group_boundaries template (String c before) rest')
  end.

End JSRegExp.

(* ===================================================================== *)
(** * The class [CounterUp]: settings, parsing and formatting *)
(* ===================================================================== *)

Import JSNumber JSString JSRegExp.

Record Settings := {
  duration : number;       (** total animation duration in ms *)
  easing : string;         (** name of the easing function *)
  offset : string;         (** offset for the IntersectionObserver *)
  once : bool;
  decimals : option Z;     (** number of decimal places, [None] for [null] *)
  separator : string;      (** thousands separator *)
  prefix : string;
  suffix : string
}.

Definition defaults : Settings := {|
  duration := of_Z 800;
  easing := "easeOutExpo";
  offset := "0%";
  once := false;
  decimals := None;
  separator := ",";
  prefix := "";
  suffix := ""
|}.

(** The object [parseValue] returns. *)
Record ParsedData := {
  pd_number : number;
  pd_decimals : Z;
  pd_hasComma : bool
}.

Section WithEngine.
Context `{Engine}.

(** The prefix and the suffix taken off [value], where it has them. *)
Definition strip_affixes (settings : Settings) (value : string) : string :=
  let cleanValue := value in
  let cleanValue :=
    if negb (String.eqb (prefix settings) EmptyString)
       && startsWith cleanValue (prefix settings)
    then substring_from (String.length (prefix settings)) cleanValue
    else cleanValue in
  if negb (String.eqb (suffix settings) EmptyString)
     && endsWith cleanValue (suffix settings)
  then substring_to
         (String.length cleanValue - String.length (suffix settings))
         cleanValue
  else cleanValue.

(** [parseValue(value)]; [Normal None] is the [null] result. *)
Definition parseValue (settings : Settings) (value : string)
  : completion (option ParsedData) :=
  if String.eqb value EmptyString then Normal None
  else
    (* Check if value contains commas *)
    let hasComma := includes value (separator settings) in
    (* Remove prefix and suffix if present *)
    let cleanValue := strip_affixes settings value in
    (* Remove commas or other separators for calculation *)
    match remove_separator (separator settings) cleanValue with
    | Throw e => Throw e
    | Normal cleanValue =>
        (* Try to parse as number *)
        match scan_numeric cleanValue with
        | Some lit =>
            Normal (Some {|
              pd_number := literal_number lit;
              pd_decimals := match decimals settings with
                             | Some d => d
                             | None => fraction_length lit
                             end;
              pd_hasComma := hasComma |})
        | None => Normal None  (* Invalid number format *)
        end
    end.

(** [formatNumber(number, decimals, hasComma)] *)
Definition formatNumber (settings : Settings) (number : number)
  (decimals : Z) (hasComma : bool) : completion string :=
  (* Format to fixed decimal places *)
  match toFixed number decimals with
  | Throw e => Throw e
  | Normal formattedNumber =>
      (* Add commas if needed *)
      let formattedNumber :=
        if hasComma then
          match split_dot formattedNumber with
          | part0 :: parts =>
              join_dot
                (replace_group_boundaries (separator settings) "" part0
                 :: parts)
          | [] => formattedNumber
          end
        else formattedNumber in
      (* Add prefix and suffix *)
      Normal (prefix settings +:+ formattedNumber +:+ suffix settings)
  end.

End WithEngine.

(* ===================================================================== *)
(** * The easing table *)
(* ===================================================================== *)

Section Easing.
Context `{Engine}.
Local Open Scope number_scope.

Definition easeLinear (t : number) : number := t.
Definition easeInQuad (t : number) : number := t * t.
Definition easeOutQuad (t : number) : number := t * (two - t).
Definition easeInOutQuad (t : number) : number :=
  if t <? half then two * t * t else minus_one + (four - two * t) * t.
Definition easeInCubic (t : number) : number := t * t * t.
Definition easeOutCubic (t : number) : number :=
  let t := t - one in t * t * t + one.
Definition easeInOutCubic (t : number) : number :=
  if t <? half then four * t * t * t
  else (t - one) * (two * t - two) * (two * t - two) + one.
Definition easeOutExpo (t : number) : number :=
  if strict_eqb t one then one else one - Math_pow two (minus_ten * t).

(** The properties of [Object.prototype], which the table inherits as every
    object literal does. *)
Inductive object_prototype_member :=
  | OP_constructor | OP_hasOwnProperty | OP_isPrototypeOf
  | OP_propertyIsEnumerable | OP_toLocaleString | OP_toString | OP_valueOf
  | OP___proto__ | OP___defineGetter__ | OP___defineSetter__
  | OP___lookupGetter__ | OP___lookupSetter__.

(** The eight function objects of the table. *)
Inductive curve :=
  | EaseLinear | EaseInQuad | EaseOutQuad | EaseInOutQuad
  | EaseInCubic | EaseOutCubic | EaseInOutCubic | EaseOutExpo.

(** Calling one of them. *)
Definition apply_curve (c : curve) (t : number) : number :=
  match c with
  | EaseLinear => easeLinear t
  | EaseInQuad => easeInQuad t
  | EaseOutQuad => easeOutQuad t
  | EaseInOutQuad => easeInOutQuad t
  | EaseInCubic => easeInCubic t
  | EaseOutCubic => easeOutCubic t
  | EaseInOutCubic => easeInOutCubic t
  | EaseOutExpo => easeOutExpo t
  end.

(** What [this.easingFunctions[name]] evaluates to. *)
Inductive property_value :=
  | EasingFunction (c : curve)
  | Inherited (m : object_prototype_member)
  | Undefined.

Definition object_prototype_lookup (name : string)
  : option object_prototype_member :=
  if String.eqb name "constructor" then Some OP_constructor
  else if String.eqb name "hasOwnProperty" then Some OP_hasOwnProperty
  else if String.eqb name "isPrototypeOf" then Some OP_isPrototypeOf
  else if String.eqb name "propertyIsEnumerable"
  then Some OP_propertyIsEnumerable
  else if String.eqb name "toLocaleString" then Some OP_toLocaleString
  else if String.eqb name "toString" then Some OP_toString
  else if String.eqb name "valueOf" then Some OP_valueOf
  else if String.eqb name "__proto__" then Some OP___proto__
  else if String.eqb name "__defineGetter__" then Some OP___defineGetter__
  else if String.eqb name "__defineSetter__" then Some OP___defineSetter__
  else if String.eqb name "__lookupGetter__" then Some OP___lookupGetter__
  else if String.eqb name "__lookupSetter__" then Some OP___lookupSetter__
  else None.

Definition easingFunctions (name : string) : property_value :=
  if String.eqb name "easeLinear" then EasingFunction EaseLinear
  else if String.eqb name "easeInQuad" then EasingFunction EaseInQuad
  else if String.eqb name "easeOutQuad" then EasingFunction EaseOutQuad
  else if String.eqb name "easeInOutQuad" then EasingFunction EaseInOutQuad
  else if String.eqb name "easeInCubic" then EasingFunction EaseInCubic
  else if String.eqb name "easeOutCubic" then EasingFunction EaseOutCubic
  else if String.eqb name "easeInOutCubic" then EasingFunction EaseInOutCubic
  else if String.eqb name "easeOutExpo" then EasingFunction EaseOutExpo
  else match object_prototype_lookup name with
       | Some m => Inherited m
       | None => Undefined
       end.

(** [this.easingFunctions[this.settings.easing] ||
     this.easingFunctions.easeOutExpo]: only [undefined] is falsy here. *)
Definition resolve_easing (name : string) : property_value :=
  match easingFunctions name with
  | Undefined => EasingFunction EaseOutExpo
  | v => v
  end.

(** [easingFn(progress)], as the number the product in [step] makes of it.
    Called without a receiver: [Object(progress)] wraps the number,
    [isPrototypeOf(progress)] is [false], [toString()] is the text
    "[object Undefined]", the other inherited functions fail on the missing
    receiver, and [__proto__] is an object, not a function. *)
Definition call_easing (easingFn : property_value) (progress : number)
  : completion number :=
  match easingFn with
  | EasingFunction c => Normal (apply_curve c progress)
  | Inherited OP_constructor => Normal progress
  | Inherited OP_isPrototypeOf => Normal zero
  | Inherited OP_toString => Normal NaN
  | Inherited _ => Throw TypeError
  | Undefined => Throw TypeError
  end.

End Easing.

(* ===================================================================== *)
(** * The state: instance fields, document, scheduler, observers *)
(* ===================================================================== *)

Definition Element := nat.
(** A handle returned by [requestAnimationFrame]. *)
Definition Handle := nat.
(** The identity of an [IntersectionObserver] object. *)
Definition Observer := nat.

(** The [data-counterup-*] attributes [init] writes, as [animate] reads them
    back: [parseFloat] of the text of a number is that number ([-0] is
    written "0"), [parseInt] of the text of an integer is [parseInt_String]
    of it, and [=== 'true'] of the text of a boolean is that boolean. *)
(** [parseInt(String(d))] for an integer [d] that a number holds: below
    [10^21] [String] writes the digits of [d] and [parseInt] reads them
    back; from [10^21] on [String] writes the shortest decimal with an
    exponent ("1e+21", "-1.5e+22") and [parseInt] stops after the first
    digit. *)
Definition parseInt_String (d : Z) : Z :=
  if Z.abs d <? 10 ^ 21 then d
  else
    Z.sgn d
    * digits_value (take 1 (toString_large (of_Z (Z.abs d)) (Z.abs d))).
Arguments parseInt_String : simpl never.

Record Dataset := {
  counterupValue : string;
  counterupNumber : number;
  counterupDecimals : option Z;
  counterupHasCommas : bool
}.

(** The closure [step] of one call of [animate]. *)
Record StepClosure := {
  cl_element : Element;
  cl_targetValue : number;
  cl_decimals : Z;
  cl_hasComma : bool;
  cl_startValue : number;
  cl_startTime : option number;   (** [None] for [null] *)
  cl_duration : number;
  cl_easingFn : property_value
}.

Inductive warn_argument := AboutElement (e : Element) | AboutText (t : string)
                         | NoArgument.

Inductive log_entry :=
  | Warn (message : string) (argument : warn_argument)
  | Uncaught (e : exn).

Record State := {
  (* the fields of the instance *)
  settings : Settings;
  elements : list Element;
  observers : list Observer;
  animations : gmap Element Handle;
  elementState : gmap Element bool;
  (* the document *)
  innerText : gmap Element string;
  dataset : gmap Element Dataset;
  (* the frame scheduler: the callbacks requested and not yet run *)
  frame_callbacks : gmap Handle StepClosure;
  next_handle : Handle;
  (* the intersection observers created: the element the callback closes
     over, and whether the observer is still connected to it *)
  intersection_observers : gmap Observer (Element * bool);
  next_observer : Observer;
  (* the console, latest entry first *)
  console : list log_entry
}.

(** Assignment to one field. *)
Definition with_settings (v : Settings) (s : State) : State :=
  Build_State v (elements s) (observers s) (animations s) (elementState s)
    (innerText s) (dataset s) (frame_callbacks s) (next_handle s)
    (intersection_observers s) (next_observer s) (console s).
Definition with_elements (v : list Element) (s : State) : State :=
  Build_State (settings s) v (observers s) (animations s) (elementState s)
    (innerText s) (dataset s) (frame_callbacks s) (next_handle s)
    (intersection_observers s) (next_observer s) (console s).
Definition with_observers (v : list Observer) (s : State) : State :=
  Build_State (settings s) (elements s) v (animations s) (elementState s)
    (innerText s) (dataset s) (frame_callbacks s) (next_handle s)
    (intersection_observers s) (next_observer s) (console s).
Definition with_animations (v : gmap Element Handle) (s : State) : State :=
  Build_State (settings s) (elements s) (observers s) v (elementState s)
    (innerText s) (dataset s) (frame_callbacks s) (next_handle s)
    (intersection_observers s) (next_observer s) (console s).
Definition with_elementState (v : gmap Element bool) (s : State) : State :=
  Build_State (settings s) (elements s) (observers s) (animations s) v
    (innerText s) (dataset s) (frame_callbacks s) (next_handle s)
    (intersection_observers s) (next_observer s) (console s).
Definition with_innerText (v : gmap Element string) (s : State) : State :=
  Build_State (settings s) (elements s) (observers s) (animations s)
    (elementState s) v (dataset s) (frame_callbacks s) (next_handle s)
    (intersection_observers s) (next_observer s) (console s).
Definition with_dataset (v : gmap Element Dataset) (s : State) : State :=
  Build_State (settings s) (elements s) (observers s) (animations s)
    (elementState s) (innerText s) v (frame_callbacks s) (next_handle s)
    (intersection_observers s) (next_observer s) (console s).
Definition with_frame_callbacks (v : gmap Handle StepClosure) (s : State) : State :=
  Build_State (settings s) (elements s) (observers s) (animations s)
    (elementState s) (innerText s) (dataset s) v (next_handle s)
    (intersection_observers s) (next_observer s) (console s).
Definition with_next_handle (v : Handle) (s : State) : State :=
  Build_State (settings s) (elements s) (observers s) (animations s)
    (elementState s) (innerText s) (dataset s) (frame_callbacks s) v
    (intersection_observers s) (next_observer s) (console s).
Definition with_intersection_observers (v : gmap Observer (Element * bool)) (s : State) : State :=
  Build_State (settings s) (elements s) (observers s) (animations s)
    (elementState s) (innerText s) (dataset s) (frame_callbacks s)
    (next_handle s) v (next_observer s) (console s).
Definition with_next_observer (v : Observer) (s : State) : State :=
  Build_State (settings s) (elements s) (observers s) (animations s)
    (elementState s) (innerText s) (dataset s) (frame_callbacks s)
    (next_handle s) (intersection_observers s) v (console s).
Definition with_console (v : list log_entry) (s : State) : State :=
  Build_State (settings s) (elements s) (observers s) (animations s)
    (elementState s) (innerText s) (dataset s) (frame_callbacks s)
    (next_handle s) (intersection_observers s) (next_observer s) v.

(** ** The document and the console *)

(** [element.innerText] *)
Definition get_innerText (element : Element) (s : State) : string :=
  default EmptyString (innerText s !! element).

(** [element.innerText = text] *)
Definition set_innerText (element : Element) (text : string) (s : State)
  : State :=
  with_innerText (<[element := text]> (innerText s)) s.

(** [console.warn(message, argument)] *)
Definition console_warn (message : string) (argument : warn_argument)
  (s : State) : State :=
  with_console (Warn message argument :: console s) s.

(** ** The frame scheduler *)

(** [requestAnimationFrame(step)]: a fresh handle. *)
Definition requestAnimationFrame (step : StepClosure) (s : State)
  : Handle * State :=
  let handle := next_handle s in
  (handle,
   with_next_handle (S handle)
     (with_frame_callbacks (<[handle := step]> (frame_callbacks s)) s)).

(** [cancelAnimationFrame(handle)] *)
Definition cancelAnimationFrame (handle : Handle) (s : State) : State :=
  with_frame_callbacks (delete handle (frame_callbacks s)) s.

(** ** The intersection observers *)

(** The margins every engine takes: one to four lengths between single
    spaces, each a number of the style sheets (the grammar of
    [scan_numeric]) followed by [px] or [%]. *)
Definition is_length (token : string) : bool :=
  let numeric (unit : nat) :=
    bool_decide
      (is_Some (scan_numeric (substring_to (String.length token - unit) token)))
  in
  (endsWith token "%" && numeric 1%nat) || (endsWith token "px" && numeric 2%nat).

(** The pieces of [s] between the spaces, at least one. *)
Fixpoint split_space (s : string) : list string :=
  match s with
  | EmptyString => [EmptyString]
  | String c s' =>
      if Ascii.eqb c " "%char then EmptyString :: split_space s'
      else match split_space s' with
           | p :: ps => String c p :: ps
           | [] => [String c EmptyString]
           end
  end.

Definition margin (rootMargin : string) : bool :=
  let tokens := split_space rootMargin in
  (length tokens <=? 4)%nat && forallb is_length tokens.

Definition root_margin_accepted `{Engine} (rootMargin : string) : bool :=
  margin rootMargin || root_margin_beyond rootMargin.

(** [new IntersectionObserver(callback, {threshold: 0, rootMargin})]
    followed by [observer.observe(element)], for the callback [init] builds
    around [element].  A margin the engine does not take makes the
    constructor throw (a [DOMException] named SyntaxError); nothing is
    created then. *)
Definition new_observer `{Engine} (rootMargin : string) (element : Element)
  (s : State) : completion (Observer * State) :=
  if root_margin_accepted rootMargin then
    let observer := next_observer s in
    Normal
      (observer,
       with_next_observer (S observer)
         (with_intersection_observers
            (<[observer := (element, true)]> (intersection_observers s)) s))
  else Throw SyntaxError.

(** [observer.disconnect()] *)
Definition disconnect (observer : Observer) (s : State) : State :=
  with_intersection_observers
    (alter (fun o => (fst o, false)) observer (intersection_observers s)) s.

(* ===================================================================== *)
(** * The methods of the class *)
(* ===================================================================== *)

(** The [options] argument of the constructor and of [updateOptions]: the
    properties present. *)
Record Options := {
  opt_duration : option number;
  opt_easing : option string;
  opt_offset : option string;
  opt_once : option bool;
  opt_decimals : option (option Z);
  opt_separator : option string;
  opt_prefix : option string;
  opt_suffix : option string
}.

Definition no_options : Options :=
  Build_Options None None None None None None None None.

(** [Object.assign({}, settings, options)] *)
Definition assign (settings : Settings) (options : Options) : Settings := {|
  duration := default (duration settings) (opt_duration options);
  easing := default (easing settings) (opt_easing options);
  offset := default (offset settings) (opt_offset options);
  once := default (once settings) (opt_once options);
  decimals := default (decimals settings) (opt_decimals options);
  separator := default (separator settings) (opt_separator options);
  prefix := default (prefix settings) (opt_prefix options);
  suffix := default (suffix settings) (opt_suffix options)
|}.

Section Methods.
Context `{Engine}.
Local Open Scope number_scope.

(** ** [cancelAnimation(element)] *)
Definition cancelAnimation (element : Element) (s : State) : State :=
  match animations s !! element with
  | Some animId =>
      let s := cancelAnimationFrame animId s in
      with_animations (delete element (animations s)) s
  | None => s
  end.

(** ** The body of [step] *)

(** [Math.min(1, (timestamp - startTime) / duration)] *)
Definition progress_at (startTime duration timestamp : number) : number :=
  Math_min one ((timestamp - startTime) / duration).

(** One call [step(timestamp)] of the closure [cl].  The state returned with
    an exception is the state at the throw. *)
Definition step (cl : StepClosure) (timestamp : number) (s : State)
  : State * completion unit :=
  let element := cl_element cl in
  (* Initialize start time on first frame *)
  let startTime := default timestamp (cl_startTime cl) in
  (* Calculate progress *)
  let progress := progress_at startTime (cl_duration cl) timestamp in
  match call_easing (cl_easingFn cl) progress with
  | Throw e => (s, Throw e)
  | Normal easedProgress =>
      (* Calculate current value *)
      let currentValue :=
        cl_startValue cl
        + easedProgress * (cl_targetValue cl - cl_startValue cl) in
      (* Update element *)
      match formatNumber (settings s) currentValue (cl_decimals cl)
              (cl_hasComma cl) with
      | Throw e => (s, Throw e)
      | Normal text =>
          let s := set_innerText element text s in
          (* Continue animation if not complete *)
          if progress <? one then
            let '(animId, s) :=
              requestAnimationFrame
                {| cl_element := element;
                   cl_targetValue := cl_targetValue cl;
                   cl_decimals := cl_decimals cl;
                   cl_hasComma := cl_hasComma cl;
                   cl_startValue := cl_startValue cl;
                   cl_startTime := Some startTime;
                   cl_duration := cl_duration cl;
                   cl_easingFn := cl_easingFn cl |} s in
            (with_animations (<[element := animId]> (animations s)) s,
             Normal tt)
          else
            (* Ensure final value is exactly the target *)
            match formatNumber (settings s) (cl_targetValue cl)
                    (cl_decimals cl) (cl_hasComma cl) with
            | Throw e => (s, Throw e)
            | Normal text =>
                let s := set_innerText element text s in
                (with_animations (delete element (animations s)) s,
                 Normal tt)
            end
      end
  end.

(** ** [animate(element)] *)
Definition animate (element : Element) (s : State) : State :=
  (* Cancel any existing animation *)
  let s := cancelAnimation element s in
  (* Get stored values *)
  let data := dataset s !! element in
  let targetValue := from_option counterupNumber NaN data in
  let decimals := data ≫= counterupDecimals in
  let hasComma := from_option counterupHasCommas false data in
  (* Validation *)
  match decimals with
  | Some decimals =>
      if isNaN targetValue
      then console_warn "CounterUp: Invalid values for animation:"
             (AboutElement element) s
      else
        (* Set initial state, start animation *)
        let '(animId, s) :=
          requestAnimationFrame
            {| cl_element := element;
               cl_targetValue := targetValue;
               cl_decimals := decimals;
               cl_hasComma := hasComma;
               cl_startValue := zero;
               cl_startTime := None;
               cl_duration := duration (settings s);
               cl_easingFn := resolve_easing (easing (settings s)) |} s in
        with_animations (<[element := animId]> (animations s)) s
  | None =>
      console_warn "CounterUp: Invalid values for animation:"
        (AboutElement element) s
  end.

(** ** The callback of the observer [init] creates for [element] *)

(** The body of [entries.forEach] for one entry, [isIntersecting] being
    [entry.isIntersecting]. *)
Definition on_entry (observer : Observer) (element : Element)
  (isIntersecting : bool) (s : State) : State :=
  let currentlyVisible := isIntersecting in
  let wasVisible := default false (elementState s !! element) in
  (* Update visibility state *)
  let s := with_elementState (<[element := currentlyVisible]> (elementState s)) s in
  (* If element became visible (scrolled into view) *)
  if currentlyVisible then
    (* Always animate when becoming visible *)
    let s := animate element s in
    (* Disconnect observer if it should only trigger once *)
    if once (settings s) then
      let s := disconnect observer s in
      with_observers
        (filter (fun obs => obs ≠ observer) (observers s)) s
    else s
  else if wasVisible && negb currentlyVisible then
    (* Element scrolled out of view - cancel animation *)
    let s := cancelAnimation element s in
    (* Reset to zero for next scroll-in if not in "once" mode *)
    if negb (once (settings s)) then set_innerText element "0" s else s
  else s.

Definition observer_callback (observer : Observer) (element : Element)
  (entries : list bool) (s : State) : State :=
  fold_left (fun s entry => on_entry observer element entry s) entries s.

(** ** [init()] *)

(** The body of [this.elements.forEach] for one element. *)
Definition init_element (element : Element) (s : State)
  : State * completion unit :=
  (* Check for empty content *)
  let text := trim (get_innerText element s) in
  if String.eqb text "" then
    (console_warn "CounterUp: Element is empty:" (AboutElement element) s,
     Normal tt)
  else
    (* Store original value and parse number *)
    match parseValue (settings s) text with
    | Throw e => (s, Throw e)
    | Normal None =>
        (console_warn "CounterUp: Could not parse a valid number from:"
           (AboutText text) s, Normal tt)
    | Normal (Some parsedData) =>
        (* Store the parsed data in dataset *)
        let s :=
          with_dataset
            (<[element := {|
                 counterupValue := text;
                 counterupNumber :=
                   match pd_number parsedData with
                   | S754_zero _ => zero
                   | n => n
                   end;
                 counterupDecimals :=
                   Some (parseInt_String (pd_decimals parsedData));
                 counterupHasCommas := pd_hasComma parsedData |}]>
               (dataset s)) s in
        (* Initialize element state (not visible initially) *)
        let s := with_elementState (<[element := false]> (elementState s)) s in
        (* Create an intersection observer, start observing the element *)
        match new_observer (offset (settings s) +:+ " 0px") element s with
        | Throw e => (s, Throw e)
        | Normal (observer, s) =>
            (* Store observer reference *)
            (with_observers (observers s ++ [observer]) s, Normal tt)
        end
    end.

(** [forEach]: the callback on each element in turn, up to an exception. *)
Fixpoint forEach {A} (f : A -> State -> State * completion unit)
  (l : list A) (s : State) : State * completion unit :=
  match l with
  | [] => (s, Normal tt)
  | x :: l' =>
      match f x s with
      | (s, Normal _) => forEach f l' s
      | (s, Throw e) => (s, Throw e)
      end
  end.

Definition init (s : State) : State * completion unit :=
  forEach init_element (elements s) s.

(** ** [reset()] *)
Definition reset (s : State) : State :=
  (* Cancel all animations *)
  let s :=
    map_fold (fun _ animId s => cancelAnimationFrame animId s) s
      (animations s) in
  let s := with_animations ∅ s in
  (* Clear element states *)
  let s := with_elementState ∅ s in
  (* Disconnect all observers *)
  let s := fold_left (fun s observer => disconnect observer s) (observers s) s in
  let s := with_observers [] s in
  (* Reset elements to original values *)
  fold_left
    (fun s element =>
       match counterupValue <$> dataset s !! element with
       | Some value =>
           if String.eqb value "" then s else set_innerText element value s
       | None => s
       end)
    (elements s) s.

(** ** [updateOptions(options)], [restart()], [replay()], [destroy()] *)

Definition updateOptions (options : Options) (s : State)
  : State * completion unit :=
  let s := with_settings (assign (settings s) options) s in
  (* Re-initialize *)
  init (reset s).

Definition restart (s : State) : State * completion unit :=
  init (reset s).

Definition replay (s : State) : State :=
  fold_left
    (fun s element =>
       (* Reset to zero first, then animate *)
       animate element (set_innerText element "0" s))
    (elements s) s.

Definition destroy (s : State) : State :=
  with_elements [] (reset s).

(** ** The constructor *)

(** A page before any instance exists: the text of its elements and the
    [data-counterup-*] attributes already in the markup. *)
Definition page (text : gmap Element string) (data : gmap Element Dataset)
  : State := {|
  settings := defaults;
  elements := [];
  observers := [];
  animations := ∅;
  elementState := ∅;
  innerText := text;
  dataset := data;
  frame_callbacks := ∅;
  next_handle := 1%nat;
  intersection_observers := ∅;
  next_observer := 0%nat;
  console := []
|}.

(** [new CounterUp(selector, options)] on a page, [selected] being the
    elements the selector stands for. *)
Definition constructor (selected : list Element) (options : Options)
  (s : State) : State * completion unit :=
  let s := with_settings (assign defaults options) s in
  let s := with_elements selected s in
  let s := with_observers [] s in
  let s := with_animations ∅ s in
  let s := with_elementState ∅ s in
  (* Validate elements *)
  match selected with
  | [] =>
      (console_warn "CounterUp: No elements found matching selector"
         NoArgument s, Normal tt)
  | _ => init s
  end.

(** ** What the browser does *)

(** An exception that leaves a script or a callback is reported. *)
Definition report (r : State * completion unit) : State :=
  match r with
  | (s, Normal _) => s
  | (s, Throw e) => with_console (Uncaught e :: console s) s
  end.

(** The frame callback registered under [handle] is due: it is taken off
    the list and called.  A handle with no callback does nothing. *)
Definition frame (handle : Handle) (timestamp : number) (s : State) : State :=
  match frame_callbacks s !! handle with
  | Some cl =>
      report (step cl timestamp
                (with_frame_callbacks (delete handle (frame_callbacks s)) s))
  | None => s
  end.

(** The observer [observer] is notified of [entries]. *)
Definition intersect (observer : Observer) (entries : list bool) (s : State)
  : State :=
  match intersection_observers s !! observer with
  | Some (element, _) => observer_callback observer element entries s
  | None => s
  end.

(** ** Runs of an instance *)

(** What can happen once the instance exists: the browser notifies an
    observer or runs a frame callback, or the page calls a public method. *)
Inductive event :=
  | Intersect (observer : Observer) (entries : list bool)
  | Frame (handle : Handle) (timestamp : number)
  | UpdateOptions (options : Options)
  | Restart
  | Replay
  | Destroy.

Definition run_event (ev : event) (s : State) : State :=
  match ev with
  | Intersect observer entries => intersect observer entries s
  | Frame handle timestamp => frame handle timestamp s
  | UpdateOptions options => report (updateOptions options s)
  | Restart => report (restart s)
  | Replay => replay s
  | Destroy => destroy s
  end.

Definition run_events (evs : list event) (s : State) : State :=
  fold_left (fun s ev => run_event ev s) evs s.

(** The states an instance can be in. *)
Inductive reachable : State -> Prop :=
  | reachable_new text data selected options :
      reachable (report (constructor selected options (page text data)))
  | reachable_event s ev :
      reachable s -> reachable (run_event ev s).

(** ** Sessions *)

(** [handle] is a pending frame request of an animation of [element]. *)
Definition session_of (s : State) (element : Element) (handle : Handle)
  : Prop :=
  exists cl, frame_callbacks s !! handle = Some cl /\ cl_element cl = element.

Definition at_most_one_session (s : State) (element : Element) : Prop :=
  forall h1 h2, session_of s element h1 -> session_of s element h2 -> h1 = h2.

Definition exactly_one_session (s : State) (element : Element) : Prop :=
  exists h, session_of s element h
            /\ forall h', session_of s element h' -> h' = h.

Definition no_session (s : State) (element : Element) : Prop :=
  forall h, ~ session_of s element h.

End Methods.

(* ===================================================================== *)
(** * An engine to run the definitions on examples *)
(* ===================================================================== *)

Module ReferenceEngine.

(** [2^(n / 2^k)] for [n >= 0] by repeated square roots: [root] is
    [2^(1 / 2^i)] at bit [i] (from the top) of the fraction. *)
Fixpoint pow2_fraction (bits : list bool) (root acc : number) : number :=
  match bits with
  | [] => acc
  | b :: bits' =>
      let root := SFsqrt prec emax root in
      pow2_fraction bits' root (if b then mul acc root else acc)
  end.

(** The bits of [n mod 2^k], most significant first. *)
Definition fraction_bits (n k : Z) : list bool :=
  map (fun i => Z.testbit n (k - 1 - Z.of_nat i)) (seq 0 (Z.to_nat k)).

(** Powers of two; other bases are answered by [NaN]. *)
Definition pow (base exponent : number) : number :=
  if negb (strict_eqb base two) then NaN
  else
    match exponent with
    | S754_finite s m e =>
        if 0 <=? e then
          SFldexp prec emax one (if s then - (Zpos m * 2 ^ e) else Zpos m * 2 ^ e)
        else
          let n := if s then - Zpos m else Zpos m in
          SFldexp prec emax
            (pow2_fraction (fraction_bits n (- e)) two one)
            (n / 2 ^ (- e))
    | S754_infinity false => exponent
    | S754_infinity true => zero
    | _ => one
    end.

#[export] Instance reference_engine : Engine := {|
  pow_approx := pow;
  regexp_beyond := fun _ => None;
  root_margin_beyond := fun _ => false
|}.

End ReferenceEngine.

(* ===================================================================== *)
(** * The invariant of the sessions *)
(* ===================================================================== *)

(** Every pending frame request is the one recorded for its element. *)
Definition sessions_recorded (s : State) : Prop :=
  forall h cl, frame_callbacks s !! h = Some cl ->
    animations s !! cl_element cl = Some h.

(** A closure that carries what the dataset of its element holds. *)
Definition faithful_closure (s : State) (cl : StepClosure) : Prop :=
  exists d, dataset s !! cl_element cl = Some d
      /\ counterupDecimals d = Some (cl_decimals cl)
      /\ cl_targetValue cl = counterupNumber d
      /\ cl_hasComma cl = counterupHasCommas d
      /\ cl_startValue cl = zero.

(** Every pending frame request is such a closure. *)
Definition sessions_faithful (s : State) : Prop :=
  forall h cl, frame_callbacks s !! h = Some cl -> faithful_closure s cl.

(** A recorded handle that is pending belongs to the element it is recorded
    for. *)
Definition sessions_owned (s : State) : Prop :=
  forall e h cl, animations s !! e = Some h ->
    frame_callbacks s !! h = Some cl -> cl_element cl = e.

(** The handles recorded were all handed out already. *)
Definition handles_fresh (s : State) : Prop :=
  forall e h, animations s !! e = Some h -> (h < next_handle s)%nat.

Definition invariant (s : State) : Prop :=
  sessions_recorded s /\ sessions_faithful s /\ sessions_owned s
  /\ handles_fresh s.


(* ===================================================================== *)
(** * The easing table and the formulas of the specification *)
(* ===================================================================== *)

(** The eight properties of the table. *)
Definition easing_table : list (string * curve) :=
  [("easeLinear", EaseLinear); ("easeInQuad", EaseInQuad);
   ("easeOutQuad", EaseOutQuad); ("easeInOutQuad", EaseInOutQuad);
   ("easeInCubic", EaseInCubic); ("easeOutCubic", EaseOutCubic);
   ("easeInOutCubic", EaseInOutCubic); ("easeOutExpo", EaseOutExpo)].

(** The formulas of the specification, products taken from the left. *)
Module Formula.
Section Formula.
Context `{Engine}.
Local Open Scope number_scope.
Definition square (t : number) := t * t.
Definition cube (t : number) := t * t * t.
Definition linear (t : number) := t.
Definition inQuad (t : number) := square t.
Definition outQuad (t : number) := t * (two - t).
Definition inOutQuad (t : number) :=
  if t <? half then two * t * t else minus_one + (four - two * t) * t.
Definition inCubic (t : number) := cube t.
Definition outCubic (t : number) := cube (t - one) + one.
Definition inOutCubic (t : number) :=
  if t <? half then four * t * t * t
  else (t - one) * (two * t - two) * (two * t - two) + one.
Definition outExpo (t : number) :=
  if strict_eqb t one then one else one - Math_pow two (minus_ten * t).
Definition table : list (number -> number) :=
  [linear; inQuad; outQuad; inOutQuad; inCubic; outCubic; inOutCubic; outExpo].
End Formula.
End Formula.

(* ===================================================================== *)
(** * Registration, as [init] performs it *)
(* ===================================================================== *)

Section RegistrationDefs.
Context `{Engine}.

(** [new RegExp(separator, "g")] does not throw. *)
Definition regexp_accepts (separator : string) : bool :=
  match compile separator with
  | Some _ => true
  | None => bool_decide (is_Some (regexp_beyond separator))
  end.

(** The text [init] reads from an element. *)
Definition source_text (s : State) (element : Element) : string :=
  trim (get_innerText element s).

(** What [init] parses from an element: [None] for a blank text and for a
    text [parseValue] answers [null] to. *)
Definition registration (s : State) (element : Element) : option ParsedData :=
  if String.eqb (source_text s element) EmptyString then None
  else match parseValue (settings s) (source_text s element) with
       | Normal parsed => parsed
       | Throw _ => None
       end.

Definition is_registered (s : State) (element : Element) : bool :=
  bool_decide (is_Some (registration s element)).

(** The warning for an element that is skipped. *)
Definition skip_warning (s : State) (element : Element) : log_entry :=
  if String.eqb (source_text s element) EmptyString
  then Warn "CounterUp: Element is empty:" (AboutElement element)
  else Warn "CounterUp: Could not parse a valid number from:"
         (AboutText (source_text s element)).

(** The dataset [init] leaves on an element it registers. *)
Definition registered_data (s : State) (element : Element) (parsed : ParsedData)
  : Dataset := {|
  counterupValue := source_text s element;
  counterupNumber := match pd_number parsed with
                     | S754_zero _ => zero
                     | n => n
                     end;
  counterupDecimals := Some (parseInt_String (pd_decimals parsed));
  counterupHasCommas := pd_hasComma parsed
|}.

Definition register_element (s0 : State) (e : Element) (parsed : ParsedData)
  (s : State) : State :=
  with_observers (observers s ++ [next_observer s])
    (with_next_observer (S (next_observer s))
       (with_intersection_observers
          (<[next_observer s := (e, true)]> (intersection_observers s))
          (with_elementState (<[e := false]> (elementState s))
             (with_dataset
                (<[e := registered_data s0 e parsed]> (dataset s)) s)))).

End RegistrationDefs.


(* ===================================================================== *)
(** * Separators read literally *)
(* ===================================================================== *)

(** The syntax characters of a regular expression. *)
Definition is_syntax_character (c : ascii) : bool :=
  existsb (Ascii.eqb c) (list_ascii_of_string "^$\.*+?()[]{}|").

Definition has_syntax_character (p : string) : bool :=
  existsb is_syntax_character (list_ascii_of_string p).

(** [value] without the literal occurrences of [separator], read left to
    right; [skip] counts the characters of the current occurrence still to
    drop. *)
Fixpoint remove_literal_go (separator : string) (skip : nat) (s : string)
  : string :=
  match s with
  | EmptyString => EmptyString
  | String c s' =>
      match skip with
      | S k => remove_literal_go separator k s'
      | O =>
          if negb (String.eqb separator EmptyString) && startsWith s separator
          then remove_literal_go separator (String.length separator - 1) s'
          else String c (remove_literal_go separator O s')
      end
  end.

Definition remove_literal (separator value : string) : string :=
  remove_literal_go separator O value.

(** [settings] with another separator. *)
Definition with_separator (sep : string) (st : Settings) : Settings :=
  assign st (Build_Options None None None None None (Some sep) None None).

(** Whether [s] holds nothing but line terminators. *)
Fixpoint only_line_terminators (s : string) : bool :=
  match s with
  | EmptyString => true
  | String c s' => is_line_terminator c && only_line_terminators s'
  end.

(* ===================================================================== *)
(** * What the formatter is to render *)
(* ===================================================================== *)

Abbreviation text := string_of_list_ascii.

(** The low [k] decimal digits of [n >= 0], most significant first. *)
Fixpoint digits_padded (k : nat) (n : Z) : list ascii :=
  match k with
  | O => []
  | S k' => digits_padded k' (n / 10) ++ [digit_char (n mod 10)]
  end.

(** The digits [ds] that follow a first digit: a separator stands before
    every digit whose distance to the end is a multiple of three. *)
Fixpoint group_tail (sep : string) (ds : list ascii) : string :=
  match ds with
  | [] => EmptyString
  | d :: rest =>
      (if (length ds mod 3 =? 0)%nat then sep else EmptyString)
      +:+ String d (group_tail sep rest)
  end.

(** The integer part [ds] with [sep] every three digits from its end. *)
Definition group_thousands (sep : string) (ds : list ascii) : string :=
  match ds with
  | [] => EmptyString
  | d :: rest => String d (group_tail sep rest)
  end.

(** The numbers [toFixed] writes in fixed notation: zero and the finite
    numbers below [10^21] in magnitude. *)
Definition fixed_range (x : number) : bool :=
  match x with
  | S754_zero _ => true
  | S754_finite _ m e => negb (at_least_1e21 m e)
  | _ => false
  end.

Definition is_negative (x : number) : bool :=
  match x with
  | S754_finite s _ _ => s
  | _ => false
  end.

(** The magnitude of [x] times [10^d], rounded. *)
Definition rounded (x : number) (d : Z) : Z :=
  match x with
  | S754_finite _ m e => round_half_up (Zpos m) e d
  | _ => 0
  end.

(** [n - 1/2 <= |x| * 10^d < n + 1/2]: [n] is the integer nearest to the
    magnitude of [x] scaled by [10^d], the one away from zero at a tie. *)
Definition nearest_away_from_zero (x : number) (d n : Z) : Prop :=
  match x with
  | S754_zero _ => n = 0
  | S754_finite _ m e =>
      (2 * n - 1) * 2 ^ Z.max 0 (- e)
      <= 2 * (Zpos m * 2 ^ Z.max 0 e) * 10 ^ d
      < (2 * n + 1) * 2 ^ Z.max 0 (- e)
  | _ => False
  end.

(** Sign, integer part (grouped on request), point and fraction. *)
Definition format_body (sep : string) (x : number) (d : Z) (grouped : bool)
  : string :=
  let n := rounded x d in
  let integer := digits (n / 10 ^ d) in
  text (if is_negative x then ["-"%char] else [])
  +:+ (if grouped then group_thousands sep integer else text integer)
  +:+ (if d =? 0 then EmptyString
       else String "."%char (text (digits_padded (Z.to_nat d) n))).

(** Sign and integer part, and fraction, of the fixed notation. *)
Definition fixed_text (x : number) (d : Z) : list ascii * list ascii :=
  let n := rounded x d in
  ((if is_negative x then ["-"%char] else []) ++ digits (n / 10 ^ d),
   digits_padded (Z.to_nat d) n).

(* ===================================================================== *)
(** * Example pages *)
(* ===================================================================== *)

Import ReferenceEngine.

Definition with_easing (name : string) : Options :=
  Build_Options None (Some name) None None None None None None.
Definition with_prefix (p : string) : Options :=
  Build_Options None None None None None None (Some p) None.

(** A page with one counter, "1,500". *)
Definition demo_page : State := page {[0%nat := "1,500"]} ∅.
(** ... registered with the default settings, *)
Definition demo_registered : State :=
  report (constructor [0%nat] no_options demo_page).
(** ... scrolled into view, *)
Definition demo_visible : State :=
  run_event (Intersect 0%nat [true]) demo_registered.
(** ... after its first frame, at time 1000, *)
Definition demo_running : State :=
  run_event (Frame 1%nat (of_Z 1000)) demo_visible.
(** ... and scrolled out of view again. *)
Definition demo_hidden : State :=
  run_event (Intersect 0%nat [false]) demo_running.

(** The request that was pending when the counter left the viewport. *)
Definition demo_stale_step : StepClosure := {|
  cl_element := 0%nat;
  cl_targetValue := of_Z 1500;
  cl_decimals := 0;
  cl_hasComma := true;
  cl_startValue := zero;
  cl_startTime := Some (of_Z 1000);
  cl_duration := of_Z 800;
  cl_easingFn := resolve_easing "easeOutExpo"
|}.


(** A page of four elements, before [init]: a counter, a blank element, a
    text that is no number, and a negative counter with a fraction. *)
Definition demo_four : State :=
  with_elements [0; 1; 2; 3]%nat
    (page (<[0%nat := "1,500"]> (<[1%nat := "  "]> (<[2%nat := "n/a"]>
             (<[3%nat := "-2500.50"]> ∅)))) ∅).




(* ===================================================================== *)
(** * Observers, original texts and first steps *)
(* ===================================================================== *)

(** Whether [observer] is still connected to its element: the browser
    notifies no other observer. *)
Definition connected (s : State) (observer : Observer) : bool :=
  match intersection_observers s !! observer with
  | Some (_, c) => c
  | None => false
  end.

(** Every connected observer is in [this.observers]. *)
Definition connected_listed (s : State) : Prop :=
  forall o, connected s o = true -> o ∈ observers s.

(** The text [reset] puts back on an element: its [data-counterup-value],
    unless that is missing or empty. *)
Definition original_text (s : State) (element : Element) : option string :=
  match counterupValue <$> dataset s !! element with
  | Some value => if String.eqb value EmptyString then None else Some value
  | None => None
  end.

(** What [animate] needs of an element: decimals that [parseInt] reads and
    a number that is not [NaN]. *)
Definition animatable (s : State) (element : Element) : bool :=
  match dataset s !! element with
  | Some d =>
      bool_decide (is_Some (counterupDecimals d))
      && negb (isNaN (counterupNumber d))
  | None => false
  end.

(** The observers in [this.observers] are connected and distinct, the
    identities handed out are below the next one, and a connected observer
    watches an element of [this.elements] that can be animated. *)
Definition observers_sound (s : State) : Prop :=
  (forall o, o ∈ observers s -> connected s o = true)
  /\ NoDup (observers s)
  /\ (forall o, is_Some (intersection_observers s !! o) ->
        (o < next_observer s)%nat)
  /\ (forall o e, intersection_observers s !! o = Some (e, true) ->
        e ∈ elements s /\ animatable s e = true).

(** The fields that tell which elements are registered and observed. *)
Definition same_registry (s s' : State) : Prop :=
  elements s' = elements s /\ observers s' = observers s
  /\ dataset s' = dataset s
  /\ intersection_observers s' = intersection_observers s
  /\ next_observer s' = next_observer s.

(** The closure [animate] hands to [requestAnimationFrame] for an element
    whose dataset is [d], read with decimals [dec]. *)
Definition first_step (s : State) (element : Element) (d : Dataset) (dec : Z)
  : StepClosure := {|
  cl_element := element;
  cl_targetValue := counterupNumber d;
  cl_decimals := dec;
  cl_hasComma := counterupHasCommas d;
  cl_startValue := zero;
  cl_startTime := None;
  cl_duration := duration (settings s);
  cl_easingFn := resolve_easing (easing (settings s))
|}.

(** No element is recorded as visible. *)
Definition all_hidden (s : State) : Prop :=
  forall e b, elementState s !! e = Some b -> b = false.

(* ===================================================================== *)
(** * Elements side by side, exceptions, the first frame *)
(* ===================================================================== *)

(** The warning of [animate] about [element]. *)
Definition invalid_values (element : Element) : log_entry :=
  Warn "CounterUp: Invalid values for animation:" (AboutElement element).

(** What a state holds about [element]: its text, its dataset, its recorded
    animation and its pending frame requests. *)
Definition untouched (element : Element) (s s' : State) : Prop :=
  get_innerText element s' = get_innerText element s
  /\ dataset s' !! element = dataset s !! element
  /\ animations s' !! element = animations s !! element
  /\ (forall h, session_of s' element h <-> session_of s element h).

(** No exception has left a callback or a method so far. *)
Definition no_exception (s : State) : bool :=
  forallb (fun entry => match entry with
                        | Uncaught _ => false
                        | Warn _ _ => true
                        end) (console s).

(** Every recorded animation has its frame request pending. *)
Definition recorded_pending (s : State) : Prop :=
  forall e h, animations s !! e = Some h -> is_Some (frame_callbacks s !! h).

(** The four-element page, registered with the default settings. *)
Definition demo_four_registered : State :=
  report (constructor [0; 1; 2; 3]%nat no_options
            (page (<[0%nat := "1,500"]> (<[1%nat := "  "]> (<[2%nat := "n/a"]>
                     (<[3%nat := "-2500.50"]> ∅)))) ∅)).

(** A number that is zero or finite, as a timestamp is. *)
Definition is_finite (x : number) : bool :=
  match x with
  | S754_zero _ | S754_finite _ _ _ => true
  | _ => false
  end.

(** A number that is neither zero nor [NaN]. *)
Definition is_nonzero (x : number) : bool :=
  match x with
  | S754_finite _ _ _ | S754_infinity _ => true
  | _ => false
  end.

Definition is_zero (x : number) : bool :=
  match x with
  | S754_zero _ => true
  | _ => false
  end.

(** Zero in fixed notation with [d] decimals. *)
Definition zero_text (d : Z) : string :=
  String "0" (if d =? 0 then EmptyString
              else String "." (text (repeat "0"%char (Z.to_nat d)))).

(** The closure [step] requests the next frame with: the start time is set. *)
Definition started (cl : StepClosure) (startTime : number) : StepClosure := {|
  cl_element := cl_element cl;
  cl_targetValue := cl_targetValue cl;
  cl_decimals := cl_decimals cl;
  cl_hasComma := cl_hasComma cl;
  cl_startValue := cl_startValue cl;
  cl_startTime := Some startTime;
  cl_duration := cl_duration cl;
  cl_easingFn := cl_easingFn cl
|}.

(** Options that set the duration. *)
Definition with_duration (d : number) : Options :=
  Build_Options (Some d) None None None None None None None.

(** The one-counter page with duration 0, scrolled into view. *)
Definition instant_visible : State :=
  run_event (Intersect 0%nat [true])
    (report (constructor [0%nat] (with_duration zero) demo_page)).

(* ===================================================================== *)
(** * What is shown, read again *)
(* ===================================================================== *)

(** [s] without the occurrences of the character [c]. *)
Fixpoint without_char (c : ascii) (s : string) : string :=
  match s with
  | EmptyString => EmptyString
  | String a s' =>
      if Ascii.eqb c a then without_char c s' else String a (without_char c s')
  end.

(** The number nearest to the decimal that [formatNumber] shows of [x] with
    [d] decimals. *)
Definition shown_number (x : number) (d : Z) : number :=
  if rounded x d =? 0 then S754_zero (is_negative x)
  else round_ratio (is_negative x) (rounded x d) (10 ^ d).

(** The name [toFixed] gives what is no finite number. *)
Definition number_name (x : number) : string :=
  match x with
  | S754_infinity false => "Infinity"
  | S754_infinity true => "-Infinity"
  | _ => "NaN"
  end.

(* ===================================================================== *)
(** * Settings that make the built-ins throw *)
(* ===================================================================== *)

(** Whether the text [init] reads from [element] is blank. *)
Definition is_blank (s : State) (element : Element) : bool :=
  String.eqb (source_text s element) EmptyString.

(** The elements at the head of [l] whose text is blank. *)
Fixpoint blank_prefix (s : State) (l : list Element) : list Element :=
  match l with
  | e :: l' => if is_blank s e then e :: blank_prefix s l' else []
  | [] => []
  end.

(** The warning of [init] about a blank element. *)
Definition empty_warning (element : Element) : log_entry :=
  Warn "CounterUp: Element is empty:" (AboutElement element).

(** Options that set the decimals. *)
Definition with_decimals (d : Z) : Options :=
  Build_Options None None None None (Some (Some d)) None None None.

(** The one-counter page with the separator "(" ... *)
Definition demo_unbalanced : State :=
  report (constructor [0%nat] (Build_Options None None None None None
                                 (Some "(") None None) demo_page).
(** ... and with 101 decimals, scrolled into view. *)
Definition demo_many_decimals : State :=
  run_event (Intersect 0%nat [true])
    (report (constructor [0%nat] (with_decimals 101) demo_page)).

(* ===================================================================== *)
(** * Proofs: the sessions *)
(* ===================================================================== *)

Section Invariant.
Context `{Engine}.

Lemma cancelAnimation_frame_callbacks e s h cl :
  frame_callbacks (cancelAnimation e s) !! h = Some cl ->
  frame_callbacks s !! h = Some cl /\ animations s !! e <> Some h.
Proof.
  unfold cancelAnimation. destruct (animations s !! e) as [a|] eqn:Ea; cbn.
  - intros Hl. apply lookup_delete_Some in Hl as [Hne Hl]. split; [done|congruence].
  - intros Hl. split; [done|congruence].
Qed.

Lemma cancelAnimation_animations e s e' :
  animations (cancelAnimation e s) !! e' =
  if decide (e = e') then None else animations s !! e'.
Proof.
  unfold cancelAnimation. destruct (animations s !! e) as [a|] eqn:Ea; cbn.
  - rewrite lookup_delete. done.
  - case_decide; subst; done.
Qed.

Lemma cancelAnimation_no_session e s :
  sessions_recorded s -> no_session (cancelAnimation e s) e.
Proof.
  intros Hrec h (cl & Hl & <-).
  apply cancelAnimation_frame_callbacks in Hl as [Hl Hne].
  apply Hne, Hrec, Hl.
Qed.

Lemma cancelAnimation_dataset e s : dataset (cancelAnimation e s) = dataset s.
Proof. unfold cancelAnimation. by destruct (animations s !! e). Qed.

Lemma cancelAnimation_next_handle e s :
  next_handle (cancelAnimation e s) = next_handle s.
Proof. unfold cancelAnimation. by destruct (animations s !! e). Qed.

Lemma cancelAnimation_invariant e s :
  invariant s -> invariant (cancelAnimation e s).
Proof.
  intros (Hrec & Hfaith & Hown & Hfresh). repeat split.
  - intros h cl Hl. pose proof Hl as Hl'.
    apply cancelAnimation_frame_callbacks in Hl as [Hl Hne].
    rewrite cancelAnimation_animations. case_decide as Heq.
    + exfalso. apply Hne. rewrite Heq. by apply Hrec.
    + by apply Hrec.
  - intros h cl Hl. apply cancelAnimation_frame_callbacks in Hl as [Hl _].
    unfold faithful_closure. rewrite cancelAnimation_dataset. by eapply Hfaith.
  - intros e' h cl Ha Hl. rewrite cancelAnimation_animations in Ha.
    case_decide; [done|].
    apply cancelAnimation_frame_callbacks in Hl as [Hl _]. by eapply Hown.
  - intros e' h Ha. rewrite cancelAnimation_animations in Ha.
    case_decide; [done|]. rewrite cancelAnimation_next_handle. by eapply Hfresh.
Qed.

(** Registering a request for an element without one keeps the invariant. *)
Lemma request_invariant s cl :
  invariant s -> no_session s (cl_element cl) -> faithful_closure s cl ->
  let '(animId, s') := requestAnimationFrame cl s in
  invariant (with_animations (<[cl_element cl := animId]> (animations s')) s').
Proof.
  intros (Hrec & Hfaith & Hown & Hfresh) Hnone Hcl. cbn. repeat split.
  - intros h cl' Hl. cbn in *.
    destruct (decide (h = next_handle s)) as [->|Hne].
    + rewrite lookup_insert_eq in Hl. injection Hl as <-.
      by rewrite lookup_insert_eq.
    + rewrite lookup_insert_ne in Hl by done.
      destruct (decide (cl_element cl = cl_element cl')) as [Heq|Hne'].
      * exfalso. apply (Hnone h). by exists cl'.
      * rewrite lookup_insert_ne by done. by apply Hrec.
  - intros h cl' Hl. cbn in *.
    destruct (decide (h = next_handle s)) as [->|Hne].
    + rewrite lookup_insert_eq in Hl. by injection Hl as <-.
    + rewrite lookup_insert_ne in Hl by done. by eapply Hfaith.
  - intros e h cl' Ha Hl. cbn in *.
    destruct (decide (cl_element cl = e)) as [<-|Hne].
    + rewrite lookup_insert_eq in Ha. injection Ha as <-.
      rewrite lookup_insert_eq in Hl. by injection Hl as <-.
    + rewrite lookup_insert_ne in Ha by done.
      destruct (decide (h = next_handle s)) as [->|Hne'].
      * apply Hfresh in Ha. lia.
      * rewrite lookup_insert_ne in Hl by done. by eapply Hown.
  - intros e h Ha. cbn in *.
    destruct (decide (cl_element cl = e)) as [<-|Hne].
    + rewrite lookup_insert_eq in Ha. injection Ha as <-. lia.
    + rewrite lookup_insert_ne in Ha by done. apply Hfresh in Ha. lia.
Qed.

Lemma console_warn_invariant m a s : invariant s -> invariant (console_warn m a s).
Proof. by intros (?&?&?&?). Qed.

Lemma set_innerText_invariant e t s : invariant s -> invariant (set_innerText e t s).
Proof. by intros (?&?&?&?). Qed.

Lemma animate_invariant e s : invariant s -> invariant (animate e s).
Proof.
  intros Hinv. unfold animate.
  pose proof (cancelAnimation_invariant e s Hinv) as Hinv'.
  pose proof (cancelAnimation_no_session e s (proj1 Hinv)) as Hnone.
  set (s1 := cancelAnimation e s) in *.
  destruct (dataset s1 !! e) as [d|] eqn:Ed; cbn;
    [|by apply console_warn_invariant].
  destruct (counterupDecimals d) as [dec|] eqn:Edec; cbn;
    [|by apply console_warn_invariant].
  destruct (isNaN (counterupNumber d)); [by apply console_warn_invariant|].
  apply (request_invariant s1
           {| cl_element := e; cl_targetValue := counterupNumber d;
              cl_decimals := dec; cl_hasComma := counterupHasCommas d;
              cl_startValue := zero; cl_startTime := None;
              cl_duration := duration (settings s1);
              cl_easingFn := resolve_easing (easing (settings s1)) |});
    [done|done|].
  exists d. by cbn.
Qed.

(** [step] on a state where the closure's request has been taken off. *)
Lemma step_invariant cl ts s :
  invariant s -> no_session s (cl_element cl) -> faithful_closure s cl ->
  invariant (fst (step cl ts s)).
Proof.
  intros Hinv Hnone Hcl. unfold step.
  destruct (call_easing _ _) as [eased|]; [|done].
  destruct (formatNumber _ _ _ _) as [text|]; [|done].
  destruct (ltb _ one).
  - set (cl' := Build_StepClosure _ _ _ _ _ _ _ _).
    apply (request_invariant (set_innerText (cl_element cl) text s) cl').
    + by apply set_innerText_invariant.
    + done.
    + destruct Hcl as (d & ?). by exists d.
  - cbn. destruct (formatNumber _ _ _ _) as [text'|]; cbn.
    + destruct Hinv as (Hrec & Hfaith & Hown & Hfresh). repeat split.
      * intros h cl' Hl. cbn in *.
        destruct (decide (cl_element cl = cl_element cl')) as [Heq|Hne'].
        -- exfalso. apply (Hnone h). by exists cl'.
        -- rewrite lookup_delete_ne by done. by apply Hrec.
      * intros h cl' Hl. by eapply Hfaith.
      * intros e h cl' Ha Hl. cbn in *.
        apply lookup_delete_Some in Ha as [_ Ha]. by eapply Hown.
      * intros e h Ha. cbn in *.
        apply lookup_delete_Some in Ha as [_ Ha]. by eapply Hfresh.
    + by apply set_innerText_invariant.
Qed.

Lemma report_invariant r : invariant (fst r) -> invariant (report r).
Proof. destruct r as [s [a|e]]; [done|]. by intros (?&?&?&?). Qed.

Lemma take_off_invariant h s :
  invariant s ->
  invariant (with_frame_callbacks (delete h (frame_callbacks s)) s).
Proof.
  intros (Hrec & Hfaith & Hown & Hfresh). repeat split.
  - intros h' cl' Hl. cbn in *. apply lookup_delete_Some in Hl as [_ Hl].
    by apply Hrec.
  - intros h' cl' Hl. cbn in *. apply lookup_delete_Some in Hl as [_ Hl].
    by eapply Hfaith.
  - intros e h' cl' Ha Hl. cbn in *. apply lookup_delete_Some in Hl as [_ Hl].
    by eapply Hown.
  - done.
Qed.

Lemma take_off_no_session h cl s :
  sessions_recorded s -> frame_callbacks s !! h = Some cl ->
  no_session (with_frame_callbacks (delete h (frame_callbacks s)) s)
    (cl_element cl).
Proof.
  intros Hrec Ecl h' (cl' & Hl & Heq). cbn in *.
  apply lookup_delete_Some in Hl as [Hne Hl].
  apply Hrec in Hl. apply Hrec in Ecl. congruence.
Qed.

Lemma frame_invariant h ts s : invariant s -> invariant (frame h ts s).
Proof.
  intros Hinv. unfold frame.
  destruct (frame_callbacks s !! h) as [cl|] eqn:Ecl; [|done].
  apply report_invariant, step_invariant.
  - by apply take_off_invariant.
  - apply take_off_no_session; [apply Hinv|done].
  - destruct Hinv as (_ & Hfaith & _). by eapply Hfaith.
Qed.

Lemma fold_left_invariant {A} (f : State -> A -> State) (l : list A) s :
  (forall s x, invariant s -> invariant (f s x)) ->
  invariant s -> invariant (fold_left f l s).
Proof.
  intros Hf. revert s. induction l as [|x l IH]; intros s Hs; cbn; auto.
Qed.

Lemma disconnect_invariant o s : invariant s -> invariant (disconnect o s).
Proof. by intros (?&?&?&?). Qed.

Lemma on_entry_invariant o e b s : invariant s -> invariant (on_entry o e b s).
Proof.
  intros Hinv. unfold on_entry.
  set (s1 := with_elementState _ s).
  assert (invariant s1) as Hinv1 by (by destruct Hinv as (?&?&?&?)).
  destruct b; cbn.
  - pose proof (animate_invariant e s1 Hinv1) as Ha.
    destruct (once (settings (animate e s1))); [|done].
    by destruct (disconnect_invariant o _ Ha) as (?&?&?&?).
  - destruct (default false (elementState s !! e)); cbn; [|done].
    pose proof (cancelAnimation_invariant e s1 Hinv1) as Hc.
    destruct (once (settings (cancelAnimation e s1))); cbn; [done|].
    by apply set_innerText_invariant.
Qed.

Lemma intersect_invariant o entries s :
  invariant s -> invariant (intersect o entries s).
Proof.
  intros Hinv. unfold intersect.
  destruct (intersection_observers s !! o) as [[e c]|]; [|done].
  apply fold_left_invariant; [|done]. intros. by apply on_entry_invariant.
Qed.

Lemma replay_invariant s : invariant s -> invariant (replay s).
Proof.
  intros Hinv. apply fold_left_invariant; [|done].
  intros. by apply animate_invariant, set_innerText_invariant.
Qed.

(** ** [reset] leaves no frame request *)

Lemma reset_cancels (m : gmap Element Handle) s :
  let s' := map_fold (fun _ animId s => cancelAnimationFrame animId s) s m in
  forall h cl, frame_callbacks s' !! h = Some cl ->
    frame_callbacks s !! h = Some cl /\ forall e, m !! e <> Some h.
Proof.
  cbn. apply (map_fold_weak_ind (fun s' m =>
    forall h cl, frame_callbacks s' !! h = Some cl ->
      frame_callbacks s !! h = Some cl /\ forall e, m !! e <> Some h)).
  - intros h cl Hl. split; [done|]. intros e. by rewrite lookup_empty.
  - intros e a m' r Hnone IH h cl Hl. cbn in Hl.
    apply lookup_delete_Some in Hl as [Hne Hl].
    destruct (IH h cl Hl) as [Hs Hno]. split; [done|].
    intros e'. destruct (decide (e = e')) as [->|Hne'].
    + rewrite lookup_insert_eq. congruence.
    + rewrite lookup_insert_ne by done. apply Hno.
Qed.

Lemma fold_left_preserves {A B} (g : State -> B) (f : State -> A -> State)
  (l : list A) s :
  (forall s x, g (f s x) = g s) -> g (fold_left f l s) = g s.
Proof.
  intros Hf. revert s. induction l as [|x l IH]; intros s; cbn; [done|].
  by rewrite IH, Hf.
Qed.

Lemma reset_restore_preserves {B} (g : State -> B) s e :
  (forall e t s, g (set_innerText e t s) = g s) ->
  g match counterupValue <$> dataset s !! e with
    | Some value =>
        if String.eqb value EmptyString then s else set_innerText e value s
    | None => s
    end = g s.
Proof.
  intros Hg. destruct (counterupValue <$> dataset s !! e); [|done].
  by destruct (String.eqb _ _).
Qed.

Lemma reset_no_request s :
  sessions_recorded s -> frame_callbacks (reset s) = ∅.
Proof.
  intros Hrec. unfold reset.
  rewrite (fold_left_preserves frame_callbacks)
    by (intros; by apply (reset_restore_preserves frame_callbacks)).
  cbn. rewrite (fold_left_preserves frame_callbacks) by done. cbn.
  apply map_eq. intros h. rewrite lookup_empty.
  destruct (_ !! h) as [cl|] eqn:Ecl; [|done]. exfalso.
  apply reset_cancels in Ecl as [Hl Hno]. apply Hrec in Hl. by apply Hno in Hl.
Qed.

Lemma reset_animations s : animations (reset s) = ∅.
Proof.
  unfold reset.
  rewrite (fold_left_preserves animations)
    by (intros; by apply (reset_restore_preserves animations)).
  cbn. by rewrite (fold_left_preserves animations).
Qed.

Lemma idle_invariant s :
  frame_callbacks s = ∅ -> animations s = ∅ -> invariant s.
Proof.
  intros He Ha. repeat split.
  - intros h cl Hl. by rewrite He, lookup_empty in Hl.
  - intros h cl Hl. by rewrite He, lookup_empty in Hl.
  - intros e h cl Hl. by rewrite Ha, lookup_empty in Hl.
  - intros e h Hl. by rewrite Ha, lookup_empty in Hl.
Qed.

Lemma forEach_preserves {A B} (g : State -> B)
  (f : A -> State -> State * completion unit) l s :
  (forall x s, g (fst (f x s)) = g s) -> g (fst (forEach f l s)) = g s.
Proof.
  intros Hf. revert s. induction l as [|x l IH]; intros s; cbn; [done|].
  specialize (Hf x s). destruct (f x s) as [s' [[]|e]]; cbn in *.
  - by rewrite IH.
  - done.
Qed.

Lemma init_frame_callbacks s :
  frame_callbacks (fst (init s)) = frame_callbacks s.
Proof.
  apply (forEach_preserves frame_callbacks). intros e s'.
  unfold init_element, new_observer. destruct (String.eqb _ _); [done|].
  destruct (parseValue _ _) as [[pd|]|]; [|done|done].
  by destruct (root_margin_accepted _).
Qed.

Lemma init_animations s : animations (fst (init s)) = animations s.
Proof.
  apply (forEach_preserves animations). intros e s'.
  unfold init_element, new_observer. destruct (String.eqb _ _); [done|].
  destruct (parseValue _ _) as [[pd|]|]; [|done|done].
  by destruct (root_margin_accepted _).
Qed.

Lemma report_idle r :
  frame_callbacks (fst r) = ∅ -> animations (fst r) = ∅ -> invariant (report r).
Proof. intros. by apply report_invariant, idle_invariant. Qed.

Lemma restart_invariant s : invariant s -> invariant (report (restart s)).
Proof.
  intros [Hrec _]. unfold restart. apply report_idle.
  - rewrite init_frame_callbacks. by apply reset_no_request.
  - rewrite init_animations. apply reset_animations.
Qed.

Lemma updateOptions_invariant o s :
  invariant s -> invariant (report (updateOptions o s)).
Proof.
  intros [Hrec _]. unfold updateOptions. apply report_idle.
  - rewrite init_frame_callbacks. by apply reset_no_request.
  - rewrite init_animations. apply reset_animations.
Qed.

Lemma destroy_invariant s : invariant s -> invariant (destroy s).
Proof.
  intros [Hrec _]. apply idle_invariant; unfold destroy; cbn.
  - by apply reset_no_request.
  - apply reset_animations.
Qed.

Lemma constructor_invariant text data selected options :
  invariant (report (constructor selected options (page text data))).
Proof.
  unfold constructor. destruct selected.
  - by apply report_idle.
  - apply report_idle.
    + by rewrite init_frame_callbacks.
    + by rewrite init_animations.
Qed.

Lemma run_event_invariant ev s : invariant s -> invariant (run_event ev s).
Proof.
  destruct ev; cbn.
  - apply intersect_invariant.
  - apply frame_invariant.
  - apply updateOptions_invariant.
  - apply restart_invariant.
  - apply replay_invariant.
  - apply destroy_invariant.
Qed.

Lemma reachable_invariant s : reachable s -> invariant s.
Proof.
  induction 1.
  - apply constructor_invariant.
  - by apply run_event_invariant.
Qed.


(** ** Starting an animation *)

Lemma animate_dataset e s : dataset (animate e s) = dataset s.
Proof.
  unfold animate. rewrite <- (cancelAnimation_dataset e s).
  destruct (dataset (cancelAnimation e s) !! e) as [d|]; cbn; [|done].
  destruct (counterupDecimals d); cbn; [|done].
  by destruct (isNaN _).
Qed.

Lemma animate_starts e s d dec :
  dataset s !! e = Some d -> counterupDecimals d = Some dec ->
  isNaN (counterupNumber d) = false ->
  exists cl,
    animations (animate e s) !! e = Some (next_handle s)
    /\ frame_callbacks (animate e s) !! next_handle s = Some cl
    /\ cl_element cl = e /\ cl_targetValue cl = counterupNumber d
    /\ cl_decimals cl = dec /\ cl_hasComma cl = counterupHasCommas d
    /\ next_handle (animate e s) = S (next_handle s).
Proof.
  intros Hd Hdec Hnan. unfold animate.
  rewrite cancelAnimation_dataset, Hd. cbn. rewrite Hdec, Hnan. cbn.
  rewrite cancelAnimation_next_handle.
  eexists. rewrite !lookup_insert_eq. repeat split; reflexivity.
Qed.

Lemma at_most_one_of_invariant s e : invariant s -> at_most_one_session s e.
Proof.
  intros (Hrec & _) h1 h2 (cl1 & Hl1 & He1) (cl2 & Hl2 & He2).
  apply Hrec in Hl1, Hl2. congruence.
Qed.

(** C1.  In every state the instance can reach, an element owns at most one
    pending frame request.  Starting the animation of an element twice in a
    row, its stored number and decimals being valid, leaves exactly one: the
    second start has revoked the request of the first. *)
Theorem C1_one_session_per_element (s : State) :
  reachable s ->
  (forall e, at_most_one_session s e)
  /\ (forall e d dec,
        dataset s !! e = Some d -> counterupDecimals d = Some dec ->
        isNaN (counterupNumber d) = false ->
        exists h1,
          session_of (animate e s) e h1
          /\ ~ session_of (animate e (animate e s)) e h1
          /\ exactly_one_session (animate e (animate e s)) e).
Proof.
  intros Hreach. apply reachable_invariant in Hreach as Hinv. split.
  - intros e. by apply at_most_one_of_invariant.
  - intros e d dec Hd Hdec Hnan.
    destruct (animate_starts e s d dec Hd Hdec Hnan)
      as (cl1 & Ha1 & Hf1 & He1 & _ & _ & _ & Hn1).
    set (s1 := animate e s) in *.
    assert (dataset s1 !! e = Some d) as Hd1
      by (unfold s1; by rewrite animate_dataset).
    destruct (animate_starts e s1 d dec Hd1 Hdec Hnan)
      as (cl2 & Ha2 & Hf2 & He2 & _ & _ & _ & Hn2).
    pose proof (animate_invariant e s1 (animate_invariant e s Hinv)) as Hinv2.
    exists (next_handle s). split; [by exists cl1|]. split.
    + intros (cl & Hl & He). destruct Hinv2 as (Hrec & _).
      apply Hrec in Hl. rewrite He, Ha2, Hn1 in Hl. injection Hl. lia.
    + exists (next_handle s1). split; [by exists cl2|].
      intros h' (cl & Hl & He). destruct Hinv2 as (Hrec & _).
      apply Hrec in Hl. rewrite He, Ha2 in Hl. by injection Hl.
Qed.


(** ** Frames of other elements *)

Lemma step_other cl ts s e :
  cl_element cl <> e ->
  get_innerText e (fst (step cl ts s)) = get_innerText e s
  /\ forall h, session_of (fst (step cl ts s)) e h -> session_of s e h.
Proof.
  intros Hne. unfold step.
  destruct (call_easing _ _) as [eased|]; [|done].
  destruct (formatNumber _ _ _ _) as [text|]; [|done].
  destruct (ltb _ one); cbn.
  - split.
    + unfold get_innerText. cbn. by rewrite lookup_insert_ne.
    + intros h (cl' & Hl & He). cbn in Hl.
      destruct (decide (h = next_handle s)) as [->|Hne'].
      * rewrite lookup_insert_eq in Hl. injection Hl as <-. done.
      * rewrite lookup_insert_ne in Hl by done. by exists cl'.
  - destruct (formatNumber _ _ _ _) as [text'|]; cbn.
    + split; [|done]. unfold get_innerText. cbn. by rewrite !lookup_insert_ne.
    + split; [|done]. unfold get_innerText. cbn. by rewrite lookup_insert_ne.
Qed.

Lemma report_get_innerText e r :
  get_innerText e (report r) = get_innerText e (fst r).
Proof. by destruct r as [s [a|x]]. Qed.

Lemma report_session_of e h r :
  session_of (report r) e h <-> session_of (fst r) e h.
Proof. by destruct r as [s [a|x]]. Qed.

Lemma frame_other h ts s e :
  no_session s e ->
  get_innerText e (frame h ts s) = get_innerText e s
  /\ no_session (frame h ts s) e.
Proof.
  intros Hnone. unfold frame.
  destruct (frame_callbacks s !! h) as [cl|] eqn:Ecl; [|done].
  assert (cl_element cl <> e) as Hne.
  { intros <-. apply (Hnone h). by exists cl. }
  set (s1 := with_frame_callbacks _ s).
  destruct (step_other cl ts s1 e Hne) as [Ht Hs]. split.
  - by rewrite report_get_innerText, Ht.
  - intros h' Hsess. apply report_session_of, Hs in Hsess.
    destruct Hsess as (cl' & Hl & He). cbn in Hl.
    apply lookup_delete_Some in Hl as [_ Hl]. apply (Hnone h'). by exists cl'.
Qed.

Lemma frames_other (frames : list (Handle * number)) s e :
  no_session s e ->
  get_innerText e (run_events (map (fun f => Frame (fst f) (snd f)) frames) s)
  = get_innerText e s.
Proof.
  revert s. induction frames as [|[h ts] frames IH]; intros s Hnone; [done|].
  cbn. destruct (frame_other h ts s e Hnone) as [Ht Hn].
  unfold run_events in IH. by rewrite IH.
Qed.

(** C3, as the code has it.  [cancelAnimation] writes no text, forgets the
    request of the element and revokes it at the scheduler; whatever frames
    the scheduler delivers afterwards, the text of the element stays what it
    was; without a pending request the call changes nothing.  The callback
    checks no state of its own: the guarantee rests on the revocation. *)
Theorem C3_cancel_revokes_the_request (s : State) (e : Element)
  (frames : list (Handle * number)) :
  reachable s ->
  let s' := cancelAnimation e s in
  innerText s' = innerText s
  /\ animations s' !! e = None
  /\ no_session s' e
  /\ get_innerText e
       (run_events (map (fun f => Frame (fst f) (snd f)) frames) s')
     = get_innerText e s
  /\ (animations s !! e = None -> s' = s).
Proof.
  intros Hreach. apply reachable_invariant in Hreach as Hinv. cbn.
  assert (innerText (cancelAnimation e s) = innerText s) as Ht.
  { unfold cancelAnimation. by destruct (animations s !! e). }
  pose proof (cancelAnimation_no_session e s (proj1 Hinv)) as Hnone.
  split; [done|]. split.
  { rewrite cancelAnimation_animations. by case_decide. }
  split; [done|]. split.
  - rewrite frames_other by done. unfold get_innerText. by rewrite Ht.
  - intros Ha. unfold cancelAnimation. by rewrite Ha.
Qed.

(** ** The last frame *)

Lemma toFixed_in_range x f : 0 <= f <= 100 -> exists t, toFixed x f = Normal t.
Proof.
  intros Hf. unfold toFixed.
  assert ((f <? 0) || (100 <? f) = false) as ->
    by (apply orb_false_intro; apply Z.ltb_ge; lia).
  by eexists.
Qed.

Lemma formatNumber_in_range st x f hc :
  0 <= f <= 100 -> exists t, formatNumber st x f hc = Normal t.
Proof.
  intros Hf. unfold formatNumber.
  destruct (toFixed_in_range x f Hf) as [t ->]. by eexists.
Qed.




End Invariant.

(* ===================================================================== *)
(** * Proofs: the easing table *)
(* ===================================================================== *)

Section Easing.
Context `{Engine}.

(** C6.  Each of the eight entries of the easing table is the function of
    its formula and sends 0 to 0 and 1 to 1; [easeOutExpo] answers 1 by its
    guard whenever [t === 1]. *)
Theorem C6_easing_curves_are_normalised :
  Forall2 (fun entry formula =>
             easingFunctions (fst entry) = EasingFunction (snd entry)
             /\ (forall t, apply_curve (snd entry) t = formula t)
             /\ apply_curve (snd entry) zero = zero
             /\ apply_curve (snd entry) one = one)
    easing_table Formula.table
  /\ (forall t, strict_eqb t one = true -> apply_curve EaseOutExpo t = one).
Proof.
  split.
  - repeat constructor.
  - intros t Ht. cbn. unfold easeOutExpo. by rewrite Ht.
Qed.
End Easing.

(* ===================================================================== *)
(** * Proofs: registration and visibility *)
(* ===================================================================== *)

Section Registration.
Context `{Engine}.

Lemma remove_separator_accepts sep v :
  regexp_accepts sep = true -> exists t, remove_separator sep v = Normal t.
Proof.
  unfold regexp_accepts, remove_separator. destruct (compile sep); [by eexists|].
  intros [f ->]%bool_decide_eq_true. by eexists.
Qed.

Lemma parseValue_accepts st v :
  regexp_accepts (separator st) = true -> exists r, parseValue st v = Normal r.
Proof.
  intros Hacc. unfold parseValue. destruct (String.eqb v _); [by eexists|].
  match goal with |- context [remove_separator ?a ?b] =>
    destruct (remove_separator_accepts a b Hacc) as [t ->] end.
  destruct (scan_numeric t); by eexists.
Qed.

(** One element, as [registration] tells. *)
Lemma init_element_spec s0 s e :
  regexp_accepts (separator (settings s0)) = true ->
  root_margin_accepted (offset (settings s0) +:+ " 0px") = true ->
  settings s = settings s0 -> innerText s = innerText s0 ->
  init_element e s =
  (match registration s0 e with
   | None => with_console (skip_warning s0 e :: console s) s
   | Some parsed => register_element s0 e parsed s
   end, Normal tt).
Proof.
  intros Hacc Hmargin Hset Htext.
  unfold init_element, registration, skip_warning, source_text, get_innerText.
  rewrite Hset, Htext.
  destruct (String.eqb _ _) eqn:Eblank; [done|].
  destruct (parseValue_accepts (settings s0)
              (trim (default EmptyString (innerText s0 !! e))) Hacc) as [r ->].
  destruct r as [parsed|]; [|done].
  unfold new_observer. cbn [settings with_elementState with_dataset].
  by rewrite Hset, Hmargin.
Qed.

(** The whole list. *)
Lemma forEach_init_element_spec s0 l : forall s,
  regexp_accepts (separator (settings s0)) = true ->
  root_margin_accepted (offset (settings s0) +:+ " 0px") = true ->
  settings s = settings s0 -> innerText s = innerText s0 ->
  let skipped := filter (fun e => is_registered s0 e = false) l in
  let registered := filter (fun e => is_registered s0 e = true) l in
  exists s',
    forEach init_element l s = (s', Normal tt)
    /\ settings s' = settings s /\ innerText s' = innerText s
    /\ console s' = rev (map (skip_warning s0) skipped) ++ console s
    /\ observers s'
       = observers s ++ seq (next_observer s) (length registered)
    /\ next_observer s' = (next_observer s + length registered)%nat
    /\ (forall o, (o < next_observer s)%nat ->
          intersection_observers s' !! o = intersection_observers s !! o)
    /\ (forall i e, registered !! i = Some e ->
          intersection_observers s' !! (next_observer s + i)%nat
          = Some (e, true))
    /\ (forall e, e ∉ registered -> dataset s' !! e = dataset s !! e
                                   /\ elementState s' !! e = elementState s !! e)
    /\ (forall e, e ∈ registered ->
          exists parsed, registration s0 e = Some parsed
            /\ dataset s' !! e = Some (registered_data s0 e parsed)
            /\ elementState s' !! e = Some false).
Proof.
  induction l as [|x l IH]; intros s Hacc Hmargin Hset Htext; cbn zeta.
  - exists s. cbn. rewrite app_nil_r, Nat.add_0_r.
    repeat split; try done.
    intros e Hin. by apply elem_of_nil in Hin.
  - cbn [forEach]. rewrite (init_element_spec s0 s x Hacc Hmargin Hset Htext).
    destruct (registration s0 x) as [parsed|] eqn:Ereg.
    + assert (is_registered s0 x = true) as Hreg.
      { unfold is_registered. rewrite Ereg. by apply bool_decide_eq_true_2. }
      rewrite (filter_cons_True (fun e => is_registered s0 e = true) x l Hreg).
      rewrite (filter_cons_False (fun e => is_registered s0 e = false) x l)
        by congruence.
      destruct (IH (register_element s0 x parsed s) Hacc Hmargin Hset Htext)
        as (s' & Hrun & Hs & Ht & Hc & Ho & Hn & Hold & Hnew & Hout & Hin).
      exists s'. cbn in *. split; [done|]. split; [done|]. split; [done|].
      split; [done|]. split.
      { rewrite Ho, <- app_assoc. done. }
      split; [lia|]. split.
      { intros o Hlt. rewrite Hold by lia. by rewrite lookup_insert_ne by lia. }
      split.
      { intros [|i] e Hi; cbn in Hi.
        - injection Hi as <-. rewrite Nat.add_0_r, Hold by lia.
          by rewrite lookup_insert_eq.
        - rewrite <- (Hnew i e Hi). f_equal. lia. }
      split.
      { intros e Hne. apply not_elem_of_cons in Hne as [Hne1 Hne2].
        destruct (Hout e Hne2) as [-> ->].
        by rewrite !lookup_insert_ne. }
      intros e He.
      destruct (decide (e ∈ filter (fun e => is_registered s0 e = true) l))
        as [Hel|Hnl]; [by apply Hin|].
      apply elem_of_cons in He as [->|He]; [|done].
      destruct (Hout x Hnl) as [-> ->].
      exists parsed. by rewrite !lookup_insert_eq.
    + assert (is_registered s0 x = false) as Hreg.
      { unfold is_registered. rewrite Ereg.
        apply bool_decide_eq_false_2. by intros [??]. }
      rewrite (filter_cons_True (fun e => is_registered s0 e = false) x l Hreg).
      rewrite (filter_cons_False (fun e => is_registered s0 e = true) x l)
        by congruence.
      destruct (IH (with_console (skip_warning s0 x :: console s) s)
                  Hacc Hmargin Hset Htext)
        as (s' & Hrun & Hs & Ht & Hc & Ho & Hn & Hold & Hnew & Hout & Hin).
      exists s'. cbn in *. split; [done|]. split; [done|]. split; [done|].
      split; [|done].
      rewrite Hc, <- app_assoc. done.
Qed.



End Registration.

(** ** Leaving the viewport *)

Section Visibility.
Context `{Engine}.

Lemma animate_frame s e :
  settings (animate e s) = settings s
  /\ observers (animate e s) = observers s
  /\ intersection_observers (animate e s) = intersection_observers s
  /\ next_observer (animate e s) = next_observer s.
Proof.
  unfold animate.
  assert (settings (cancelAnimation e s) = settings s
          /\ observers (cancelAnimation e s) = observers s
          /\ intersection_observers (cancelAnimation e s)
             = intersection_observers s
          /\ next_observer (cancelAnimation e s) = next_observer s)
    as (Hs & Ho & Hi & Hn).
  { unfold cancelAnimation. by destruct (animations s !! e). }
  destruct (dataset (cancelAnimation e s) !! e) as [d|]; cbn; [|done].
  destruct (counterupDecimals d); cbn; [|done].
  by destruct (isNaN _).
Qed.


End Visibility.

(* ===================================================================== *)
(** * Proofs on the example pages *)
(* ===================================================================== *)

Lemma demo_visible_reachable : reachable demo_visible.
Proof. apply reachable_event, reachable_new. Qed.

Lemma demo_running_reachable : reachable demo_running.
Proof. apply reachable_event, demo_visible_reachable. Qed.

Lemma C1_witness :
  (forall e, at_most_one_session demo_visible e)
  /\ exists h1,
       session_of (animate 0%nat demo_visible) 0%nat h1
       /\ ~ session_of (animate 0%nat (animate 0%nat demo_visible)) 0%nat h1
       /\ exactly_one_session (animate 0%nat (animate 0%nat demo_visible)) 0%nat.
Proof.
  destruct (C1_one_session_per_element demo_visible demo_visible_reachable)
    as [Hone Htwice].
  split; [exact Hone|].
  eapply (Htwice 0%nat); vm_compute; reflexivity.
Defined.

Lemma C3_stale_frame_renders :
  frame_callbacks demo_running !! 2%nat = Some demo_stale_step
  /\ frame_callbacks demo_hidden !! 2%nat = None
  /\ animations demo_hidden !! 0%nat = None
  /\ get_innerText 0%nat demo_hidden = "0"
  /\ get_innerText 0%nat (fst (step demo_stale_step (of_Z 1800) demo_hidden))
     = "1,500"
  /\ session_of (fst (step demo_stale_step (of_Z 1400) demo_hidden)) 0%nat 3%nat.
Proof.
  repeat split; try (vm_compute; reflexivity).
  eexists. split; vm_compute; reflexivity.
Qed.

Lemma C3_witness :
  innerText (cancelAnimation 0%nat demo_running) = innerText demo_running
  /\ animations (cancelAnimation 0%nat demo_running) !! 0%nat = None
  /\ no_session (cancelAnimation 0%nat demo_running) 0%nat
  /\ get_innerText 0%nat
       (run_events
          (map (fun f => Frame (fst f) (snd f))
             [(2%nat, of_Z 1400); (2%nat, of_Z 1800)])
          (cancelAnimation 0%nat demo_running))
     = get_innerText 0%nat demo_running
  /\ (animations demo_running !! 0%nat = None
      -> cancelAnimation 0%nat demo_running = demo_running).
Proof.
  exact (C3_cancel_revokes_the_request demo_running 0%nat
           [(2%nat, of_Z 1400); (2%nat, of_Z 1800)] demo_running_reachable).
Defined.

Lemma demo_dataset :
  dataset demo_visible !! 0%nat
  = Some {| counterupValue := "1,500"; counterupNumber := of_Z 1500;
            counterupDecimals := Some 0; counterupHasCommas := true |}.
Proof. vm_compute. reflexivity. Qed.


Section BogusEasing.
Context `{Engine}.

(** C7.  The name ["bogus"] resolves to [easeOutExpo].  The name
    ["__proto__"] does not: the lookup finds the inherited object, which the
    [||] keeps, and the first frame throws [TypeError] before it renders; the
    text stays the source text and the session is never released. *)
Theorem C7_inherited_name_defeats_the_fallback :
  resolve_easing "bogus" = EasingFunction EaseOutExpo
  /\ resolve_easing "__proto__" = Inherited OP___proto__
  /\ let s := run_events [Intersect 0%nat [true]; Frame 1%nat (of_Z 1000)]
                (report (constructor [0%nat] (with_easing "__proto__")
                           demo_page)) in
     console s = [Uncaught TypeError]
     /\ get_innerText 0%nat s = "1,500"
     /\ frame_callbacks s = ∅
     /\ animations s !! 0%nat = Some 1%nat.
Proof.
  split; [reflexivity|]. split; [reflexivity|].
  cbv zeta. repeat split; vm_compute; reflexivity.
Qed.
End BogusEasing.




Example demo_four_registration :
  filter (fun e => is_registered demo_four e = true) (elements demo_four)
  = [0; 3]%nat
  /\ map (skip_warning demo_four)
       (filter (fun e => is_registered demo_four e = false) (elements demo_four))
     = [Warn "CounterUp: Element is empty:" (AboutElement 1%nat);
        Warn "CounterUp: Could not parse a valid number from:" (AboutText "n/a")].
Proof. split; vm_compute; reflexivity. Qed.

(* ===================================================================== *)
(** * Proofs: the separator *)
(* ===================================================================== *)

Section Separator.
Context `{Engine}.

Lemma remove_nothing s : forall skip_start,
  remove_matches [[]; []] O skip_start s = s.
Proof.
  induction s as [|c s IH]; intros b; cbn; [done|]. by rewrite IH.
Qed.

Lemma remove_any s : forall b,
  only_line_terminators (remove_matches [[AnyChar]] O b s) = true.
Proof.
  induction s as [|c s IH]; intros b; [done|].
  cbn. destruct (is_line_terminator c) eqn:Ec; cbn.
  - by rewrite Ec, IH.
  - apply IH.
Qed.

Lemma line_terminator_cases c :
  is_line_terminator c = true -> c = "010"%char \/ c = "013"%char.
Proof.
  unfold is_line_terminator. intros Hc.
  apply orb_true_iff in Hc as [Hc|Hc]; apply Nat.eqb_eq in Hc;
    [left|right]; rewrite <- (ascii_nat_embedding c), Hc; reflexivity.
Qed.

Lemma scan_line_terminators s :
  only_line_terminators s = true -> scan_numeric s = None.
Proof.
  destruct s as [|c s]; [done|]. cbn [only_line_terminators].
  intros [Hc _]%andb_true_iff.
  by destruct (line_terminator_cases c Hc) as [-> | ->].
Qed.

(** C10, as the code has it.  The separator flag is literal containment
    while the removal is by pattern.  With the separator ["."] every
    character but line terminators is removed and no text parses; with
    [".0"] the text ["100"] contains no separator, yet loses ["10"] and
    parses as 0 where the literal removal reads 100. *)
Theorem C10_pattern_separator (st : Settings) (value : string) :
  parseValue (with_separator "." st) value = Normal None
  /\ (forall pd, parseValue st value = Normal (Some pd) ->
        pd_hasComma pd = includes value (separator st))
  /\ includes "100" ".0" = false
  /\ remove_literal ".0" "100" = "100"
  /\ remove_separator ".0" "100" = Normal "0"
  /\ parseValue (with_separator ".0" defaults) "100"
     = Normal (Some {| pd_number := zero; pd_decimals := 0;
                       pd_hasComma := false |})
  /\ literal_number <$> scan_numeric (remove_literal ".0" "100")
     = Some (of_Z 100).
Proof.
  split; [|split].
  - unfold parseValue. destruct (String.eqb value _); [done|].
    cbn [separator with_separator assign default opt_separator].
    unfold remove_separator. cbn [compile compile_go].
    change (compile_go "." []) with (Some [[AnyChar]]). cbn.
    by rewrite scan_line_terminators by apply remove_any.
  - intros pd. unfold parseValue. destruct (String.eqb value _); [done|].
    destruct (remove_separator _ _) as [clean|]; [|done].
    destruct (scan_numeric clean); [|done]. by intros [= <-].
  - repeat split; vm_compute; reflexivity.
Qed.

End Separator.

Lemma C10_bar_strips_nothing :
  has_syntax_character "|" = true
  /\ compile "|" = Some [[]; []]
  /\ (forall value, remove_separator "|" value = Normal value)
  /\ ~ (forall separator pattern,
          has_syntax_character separator = true ->
          compile separator = Some pattern ->
          exists value, includes value separator = false
                        /\ remove_matches pattern O true value <> value).
Proof.
  split; [reflexivity|]. split; [reflexivity|]. split.
  - intros value. unfold remove_separator. cbn. by rewrite remove_nothing.
  - intros Hclaim.
    destruct (Hclaim "|" [[]; []] eq_refl eq_refl) as (value & _ & Hne).
    apply Hne, remove_nothing.
Qed.

(* ===================================================================== *)
(** * Proofs: the formatter *)
(* ===================================================================== *)

Lemma length_digits_padded k : forall n, length (digits_padded k n) = k.
Proof.
  induction k as [|k IH]; intros n; cbn; [done|].
  rewrite length_app, IH. cbn. lia.
Qed.

Lemma digits_go_padded fuel : forall n acc,
  0 <= n < 2 ^ Z.of_nat fuel -> (0 < fuel)%nat ->
  exists k, (0 < k <= fuel)%nat
    /\ (n = 0 /\ k = 1%nat \/ 10 ^ (Z.of_nat k - 1) <= n)
    /\ n < 10 ^ Z.of_nat k
    /\ digits_go fuel n acc = digits_padded k n ++ acc.
Proof.
  induction fuel as [|fuel IH]; intros n acc Hn Hfuel; [lia|].
  cbn [digits_go]. destruct (n / 10 =? 0) eqn:Ediv.
  - apply Z.eqb_eq in Ediv. exists 1%nat.
    assert (n < 10) by (apply Z.div_small_iff in Ediv; lia).
    split; [lia|]. split; [|split; [lia|]].
    + destruct (decide (n = 0)); [by left|right; cbn; lia].
    + cbn. done.
  - apply Z.eqb_neq in Ediv.
    assert (0 < n / 10) as Hpos.
    { pose proof (Z.div_pos n 10). lia. }
    assert (10 <= n) as Hten.
    { destruct (Z_lt_le_dec n 10) as [Hlt|]; [|done].
      rewrite Z.div_small in Hpos; lia. }
    assert (n / 10 < 2 ^ Z.of_nat fuel) as Hsmall.
    { apply Z.div_lt_upper_bound; [lia|].
      rewrite Nat2Z.inj_succ, Z.pow_succ_r in Hn by lia. lia. }
    assert (0 < fuel)%nat as Hf.
    { destruct fuel; [|lia]. cbn in Hsmall. lia. }
    destruct (IH (n / 10) (digit_char (n mod 10) :: acc)) as
      (k & Hk & Hlow & Hhigh & Hgo); [lia|done|].
    exists (S k). split; [lia|]. split; [|split].
    + right. rewrite Nat2Z.inj_succ.
      replace (Z.succ (Z.of_nat k) - 1) with (Z.succ (Z.of_nat k - 1)) by lia.
      rewrite Z.pow_succ_r by lia.
      destruct Hlow as [[Hz _]|Hlow]; [lia|].
      pose proof (Z.mul_div_le n 10). lia.
    + rewrite Nat2Z.inj_succ, Z.pow_succ_r by lia.
      pose proof (Z_div_mod_eq_full n 10). pose proof (Z.mod_pos_bound n 10).
      lia.
    + rewrite Hgo. cbn. by rewrite <- app_assoc.
Qed.

Lemma digits_padded_form n :
  0 <= n ->
  exists k, (0 < k)%nat
    /\ (n = 0 /\ k = 1%nat \/ 10 ^ (Z.of_nat k - 1) <= n)
    /\ n < 10 ^ Z.of_nat k
    /\ digits n = digits_padded k n.
Proof.
  intros Hn. unfold digits.
  destruct (digits_go_padded (S (Z.to_nat (Z.log2 n))) n []) as
    (k & Hk & Hlow & Hhigh & Hgo); [|lia|].
  - split; [done|]. rewrite Nat2Z.inj_succ, Z2Nat.id by apply Z.log2_nonneg.
    destruct (decide (n = 0)) as [->|]; [done|].
    apply Z.log2_spec. lia.
  - exists k. rewrite Hgo, app_nil_r. repeat split; try done; lia.
Qed.

Lemma digits_padded_split b : forall a n,
  0 <= n ->
  digits_padded (a + b) n
  = digits_padded a (n / 10 ^ Z.of_nat b) ++ digits_padded b n.
Proof.
  induction b as [|b IH]; intros a n Hn.
  - rewrite Nat.add_0_r. cbn. by rewrite Z.div_1_r, app_nil_r.
  - replace (a + S b)%nat with (S (a + b)) by lia. cbn [digits_padded].
    rewrite IH by (apply Z.div_pos; lia).
    rewrite <- app_assoc. do 2 f_equal.
    rewrite Nat2Z.inj_succ, Z.pow_succ_r by lia.
    by rewrite Z.div_div by lia.
Qed.

Lemma digits_padded_zero k : digits_padded k 0 = repeat "0"%char k.
Proof.
  induction k as [|k IH]; [done|].
  cbn [digits_padded]. change (0 / 10) with 0. rewrite IH.
  change [digit_char (0 mod 10)] with (repeat "0"%char 1).
  rewrite <- repeat_app. f_equal. lia.
Qed.

Lemma digits_padded_small j k n :
  0 <= n < 10 ^ Z.of_nat j ->
  digits_padded (k + j) n = repeat "0"%char k ++ digits_padded j n.
Proof.
  intros Hn. rewrite digits_padded_split by lia.
  rewrite Z.div_small by done. by rewrite digits_padded_zero.
Qed.

(** [fixed_notation] is the integer part, then a point and [f] digits. *)
Lemma fixed_notation_parts n f :
  0 <= n ->
  fixed_notation n f
  = digits (n / 10 ^ Z.of_nat f)
    ++ match f with
       | O => []
       | _ => "."%char :: digits_padded f n
       end.
Proof.
  intros Hn. unfold fixed_notation.
  destruct f as [|f']; [by rewrite Z.div_1_r, app_nil_r|].
  set (f := S f').
  destruct (digits_padded_form n Hn) as (k & Hk & Hlow & Hhigh & ->).
  rewrite length_digits_padded.
  destruct (k <=? f)%nat eqn:Ekf.
  - apply Nat.leb_le in Ekf.
    rewrite <- digits_padded_small by lia.
    replace (f + 1 - k + k)%nat with (1 + f)%nat by lia.
    rewrite length_digits_padded.
    replace (1 + f - f)%nat with 1%nat by lia.
    rewrite digits_padded_split by done.
    assert (n / 10 ^ Z.of_nat f = 0) as ->.
    { apply Z.div_small. split; [done|].
      eapply Z.lt_le_trans; [exact Hhigh|].
      apply Z.pow_le_mono_r; lia. }
    rewrite take_app_length' by done. rewrite drop_app_length' by done.
    done.
  - apply Nat.leb_gt in Ekf.
    rewrite !length_digits_padded.
    replace (digits_padded k n) with (digits_padded (k - f + f) n)
      by (f_equal; lia).
    rewrite digits_padded_split by done.
    rewrite take_app_length' by (by rewrite length_digits_padded).
    rewrite drop_app_length' by (by rewrite length_digits_padded).
    f_equal.
    assert (0 <= n / 10 ^ Z.of_nat f) as Hq by (apply Z.div_pos; lia).
    destruct (digits_padded_form _ Hq) as (k' & Hk' & Hlow' & Hhigh' & ->).
    f_equal.
    assert (10 ^ Z.of_nat f * 10 ^ (Z.of_nat (k - f)) = 10 ^ Z.of_nat k) as Hpow.
    { rewrite <- Z.pow_add_r by lia. f_equal. lia. }
    assert (10 ^ Z.of_nat f * 10 ^ (Z.of_nat (k - f) - 1)
            = 10 ^ (Z.of_nat k - 1)) as Hpow'.
    { rewrite <- Z.pow_add_r by lia. f_equal. lia. }
    assert (10 ^ (Z.of_nat (k - f) - 1) <= n / 10 ^ Z.of_nat f
            < 10 ^ Z.of_nat (k - f)) as [Hl Hh].
    { split.
      - apply Z.div_le_lower_bound; [lia|]. lia.
      - apply Z.div_lt_upper_bound; [lia|]. lia. }
    destruct Hlow' as [[Hz ->]|Hlow'].
    + rewrite Hz in Hl.
      assert (Z.of_nat (k - f) - 1 = 0) by
        (destruct (Z.of_nat (k - f) - 1) eqn:E; [done|pose proof (Z.pow_pos_nonneg 10 (Z.pos p)); lia|lia]).
      lia.
    + destruct (Nat.lt_trichotomy k' (k - f)) as [Hlt|[Heq|Hgt]]; [|done|].
      * assert (10 ^ Z.of_nat k' <= 10 ^ (Z.of_nat (k - f) - 1))
          by (apply Z.pow_le_mono_r; lia). lia.
      * assert (10 ^ Z.of_nat (k - f) <= 10 ^ (Z.of_nat k' - 1))
          by (apply Z.pow_le_mono_r; lia). lia.
Qed.

(** ** Digits are digits *)

Lemma digit_char_is_digit r : 0 <= r < 10 -> is_digit (digit_char r) = true.
Proof.
  intros Hr.
  assert (r = 0 \/ r = 1 \/ r = 2 \/ r = 3 \/ r = 4 \/ r = 5 \/ r = 6
          \/ r = 7 \/ r = 8 \/ r = 9) as Hcases by lia.
  repeat (destruct Hcases as [-> | Hcases]; [reflexivity|]).
  by rewrite Hcases.
Qed.

Lemma digits_padded_are_digits k : forall n,
  forallb is_digit (digits_padded k n) = true.
Proof.
  induction k as [|k IH]; intros n; [done|].
  cbn [digits_padded]. rewrite forallb_app, IH. cbn.
  rewrite digit_char_is_digit; [done|]. apply Z.mod_pos_bound. lia.
Qed.

Lemma digits_are_digits n :
  0 <= n -> forallb is_digit (digits n) = true /\ digits n <> [].
Proof.
  intros Hn. destruct (digits_padded_form n Hn) as (k & Hk & _ & _ & ->).
  split; [apply digits_padded_are_digits|].
  intros Hnil. apply (f_equal length) in Hnil.
  rewrite length_digits_padded in Hnil. cbn in Hnil. lia.
Qed.

Lemma is_digit_word c : is_digit c = true -> is_word_char c = true.
Proof. unfold is_word_char. by intros ->. Qed.

Lemma is_digit_not_point c : is_digit c = true -> Ascii.eqb c "."%char = false.
Proof.
  intros Hc. apply Ascii.eqb_neq. intros ->. discriminate.
Qed.

(** ** Text of a list of characters *)

Lemma append_cons x (a b : string) : String x a +:+ b = String x (a +:+ b).
Proof. reflexivity. Qed.

Lemma append_assoc (a b c : string) : (a +:+ b) +:+ c = a +:+ (b +:+ c).
Proof.
  induction a as [|x a IH]; [done|]. by rewrite !append_cons, IH.
Qed.

Lemma append_empty_r (a : string) : a +:+ EmptyString = a.
Proof. induction a as [|x a IH]; [done|]. by rewrite append_cons, IH. Qed.

Lemma text_app a b : text (a ++ b) = text a +:+ text b.
Proof.
  induction a as [|c a IH]; [done|]. cbn. by rewrite append_cons, IH.
Qed.

(** ** [split] and [join] around the decimal point *)

Lemma split_dot_no_point a :
  forallb (fun c => negb (Ascii.eqb c "."%char)) a = true ->
  split_dot (text a) = [text a].
Proof.
  induction a as [|c a IH]; cbn; [done|].
  intros [Hc Ha]%andb_true_iff. apply negb_true_iff in Hc.
  by rewrite Hc, IH.
Qed.

Lemma split_dot_one_point a b :
  forallb (fun c => negb (Ascii.eqb c "."%char)) a = true ->
  forallb (fun c => negb (Ascii.eqb c "."%char)) b = true ->
  split_dot (text (a ++ "."%char :: b)) = [text a; text b].
Proof.
  intros Ha Hb. induction a as [|c a IH]; cbn.
  - by rewrite split_dot_no_point.
  - cbn in Ha. apply andb_true_iff in Ha as [Hc Ha].
    apply negb_true_iff in Hc. by rewrite Hc, IH.
Qed.

Lemma digits_have_no_point a :
  forallb is_digit a = true ->
  forallb (fun c => negb (Ascii.eqb c "."%char)) a = true.
Proof.
  induction a as [|c a IH]; cbn; [done|].
  intros [Hc Ha]%andb_true_iff. by rewrite is_digit_not_point, IH.
Qed.

(** ** Grouping by thousands *)

Lemma groups_of_three_digits n : forall ds,
  (length ds <= n)%nat -> forallb is_digit ds = true ->
  bool_decide (is_Some (groups_of_three (text ds)))
  = (0 <? length ds)%nat && (length ds mod 3 =? 0)%nat.
Proof.
  induction n as [|n IH]; intros ds Hlen Hds.
  { destruct ds; [done|cbn in Hlen; lia]. }
  destruct ds as [|a [|b [|c rest]]]; try done.
  cbn [forallb] in Hds.
  apply andb_true_iff in Hds as [Ha Hds].
  apply andb_true_iff in Hds as [Hb Hds].
  apply andb_true_iff in Hds as [Hc Hds].
  cbn [text groups_of_three]. rewrite Ha, Hb, Hc. cbn [andb].
  cbn [length] in *.
  replace (S (S (S (length rest))) mod 3)%nat with (length rest mod 3)%nat.
  2:{ change (S (S (S (length rest)))) with (3 + length rest)%nat.
      rewrite <- (Nat.Div0.add_mod_idemp_l 3). done. }
  specialize (IH rest ltac:(lia) Hds).
  destruct (groups_of_three (text rest)) as [capture|] eqn:Erec.
  - rewrite bool_decide_eq_true_2 in IH by done.
    rewrite bool_decide_eq_true_2 by done.
    symmetry in IH. apply andb_true_iff in IH as [_ ->]. done.
  - rewrite bool_decide_eq_false_2 in IH by (by intros [??]).
    destruct rest as [|d rest]; [done|].
    cbn [text forallb] in *. apply andb_true_iff in Hds as [-> _].
    rewrite bool_decide_eq_false_2 by (by intros [??]).
    cbn in IH. cbn. done.
Qed.

Lemma get_substitution_plain matched before after captures template :
  includes template "$" = false ->
  get_substitution matched before after captures template = template.
Proof.
  induction template as [|c t IH]; [done|].
  cbn [includes startsWith]. intros Hinc.
  apply orb_false_iff in Hinc as [Hc Ht].
  assert (Ascii.eqb c "$"%char = false) as Hc'.
  { rewrite Ascii.eqb_sym. destruct (Ascii.eqb "$"%char c); [|done].
    by destruct t. }
  cbn [get_substitution]. rewrite Hc'. cbn [negb]. by rewrite IH.
Qed.

Lemma replace_group_tail sep ds : forall before p,
  includes sep "$" = false ->
  forallb is_digit ds = true -> is_word_char p = true ->
  replace_group_boundaries sep (String p before) (text ds)
  = group_tail sep ds.
Proof.
  induction ds as [|d rest IH]; intros before p Hsep Hds Hp.
  - cbn [text replace_group_boundaries groups_of_three group_tail].
    by destruct (not_word_boundary _ _).
  - cbn [forallb] in Hds. apply andb_true_iff in Hds as [Hd Hrest].
    cbn [text replace_group_boundaries group_tail].
    unfold not_word_boundary. cbn [from_option]. rewrite Hp.
    rewrite (is_digit_word d Hd). cbn [Bool.eqb].
    pose proof (groups_of_three_digits (length (d :: rest)) (d :: rest)
                  (le_n _)) as Hg.
    cbn [forallb] in Hg. rewrite Hd, Hrest in Hg. specialize (Hg eq_refl).
    cbn [text] in Hg.
    change (0 <? length (d :: rest))%nat with true in Hg. cbn [andb] in Hg.
    rewrite (IH _ d Hsep Hrest (is_digit_word d Hd)).
    destruct (groups_of_three _) as [capture|].
    + rewrite bool_decide_eq_true_2 in Hg by done.
      rewrite <- Hg. by rewrite get_substitution_plain.
    + rewrite bool_decide_eq_false_2 in Hg by (by intros [??]).
      by rewrite <- Hg.
Qed.

Lemma replace_group_thousands sep negative ds :
  includes sep "$" = false ->
  forallb is_digit ds = true -> ds <> [] ->
  replace_group_boundaries sep EmptyString
    (text ((if negative : bool then ["-"%char] else []) ++ ds))
  = text (if negative then ["-"%char] else []) +:+ group_thousands sep ds.
Proof.
  intros Hsep Hds Hne. destruct ds as [|d rest]; [done|].
  cbn [forallb] in Hds. apply andb_true_iff in Hds as [Hd Hrest].
  pose proof (is_digit_word d Hd) as Hw.
  destruct negative; cbn [app text replace_group_boundaries group_thousands].
  - unfold not_word_boundary. cbn [from_option]. rewrite Hw.
    change (is_word_char "-"%char) with false. cbn [Bool.eqb].
    rewrite (replace_group_tail sep rest _ d Hsep Hrest Hw).
    assert (groups_of_three (String "-"%char (String d (text rest))) = None)
      as ->.
    { destruct rest as [|? ?]; done. }
    reflexivity.
  - unfold not_word_boundary. cbn [from_option]. rewrite Hw. cbn [Bool.eqb].
    by rewrite (replace_group_tail sep rest _ d Hsep Hrest Hw).
Qed.

(** ** What [formatNumber] renders *)

Lemma round_half_up_nearest m e d :
  0 <= d ->
  nearest_away_from_zero (S754_finite false m e) d (round_half_up (Zpos m) e d)
  /\ 0 <= round_half_up (Zpos m) e d.
Proof.
  intros Hd. unfold nearest_away_from_zero, round_half_up.
  assert (0 < 10 ^ d) by (apply Z.pow_pos_nonneg; lia).
  destruct (0 <=? e) eqn:Ee.
  - apply Z.leb_le in Ee.
    rewrite (Z.max_r 0 e), (Z.max_l 0 (- e)) by lia.
    assert (0 < 2 ^ e) by (apply Z.pow_pos_nonneg; lia).
    change (2 ^ 0) with 1. split; [lia|]. nia.
  - apply Z.leb_gt in Ee.
    rewrite (Z.max_l 0 e), (Z.max_r 0 (- e)) by lia.
    change (2 ^ 0) with 1.
    assert (0 < 2 ^ (- e)) as Hs by (apply Z.pow_pos_nonneg; lia).
    set (S := 2 ^ (- e)) in *. set (a := 2 * Z.pos m * 10 ^ d + S).
    pose proof (Z.mul_div_le a (2 * S) ltac:(lia)) as Hle.
    pose proof (Z.mul_succ_div_gt a (2 * S) ltac:(lia)) as Hgt.
    assert (0 <= a / (2 * S)) by (apply Z.div_pos; unfold a; lia).
    unfold a in *. split; [|done]. split; nia.
Qed.

Lemma toFixed_fixed x d :
  fixed_range x = true -> 0 <= d <= 100 ->
  toFixed x d
  = Normal (text (fst (fixed_text x d)
                  ++ if d =? 0 then [] else "."%char :: snd (fixed_text x d))).
Proof.
  intros Hx Hd. unfold toFixed.
  assert ((d <? 0) || (100 <? d) = false) as ->
    by (apply orb_false_intro; apply Z.ltb_ge; lia).
  assert (forall n, 0 <= n ->
            fixed_notation n (Z.to_nat d)
            = digits (n / 10 ^ d)
              ++ if d =? 0 then [] else "."%char :: digits_padded (Z.to_nat d) n)
    as Hparts.
  { intros n Hn. rewrite fixed_notation_parts by done.
    rewrite Z2Nat.id by lia. f_equal.
    destruct (d =? 0) eqn:Ed.
    - apply Z.eqb_eq in Ed. by subst.
    - apply Z.eqb_neq in Ed. destruct (Z.to_nat d) eqn:En; [lia|done]. }
  unfold fixed_text. destruct x as [s| |  |s m e]; try done; cbn in Hx.
  - cbn. by rewrite Hparts.
  - apply negb_true_iff in Hx. rewrite Hx. cbn [is_negative rounded fst snd].
    destruct (round_half_up_nearest m e d) as [_ Hpos]; [lia|].
    rewrite Hparts by done. by rewrite app_assoc.
Qed.

Lemma formatNumber_fixed st x d hc :
  fixed_range x = true -> 0 <= d <= 100 ->
  includes (separator st) "$" = false ->
  formatNumber st x d hc
  = Normal (prefix st +:+ format_body (separator st) x d hc +:+ suffix st).
Proof.
  intros Hx Hd Hsep. unfold formatNumber. rewrite toFixed_fixed by done.
  do 3 f_equal. unfold format_body, fixed_text. cbn [fst snd].
  set (n := rounded x d).
  assert (0 <= n) as Hn.
  { unfold n. destruct x as [| | |s m e]; try done. cbn.
    by destruct (round_half_up_nearest m e d) as [_ Hpos]; [lia|]. }
  assert (0 <= n / 10 ^ d) as Hq.
  { apply Z.div_pos; [done|]. apply Z.pow_pos_nonneg; lia. }
  destruct (digits_are_digits _ Hq) as [Hint Hne].
  set (int := digits (n / 10 ^ d)) in *.
  set (sign := if is_negative x then ["-"%char] else []).
  assert (forallb (fun c => negb (Ascii.eqb c "."%char)) (sign ++ int) = true)
    as Hnp.
  { rewrite forallb_app, (digits_have_no_point int Hint).
    unfold sign. by destruct (is_negative x). }
  destruct hc.
  - destruct (d =? 0) eqn:Ed.
    + rewrite app_nil_r, split_dot_no_point by done. cbn [join_dot].
      unfold sign. rewrite replace_group_thousands by done.
      by rewrite append_empty_r.
    + rewrite <- app_assoc.
      replace (sign ++ int ++ "."%char :: digits_padded (Z.to_nat d) n)
        with ((sign ++ int) ++ "."%char :: digits_padded (Z.to_nat d) n)
        by (by rewrite <- app_assoc).
      rewrite split_dot_one_point; [|done|].
      2:{ apply digits_have_no_point, digits_padded_are_digits. }
      cbn [join_dot]. unfold sign.
      rewrite replace_group_thousands by done.
      by rewrite append_assoc.
  - destruct (d =? 0).
    + by rewrite app_nil_r, text_app, append_empty_r.
    + by rewrite <- app_assoc, !text_app.
Qed.

(** C8, as the code has it.  For a number below 1e21 in magnitude, 0 to 100
    decimals and a separator without [$], the formatter renders the multiple
    of [10^-d] nearest to the exact binary value, ties away from zero, grouped
    by three in the integer part only when asked, between prefix and suffix;
    1234.5 at one decimal with the defaults gives ["1,234.5"]. *)
Theorem C8_format_rounds_groups_and_wraps (st : Settings) (x : number)
  (d : Z) (hasComma : bool) :
  fixed_range x = true -> 0 <= d <= 100 ->
  includes (separator st) "$" = false ->
  nearest_away_from_zero x d (rounded x d)
  /\ formatNumber st x d hasComma
     = Normal (prefix st +:+ format_body (separator st) x d hasComma
               +:+ suffix st)
  /\ formatNumber defaults (round_ratio false 12345 10) 1 true
     = Normal "1,234.5".
Proof.
  intros Hx Hd Hsep. split; [|split].
  - destruct x as [| | |s m e]; try done. cbn.
    by destruct (round_half_up_nearest m e d) as [Hn _]; [lia|].
  - by apply formatNumber_fixed.
  - vm_compute. reflexivity.
Qed.

Lemma C8_witness :
  nearest_away_from_zero (round_ratio false 12345 10) 1 12345
  /\ formatNumber defaults (round_ratio false 12345 10) 1 true
     = Normal "1,234.5".
Proof.
  destruct (C8_format_rounds_groups_and_wraps defaults
              (round_ratio false 12345 10) 1 true)
    as (Hnear & Hformat & _);
    [reflexivity | lia | reflexivity | ].
  split; [exact Hnear|]. rewrite Hformat. vm_compute. reflexivity.
Defined.

Lemma C8_beyond_fixed_notation :
  formatNumber defaults (of_Z (10 ^ 21)) 1 true = Normal "1e+21"
  /\ format_body "," (of_Z (10 ^ 21)) 1 true
     = "1,000,000,000,000,000,000,000.0"
  /\ formatNumber defaults (round_ratio false 12345 10) 101 true
     = Throw RangeError
  /\ formatNumber (with_separator "$&" defaults) (round_ratio false 12345 10)
       1 true = Normal "1234.5"
  /\ format_body "$&" (round_ratio false 12345 10) 1 true = "1$&234.5".
Proof. repeat split; vm_compute; reflexivity. Qed.

(* ===================================================================== *)
(** * Proofs: parsing and formatting back *)
(* ===================================================================== *)

(** ** A decimal of at most 52 bits reads back exactly *)

Lemma round_half_even_near num den :
  0 <= num -> 0 < den ->
  let m := round_half_even num den in
  - den <= 2 * (m * den - num) <= den
  /\ num / den <= m <= num / den + 1.
Proof.
  intros Hnum Hden. unfold round_half_even.
  pose proof (Z_div_mod_eq_full num den) as Heq.
  pose proof (Z.mod_pos_bound num den Hden) as Hr.
  destruct (2 * (num mod den) <? den) eqn:E1.
  - apply Z.ltb_lt in E1. cbn zeta. split; [nia|lia].
  - apply Z.ltb_ge in E1. destruct (den <? 2 * (num mod den)) eqn:E2.
    + apply Z.ltb_lt in E2. cbn zeta. split; [nia|lia].
    + apply Z.ltb_ge in E2. cbn zeta.
      destruct (Z.even (num / den)); split; nia || lia.
Qed.

Lemma pow2_pos k : 0 <= k -> 0 < 2 ^ k.
Proof. intros. by apply Z.pow_pos_nonneg. Qed.

Lemma pow2_add a b : 0 <= a -> 0 <= b -> 2 ^ (a + b) = 2 ^ a * 2 ^ b.
Proof. intros. by apply Z.pow_add_r. Qed.

(** The scaled quotient lies between [2^52] and [2^53]. *)
Lemma scale_le a b c : a <= b -> 0 <= c -> a * c <= b * c.
Proof. intros. by apply Z.mul_le_mono_nonneg_r. Qed.

Lemma scale_lt a b c : a < b -> 0 < c -> a * c < b * c.
Proof. intros. by apply Z.mul_lt_mono_pos_r. Qed.

Lemma bit_length_scaled p q :
  0 < p < 2 ^ 52 -> 0 < q ->
  let ex := bit_length p q in
  ex <= 52
  /\ q * 2 ^ 52 <= p * 2 ^ (53 - ex) < q * 2 ^ 53.
Proof.
  intros Hp Hq. unfold bit_length.
  pose proof (Z.log2_spec p ltac:(lia)) as [Hpl Hpu].
  pose proof (Z.log2_spec q ltac:(lia)) as [Hql Hqu].
  pose proof (Z.log2_nonneg p) as Hlp. pose proof (Z.log2_nonneg q) as Hlq.
  set (lp := Z.log2 p) in *. set (lq := Z.log2 q) in *.
  assert (lp <= 51) as Hlp51.
  { destruct (Z_le_gt_dec lp 51) as [|Hgt]; [done|].
    assert (2 ^ 52 <= 2 ^ lp) by (apply Z.pow_le_mono_r; lia). lia. }
  rewrite Z.pow_succ_r in Hpu, Hqu by done.
  set (g := lp - lq).
  (* the test, with the powers on one side *)
  assert (forall k, 0 <= k -> lp <= k ->
            (q * 2 ^ Z.max 0 g <= p * 2 ^ Z.max 0 (- g)
             <-> q * 2 ^ k <= p * (2 ^ (k - lp) * 2 ^ lq))) as Htest.
  { intros k Hk Hlk.
    pose proof (pow2_pos (k - lp) ltac:(lia)) as Ha.
    pose proof (pow2_pos lq ltac:(lia)) as Hb.
    destruct (Z_le_gt_dec 0 g) as [Hg|Hg].
    - rewrite (Z.max_r 0 g), (Z.max_l 0 (- g)) by lia. change (2 ^ 0) with 1.
      replace k with (g + (lq + (k - lp))) at 1 by lia.
      rewrite !pow2_add by lia. pose proof (pow2_pos g Hg) as Hpg.
      set (G := 2 ^ g) in *. set (A := 2 ^ (k - lp)) in *.
      set (B := 2 ^ lq) in *.
      replace (q * (G * (B * A))) with (q * G * (A * B)) by ring.
      replace (p * (A * B)) with (p * 1 * (A * B)) by ring.
      split; intros Hle.
      + apply scale_le; [done|nia].
      + apply Z.mul_le_mono_pos_r in Hle; [done|nia].
    - rewrite (Z.max_l 0 g), (Z.max_r 0 (- g)) by lia. change (2 ^ 0) with 1.
      replace lq with (- g + lp) at 1 by lia.
      replace k with (lp + (k - lp)) at 1 by lia.
      rewrite !pow2_add by lia. pose proof (pow2_pos (- g) ltac:(lia)) as Hpg.
      pose proof (pow2_pos lp ltac:(lia)) as Hpp.
      set (G := 2 ^ (- g)) in *. set (A := 2 ^ (k - lp)) in *.
      set (P := 2 ^ lp) in *.
      replace (q * (P * A)) with (q * 1 * (P * A)) by ring.
      replace (p * (A * (G * P))) with (p * G * (P * A)) by ring.
      split; intros Hle.
      + apply scale_le; [done|nia].
      + apply Z.mul_le_mono_pos_r in Hle; [done|nia]. }
  destruct (q * 2 ^ Z.max 0 g <=? p * 2 ^ Z.max 0 (- g)) eqn:Et.
  - apply Z.leb_le in Et. split; [lia|].
    replace (53 - (g + 1)) with ((52 - lp) + lq) by lia.
    rewrite pow2_add by lia.
    apply (Htest 52) in Et; [|lia|lia]. split; [done|].
    pose proof (pow2_pos (52 - lp) ltac:(lia)) as Ha.
    pose proof (pow2_pos lq ltac:(lia)) as Hb.
    assert (2 ^ 53 = 2 * 2 ^ lp * 2 ^ (52 - lp)) as ->.
    { rewrite <- Z.pow_succ_r, <- pow2_add by lia. f_equal. lia. }
    set (A := 2 ^ (52 - lp)) in *. set (B := 2 ^ lq) in *.
    set (P := 2 ^ lp) in *.
    apply Z.lt_le_trans with (2 * P * (A * B)).
    + apply scale_lt; [lia|nia].
    + replace (2 * P * (A * B)) with (B * (2 * P * A)) by ring.
      apply scale_le; [lia|nia].
  - apply Z.leb_gt in Et. split; [lia|].
    replace (53 - g) with ((53 - lp) + lq) by lia.
    rewrite pow2_add by lia.
    assert (~ q * 2 ^ 53 <= p * (2 ^ (53 - lp) * 2 ^ lq)) as Hn.
    { intros Hle. apply (Htest 53) in Hle; lia. }
    split; [|lia].
    pose proof (pow2_pos (53 - lp) ltac:(lia)) as Ha.
    pose proof (pow2_pos lq ltac:(lia)) as Hb.
    assert (2 ^ 52 * 2 = 2 ^ lp * 2 ^ (53 - lp)) as E.
    { rewrite <- pow2_add by lia. change (2 ^ 52 * 2) with (2 ^ 53).
      f_equal. lia. }
    set (A := 2 ^ (53 - lp)) in *. set (B := 2 ^ lq) in *.
    set (P := 2 ^ lp) in *.
    apply Z.le_trans with (P * (A * B)).
    + assert (P * (A * B) = 2 * B * 2 ^ 52) as ->.
      { replace (P * (A * B)) with (B * (P * A)) by ring. rewrite <- E. ring. }
      apply scale_le; lia.
    + apply scale_le; [lia|nia].
Qed.

Lemma div_is a b n : 0 < b -> b * n <= a < b * (n + 1) -> a / b = n.
Proof.
  intros Hb Hn. symmetry. apply (Z.div_unique_pos a b n (a - b * n)); lia.
Qed.

Lemma round_ratio_reads_back s N d :
  0 < N < 2 ^ 52 -> 0 <= d <= 100 ->
  exists m e,
    round_ratio s N (10 ^ d) = S754_finite s m e
    /\ at_least_1e21 m e = false
    /\ round_half_up (Zpos m) e d = N.
Proof.
  intros HN Hd.
  assert (0 < 10 ^ d) as Hq by (apply Z.pow_pos_nonneg; lia).
  assert (10 ^ d <= 10 ^ 100) as Hq100 by (apply Z.pow_le_mono_r; lia).
  destruct (bit_length_scaled N (10 ^ d) HN Hq) as (Hex & Hlow & Hhigh).
  unfold round_ratio. set (ex := bit_length N (10 ^ d)) in *.
  set (q := 10 ^ d) in *.
  assert (- 333 <= ex) as Hex'.
  { destruct (Z_le_gt_dec (- 333) ex) as [|Hgt]; [done|]. exfalso.
    assert (2 ^ 386 <= 2 ^ (53 - ex)) by (apply Z.pow_le_mono_r; lia).
    assert (q * 2 ^ 53 <= 10 ^ 100 * 2 ^ 53) by (apply scale_le; lia).
    assert (10 ^ 100 * 2 ^ 53 < 2 ^ 386) by reflexivity.
    assert (1 * 2 ^ (53 - ex) <= N * 2 ^ (53 - ex))
      by (apply scale_le; [lia|apply Z.pow_nonneg; lia]).
    lia. }
  unfold prec, emax.
  rewrite (Z.max_l (ex - 53) (3 - 1024 - 53)) by lia.
  rewrite (Z.max_r 0 (- (ex - 53))), (Z.max_l 0 (ex - 53)) by lia.
  replace (- (ex - 53)) with (53 - ex) by lia.
  change (2 ^ 0) with 1. rewrite Z.mul_1_r.
  pose proof (pow2_pos (53 - ex) ltac:(lia)) as HA.
  set (A := 2 ^ (53 - ex)) in *.
  assert (0 <= N * A) as Hnum by nia.
  destruct (round_half_even_near (N * A) q Hnum Hq) as [Hnear Hm].
  set (m0 := round_half_even (N * A) q) in *.
  assert (2 ^ 52 <= N * A / q) as Hdl
    by (apply Z.div_le_lower_bound; lia).
  assert (N * A / q < 2 ^ 53) as Hdu
    by (apply Z.div_lt_upper_bound; lia).
  assert (q < A) as HqA.
  { assert (N * A < 2 ^ 52 * A) by (apply scale_lt; lia). nia. }
  assert (53 - ex = 1 + (52 - ex)) as Esplit by lia.
  assert (A = 2 * 2 ^ (52 - ex)) as EA.
  { unfold A. rewrite Esplit, pow2_add by lia. reflexivity. }
  destruct (m0 =? 0) eqn:E0; [apply Z.eqb_eq in E0; lia|].
  destruct (m0 =? 2 ^ 53) eqn:E53.
  - apply Z.eqb_eq in E53.
    assert (ex <= 51) as Hex51.
    { destruct (Z_le_gt_dec ex 51) as [|Hgt]; [done|]. exfalso.
      assert (ex = 52) as Heq by lia. unfold A in *. rewrite Heq in *.
      change (2 ^ (53 - 52)) with 2 in *. lia. }
    match goal with |- context [?a <? ?b] =>
      destruct (a <? b) eqn:Elt; [apply Z.ltb_lt in Elt; lia|] end.
    exists (Z.to_pos (2 ^ (53 - 1))), (ex - 53 + 1).
    split; [done|]. split.
    + unfold at_least_1e21.
      assert ((0 <=? ex - 53 + 1) = false) as -> by (apply Z.leb_gt; lia). done.
    + unfold round_half_up.
      assert ((0 <=? ex - 53 + 1) = false) as -> by (apply Z.leb_gt; lia).
      replace (- (ex - 53 + 1)) with (52 - ex) by lia.
      pose proof (pow2_pos (52 - ex) ltac:(lia)) as HA'.
      set (A' := 2 ^ (52 - ex)) in *.
      change (Z.pos (Z.to_pos (2 ^ (53 - 1)))) with (2 ^ 52).
      apply div_is; [lia|].
      assert (2 * 2 ^ 52 = m0) as E by (rewrite E53; reflexivity).
      fold q. nia.
  - apply Z.eqb_neq in E53.
    match goal with |- context [?a <? ?b] =>
      destruct (a <? b) eqn:Elt; [apply Z.ltb_lt in Elt; lia|] end.
    exists (Z.to_pos m0), (ex - 53).
    split; [done|]. split.
    + unfold at_least_1e21.
      assert ((0 <=? ex - 53) = false) as -> by (apply Z.leb_gt; lia). done.
    + unfold round_half_up.
      assert ((0 <=? ex - 53) = false) as -> by (apply Z.leb_gt; lia).
      replace (- (ex - 53)) with (53 - ex) by lia. fold A. fold q.
      rewrite Z2Pos.id by lia.
      apply div_is; [lia|]. nia.
Qed.

(** ** The digits a literal holds *)




Lemma fold_digits_value ds : forall acc,
  fold_left (fun acc c => 10 * acc + digit_value c) ds acc
  = acc * 10 ^ Z.of_nat (length ds) + digits_value ds.
Proof.
  unfold digits_value.
  induction ds as [|c ds IH]; intros acc; cbn [fold_left length].
  - cbn. lia.
  - rewrite IH. rewrite (IH (10 * 0 + digit_value c)).
    rewrite Nat2Z.inj_succ, Z.pow_succ_r by lia. ring.
Qed.

Lemma digits_value_app a b :
  digits_value (a ++ b)
  = digits_value a * 10 ^ Z.of_nat (length b) + digits_value b.
Proof.
  unfold digits_value at 1. rewrite fold_left_app.
  fold (digits_value a). apply fold_digits_value.
Qed.


Lemma digit_value_char r : 0 <= r < 10 -> digit_value (digit_char r) = r.
Proof.
  intros Hr.
  assert (r = 0 \/ r = 1 \/ r = 2 \/ r = 3 \/ r = 4 \/ r = 5 \/ r = 6
          \/ r = 7 \/ r = 8 \/ r = 9) as Hcases by lia.
  repeat (destruct Hcases as [-> | Hcases]; [reflexivity|]).
  by rewrite Hcases.
Qed.

Lemma digits_value_padded k : forall n,
  0 <= n -> digits_value (digits_padded k n) = n mod 10 ^ Z.of_nat k.
Proof.
  induction k as [|k IH]; intros n Hn.
  - cbn. by rewrite Z.mod_1_r.
  - cbn [digits_padded]. rewrite digits_value_app, IH by (apply Z.div_pos; lia).
    cbn [length]. change (digits_value [digit_char (n mod 10)])
      with (10 * 0 + digit_value (digit_char (n mod 10))).
    rewrite digit_value_char by (apply Z.mod_pos_bound; lia).
    change (10 ^ Z.of_nat 1) with 10.
    assert (0 < 10 ^ Z.of_nat k) by (apply Z.pow_pos_nonneg; lia).
    replace (10 ^ Z.of_nat (S k)) with (10 * 10 ^ Z.of_nat k)
      by (by rewrite Nat2Z.inj_succ, Z.pow_succ_r by lia).
    rewrite Z.rem_mul_r by lia. lia.
Qed.

Lemma digits_value_digits n : 0 <= n -> digits_value (digits n) = n.
Proof.
  intros Hn. destruct (digits_padded_form n Hn) as (k & _ & _ & Hk & ->).
  rewrite digits_value_padded by done. apply Z.mod_small. lia.
Qed.

(** The digits of the fixed notation spell [n]. *)
Lemma fixed_digits_value n d :
  0 <= n -> 0 <= d ->
  digits_value (digits (n / 10 ^ d) ++ digits_padded (Z.to_nat d) n) = n.
Proof.
  intros Hn Hd. assert (0 < 10 ^ d) by (apply Z.pow_pos_nonneg; lia).
  rewrite digits_value_app, length_digits_padded.
  rewrite digits_value_digits by (apply Z.div_pos; lia).
  rewrite digits_value_padded by done. rewrite Z2Nat.id by done.
  pose proof (Z_div_mod_eq_full n (10 ^ d)). lia.
Qed.



Section RoundTrip.
Context `{Engine}.


End RoundTrip.



(* ===================================================================== *)
(** * Proofs: releasing, observing and registering again *)
(* ===================================================================== *)

Section Release.
Context `{Engine}.

Lemma cancelAnimation_observers e s :
  observers (cancelAnimation e s) = observers s
  /\ intersection_observers (cancelAnimation e s) = intersection_observers s.
Proof. unfold cancelAnimation. by destruct (animations s !! e). Qed.

Lemma step_observers cl ts s :
  observers (fst (step cl ts s)) = observers s
  /\ intersection_observers (fst (step cl ts s)) = intersection_observers s.
Proof.
  unfold step.
  destruct (call_easing _ _) as [eased|]; [|done].
  destruct (formatNumber _ _ _ _) as [text|]; [|done].
  destruct (ltb _ one); cbn; [done|].
  by destruct (formatNumber _ _ _ _).
Qed.

Lemma connected_disconnect o o' s :
  connected (disconnect o s) o' = connected s o' && bool_decide (o' <> o).
Proof.
  unfold connected, disconnect. cbn.
  destruct (decide (o' = o)) as [->|Hne].
  - rewrite lookup_alter_eq. rewrite bool_decide_eq_false_2 by (by intros ?).
    destruct (intersection_observers s !! o) as [[e c]|]; cbn; [|done].
    by rewrite andb_false_r.
  - rewrite lookup_alter_ne by done. rewrite bool_decide_eq_true_2 by done.
    by rewrite andb_true_r.
Qed.

Lemma connected_disconnect_all (l : list Observer) : forall s o,
  connected (fold_left (fun s observer => disconnect observer s) l s) o
  = connected s o && bool_decide (o ∉ l).
Proof.
  induction l as [|x l IH]; intros s o; cbn.
  - rewrite bool_decide_eq_true_2; [by rewrite andb_true_r|].
    apply not_elem_of_nil.
  - rewrite IH, connected_disconnect, <- andb_assoc. f_equal.
    destruct (decide (o = x)) as [->|Hne].
    + rewrite bool_decide_eq_false_2 by (by intros ?). cbn.
      symmetry. apply bool_decide_eq_false_2. intros Hn. apply Hn. by left.
    + rewrite (bool_decide_eq_true_2 (o <> x)) by done. cbn.
      apply bool_decide_ext. rewrite not_elem_of_cons. tauto.
Qed.


Lemma cancel_frames_preserves {B} (g : State -> B) (m : gmap Element Handle) s :
  (forall h s, g (cancelAnimationFrame h s) = g s) ->
  g (map_fold (fun _ animId s => cancelAnimationFrame animId s) s m) = g s.
Proof.
  intros Hg.
  apply (map_fold_weak_ind (fun s' (_ : gmap Element Handle) => g s' = g s)).
  - done.
  - intros e a m' r _ IH. by rewrite Hg.
Qed.

(** The fields [reset] leaves alone, and the ones it clears. *)
Lemma reset_frame s :
  settings (reset s) = settings s /\ elements (reset s) = elements s
  /\ dataset (reset s) = dataset s /\ console (reset s) = console s
  /\ next_handle (reset s) = next_handle s
  /\ next_observer (reset s) = next_observer s
  /\ elementState (reset s) = ∅ /\ observers (reset s) = [].
Proof.
  unfold reset. repeat split.
  all: match goal with |- ?g _ = _ =>
    rewrite (fold_left_preserves g)
      by (intros; by apply (reset_restore_preserves g));
    cbn; rewrite ?(fold_left_preserves g) by done; cbn;
    rewrite ?(cancel_frames_preserves g) by done; done end.
Qed.

Lemma reset_connected s o :
  connected (reset s) o = connected s o && bool_decide (o ∉ observers s).
Proof.
  unfold reset.
  set (restore := fun (s : State) (element : Element) => _).
  set (s1 := map_fold _ s (animations s)).
  assert (forall s, connected (fold_left restore (elements s) s) o = connected s o)
    as Hrestore.
  { intros s'. unfold connected.
    rewrite (fold_left_preserves intersection_observers); [done|].
    intros; by apply (reset_restore_preserves intersection_observers). }
  set (s4 := with_observers [] _).
  rewrite (Hrestore s4). unfold s4.
  change (connected (with_observers [] ?x) o) with (connected x o).
  cbn [observers with_elementState with_animations].
  rewrite connected_disconnect_all.
  assert (observers s1 = observers s) as ->
    by (unfold s1; by rewrite (cancel_frames_preserves observers)).
  f_equal. unfold connected. cbn.
  unfold s1. by rewrite (cancel_frames_preserves intersection_observers).
Qed.

(** The texts after the last loop of [reset]. *)
Lemma restore_texts (l : list Element) : forall s e,
  let restore := fun (s : State) (element : Element) =>
    match counterupValue <$> dataset s !! element with
    | Some value =>
        if String.eqb value EmptyString then s else set_innerText element value s
    | None => s
    end in
  get_innerText e (fold_left restore l s)
  = if decide (e ∈ l) then default (get_innerText e s) (original_text s e)
    else get_innerText e s.
Proof.
  cbn zeta. induction l as [|x l IH]; intros s e.
  - cbn. by rewrite decide_False by apply not_elem_of_nil.
  - cbn [fold_left]. rewrite IH.
    set (s1 := match counterupValue <$> dataset s !! x with
               | Some value => _ | None => s end).
    assert (dataset s1 = dataset s) as Hd.
    { unfold s1. destruct (counterupValue <$> dataset s !! x); [|done].
      by destruct (String.eqb _ _). }
    assert (original_text s1 e = original_text s e) as ->.
    { unfold original_text. by rewrite Hd. }
    assert (get_innerText e s1
            = if decide (e = x)
              then default (get_innerText e s) (original_text s e)
              else get_innerText e s) as Ht.
    { unfold s1, original_text. case_decide as Hex.
      - subst x. destruct (counterupValue <$> dataset s !! e) as [v|]; [|done].
        destruct (String.eqb v _); [done|].
        unfold get_innerText. cbn. by rewrite lookup_insert_eq.
      - destruct (counterupValue <$> dataset s !! x) as [v|]; [|done].
        destruct (String.eqb v _); [done|].
        unfold get_innerText. cbn. by rewrite lookup_insert_ne. }
    destruct (decide (e ∈ l)) as [Hin|Hnin].
    + rewrite decide_True by (by right).
      destruct (original_text s e) eqn:Eo; [done|]. cbn. rewrite Ht.
      by case_decide.
    + rewrite Ht. destruct (decide (e = x)) as [->|Hne].
      * by rewrite decide_True by (by left).
      * rewrite decide_False; [done|]. rewrite not_elem_of_cons. tauto.
Qed.

Lemma reset_innerText s e :
  get_innerText e (reset s)
  = if decide (e ∈ elements s)
    then default (get_innerText e s) (original_text s e)
    else get_innerText e s.
Proof.
  unfold reset.
  set (s1 := map_fold _ s (animations s)).
  set (s4 := with_observers [] _).
  pose proof (restore_texts (elements s4) s4 e) as Hr. cbn zeta in Hr.
  rewrite Hr.
  assert (elements s4 = elements s) as ->.
  { unfold s4. cbn. rewrite (fold_left_preserves elements) by done. cbn.
    unfold s1. by rewrite (cancel_frames_preserves elements). }
  assert (get_innerText e s4 = get_innerText e s) as ->.
  { unfold get_innerText, s4. cbn.
    rewrite (fold_left_preserves innerText) by done. cbn.
    unfold s1. by rewrite (cancel_frames_preserves innerText). }
  assert (original_text s4 e = original_text s e) as ->.
  { unfold original_text, s4. cbn.
    rewrite (fold_left_preserves dataset) by done. cbn.
    unfold s1. by rewrite (cancel_frames_preserves dataset). }
  done.
Qed.

(** ** Connected observers are listed *)

Lemma connected_listed_frame s s' :
  observers s' = observers s ->
  intersection_observers s' = intersection_observers s ->
  connected_listed s -> connected_listed s'.
Proof.
  intros Ho Hi Hs o. unfold connected. rewrite Hi, Ho. apply Hs.
Qed.

Lemma animate_connected_listed e s :
  connected_listed s -> connected_listed (animate e s).
Proof.
  destruct (animate_frame s e) as (_ & Ho & Hi & _).
  by apply connected_listed_frame.
Qed.

Lemma on_entry_connected_listed o e b s :
  connected_listed s -> connected_listed (on_entry o e b s).
Proof.
  intros Hs. unfold on_entry. set (s1 := with_elementState _ s).
  assert (connected_listed s1) as Hs1 by done.
  destruct b; cbn.
  - pose proof (animate_connected_listed e s1 Hs1) as Ha.
    destruct (once (settings (animate e s1))); [|done].
    intros o' Hc.
    change (connected (disconnect o (animate e s1)) o' = true) in Hc.
    rewrite connected_disconnect in Hc.
    apply andb_true_iff in Hc as [Hc Hne%bool_decide_eq_true].
    cbn. apply list_elem_of_filter. split; [done|]. by apply Ha.
  - destruct (default false (elementState s !! e)); cbn; [|done].
    destruct (cancelAnimation_observers e s1) as [Ho Hi].
    assert (connected_listed (cancelAnimation e s1)) as Hc
      by (by apply (connected_listed_frame s1)).
    by destruct (once (settings (cancelAnimation e s1))).
Qed.

Lemma fold_left_keeps {A} (P : State -> Prop) (f : State -> A -> State)
  (l : list A) s :
  (forall s x, P s -> P (f s x)) -> P s -> P (fold_left f l s).
Proof.
  intros Hf. revert s. induction l as [|x l IH]; intros s Hs; cbn; auto.
Qed.

Lemma forEach_keeps {A} (P : State -> Prop)
  (f : A -> State -> State * completion unit) l s :
  (forall x s, P s -> P (fst (f x s))) -> P s -> P (fst (forEach f l s)).
Proof.
  intros Hf. revert s. induction l as [|x l IH]; intros s Hs; cbn; [done|].
  specialize (Hf x s Hs). destruct (f x s) as [s' [[]|e]]; cbn in *; auto.
Qed.

Lemma frame_connected_listed h ts s :
  connected_listed s -> connected_listed (frame h ts s).
Proof.
  intros Hs. unfold frame.
  destruct (frame_callbacks s !! h) as [cl|]; [|done].
  set (s1 := with_frame_callbacks _ s).
  destruct (step_observers cl ts s1) as [Ho Hi].
  apply (connected_listed_frame s); [| |done].
  - by destruct (step cl ts s1) as [s' [[]|x]].
  - by destruct (step cl ts s1) as [s' [[]|x]].
Qed.

Lemma init_element_connected_listed e s :
  connected_listed s -> connected_listed (fst (init_element e s)).
Proof.
  intros Hs. unfold init_element, new_observer.
  destruct (String.eqb _ _); [done|].
  destruct (parseValue _ _) as [[pd|]|]; [|done|done].
  destruct (root_margin_accepted _); [|exact Hs].
  cbn. intros o. unfold connected. cbn.
  destruct (decide (o = next_observer s)) as [->|Hne].
  - intros _. apply elem_of_app. right. by left.
  - rewrite lookup_insert_ne by done. intros Hc.
    apply elem_of_app. left. by apply Hs.
Qed.

Lemma init_connected_listed s :
  connected_listed s -> connected_listed (fst (init s)).
Proof.
  apply forEach_keeps. intros. by apply init_element_connected_listed.
Qed.

Lemma reset_disconnects s o :
  connected_listed s -> connected (reset s) o = false.
Proof.
  intros Hs. rewrite reset_connected.
  destruct (connected s o) eqn:Ec; [|done]. cbn.
  apply bool_decide_eq_false_2. intros Hn. by apply Hn, Hs.
Qed.

Lemma reset_connected_listed s :
  connected_listed s -> connected_listed (reset s).
Proof. intros Hs o Hc. by rewrite reset_disconnects in Hc. Qed.

Lemma report_connected_listed r :
  connected_listed (fst r) -> connected_listed (report r).
Proof. by destruct r as [s [a|e]]. Qed.

Lemma run_event_connected_listed ev s :
  connected_listed s -> connected_listed (run_event ev s).
Proof.
  intros Hs. destruct ev; cbn.
  - unfold intersect.
    destruct (intersection_observers s !! observer) as [[e c]|]; [|done].
    unfold observer_callback.
    apply fold_left_keeps; [|done]. intros. by apply on_entry_connected_listed.
  - by apply frame_connected_listed.
  - apply report_connected_listed, init_connected_listed.
    by apply reset_connected_listed.
  - by apply report_connected_listed, init_connected_listed,
      reset_connected_listed.
  - unfold replay.
    apply fold_left_keeps; [|done]. intros. by apply animate_connected_listed.
  - by apply (connected_listed_frame (reset s)); [| |apply reset_connected_listed].
Qed.

Lemma reachable_connected_listed s : reachable s -> connected_listed s.
Proof.
  induction 1 as [text data selected options|s ev _ IH].
  - apply report_connected_listed. unfold constructor.
    assert (connected_listed
              (with_elementState ∅ (with_animations ∅ (with_observers []
                 (with_elements selected
                    (with_settings (assign defaults options)
                       (page text data))))))) as Hs.
    { intros o. unfold connected. cbn. by rewrite lookup_empty. }
    destruct selected; [done|]. by apply init_connected_listed.
  - by apply run_event_connected_listed.
Qed.

Lemma reset_idle s :
  animations s = ∅ -> elementState s = ∅ -> observers s = [] ->
  elements s = [] -> reset s = s.
Proof.
  destruct s. cbn. intros -> -> -> ->. unfold reset. cbn.
  by rewrite map_fold_empty.
Qed.

(** X1.  [reset] on a state the instance can reach leaves no frame request
    pending, no animation recorded, no visibility state, no observer listed
    and none connected; the datasets stay, and every element of
    [this.elements] whose [data-counterup-value] is present and not empty
    shows that text again, every other element the text it had. *)
Theorem reset_releases_and_restores (s : State) :
  reachable s ->
  frame_callbacks (reset s) = ∅
  /\ animations (reset s) = ∅
  /\ elementState (reset s) = ∅
  /\ observers (reset s) = []
  /\ (forall o, connected (reset s) o = false)
  /\ dataset (reset s) = dataset s
  /\ (forall e, get_innerText e (reset s)
        = if decide (e ∈ elements s)
          then default (get_innerText e s) (original_text s e)
          else get_innerText e s).
Proof.
  intros Hreach.
  pose proof (reachable_invariant s Hreach) as [Hrec _].
  pose proof (reachable_connected_listed s Hreach) as Hlisted.
  destruct (reset_frame s) as (_ & _ & Hd & _ & _ & _ & Hes & Ho).
  split; [by apply reset_no_request|]. split; [apply reset_animations|].
  split; [done|]. split; [done|].
  split; [intros o; by apply reset_disconnects|].
  split; [done|]. apply reset_innerText.
Qed.

(** X2.  After [destroy] nothing is left to run: no frame callback is pending,
    no observer is connected, [replay], [restart] and a second [destroy]
    change nothing, and [updateOptions] changes the settings only. *)
Theorem destroy_is_final (s : State) :
  reachable s ->
  let s' := destroy s in
  elements s' = []
  /\ (forall h ts, frame h ts s' = s')
  /\ (forall o, connected s' o = false)
  /\ replay s' = s'
  /\ restart s' = (s', Normal tt)
  /\ destroy s' = s'
  /\ (forall options,
        updateOptions options s'
        = (with_settings (assign (settings s') options) s', Normal tt)).
Proof.
  intros Hreach. cbn zeta.
  pose proof (reachable_invariant s Hreach) as [Hrec _].
  pose proof (reachable_connected_listed s Hreach) as Hlisted.
  destruct (reset_frame s) as (_ & _ & _ & _ & _ & _ & Hes & Ho).
  assert (reset (destroy s) = destroy s) as Hagain.
  { apply reset_idle; unfold destroy; cbn; [apply reset_animations|done..]. }
  split; [done|]. split.
  { intros h ts. unfold frame.
    change (frame_callbacks (destroy s)) with (frame_callbacks (reset s)).
    by rewrite (reset_no_request s Hrec), lookup_empty. }
  split; [intros o; by apply (reset_disconnects s)|].
  split; [done|]. split.
  { unfold restart. by rewrite Hagain. }
  split.
  { unfold destroy at 1. by rewrite Hagain. }
  intros options. unfold updateOptions.
  set (s1 := with_settings _ (destroy s)).
  assert (reset s1 = s1) as ->; [|done].
  apply reset_idle; unfold s1, destroy; cbn; [apply reset_animations|done..].
Qed.
End Release.

Section Observers.
Context `{Engine}.

Lemma same_registry_refl s : same_registry s s.
Proof. by repeat split. Qed.

Lemma same_registry_trans s1 s2 s3 :
  same_registry s1 s2 -> same_registry s2 s3 -> same_registry s1 s3.
Proof.
  intros (?&?&?&?&?) (?&?&?&?&?). repeat split; congruence.
Qed.

Lemma cancelAnimation_registry e s : same_registry s (cancelAnimation e s).
Proof.
  unfold cancelAnimation. by destruct (animations s !! e); repeat split.
Qed.

Lemma animate_registry e s : same_registry s (animate e s).
Proof.
  unfold animate.
  pose proof (cancelAnimation_registry e s) as Hc.
  set (s1 := cancelAnimation e s) in *.
  apply (same_registry_trans _ s1); [done|].
  destruct (dataset s1 !! e) as [d|]; cbn; [|by repeat split].
  destruct (counterupDecimals d); cbn; [|by repeat split].
  by destruct (isNaN _); repeat split.
Qed.

Lemma step_registry cl ts s : same_registry s (fst (step cl ts s)).
Proof.
  unfold step.
  destruct (call_easing _ _) as [eased|]; [|by repeat split].
  destruct (formatNumber _ _ _ _) as [text|]; [|by repeat split].
  destruct (ltb _ one); cbn; [by repeat split|].
  by destruct (formatNumber _ _ _ _); repeat split.
Qed.

Lemma frame_registry h ts s : same_registry s (frame h ts s).
Proof.
  unfold frame. destruct (frame_callbacks s !! h) as [cl|]; [|by repeat split].
  set (s1 := with_frame_callbacks _ s).
  pose proof (step_registry cl ts s1) as Hs.
  destruct (step cl ts s1) as [s' [[]|x]]; cbn in *;
    destruct Hs as (?&?&?&?&?); by repeat split.
Qed.

Lemma replay_registry s : same_registry s (replay s).
Proof.
  unfold replay.
  apply (fold_left_keeps (same_registry s)); [|apply same_registry_refl].
  intros s' x Hs'. apply (same_registry_trans _ s'); [done|].
  apply (same_registry_trans _ (set_innerText x "0" s'));
    [by repeat split|apply animate_registry].
Qed.

Lemma animatable_registry s s' e :
  same_registry s s' -> animatable s' e = animatable s e.
Proof. intros (_ & _ & Hd & _). unfold animatable. by rewrite Hd. Qed.

Lemma connected_registry s s' o :
  same_registry s s' -> connected s' o = connected s o.
Proof. intros (_ & _ & _ & Hi & _). unfold connected. by rewrite Hi. Qed.

Lemma observers_sound_registry s s' :
  same_registry s s' -> observers_sound s -> observers_sound s'.
Proof.
  intros Hreg (Hconn & Hnd & Hfresh & Hwatch).
  pose proof Hreg as (He & Ho & Hd & Hi & Hn).
  split; [|split; [|split]].
  - intros o. rewrite Ho, (connected_registry s s' o Hreg). apply Hconn.
  - by rewrite Ho.
  - intros o. rewrite Hi, Hn. apply Hfresh.
  - intros o e Hl. rewrite Hi in Hl. rewrite He.
    rewrite (animatable_registry s s' e Hreg). by apply (Hwatch o e).
Qed.

(** ** What [parseValue] returns is a number *)

Lemma round_ratio_not_nan sg p q : isNaN (round_ratio sg p q) = false.
Proof.
  unfold round_ratio.
  destruct (_ =? 0); [done|].
  destruct (_ =? 2 ^ prec); by destruct (_ <? _).
Qed.

Lemma literal_number_not_nan lit : isNaN (literal_number lit) = false.
Proof.
  unfold literal_number. destruct (_ =? 0); [done|].
  destruct (0 <=? _); apply round_ratio_not_nan.
Qed.

Lemma parseValue_not_nan st v pd :
  parseValue st v = Normal (Some pd) -> isNaN (pd_number pd) = false.
Proof.
  unfold parseValue. destruct (String.eqb v _); [done|].
  destruct (remove_separator _ _) as [clean|]; [|done].
  destruct (scan_numeric clean) as [lit|]; [|done].
  intros [= <-]. apply literal_number_not_nan.
Qed.

Lemma on_entry_observers_sound o e b s :
  observers_sound s -> observers_sound (on_entry o e b s).
Proof.
  intros Hs. unfold on_entry. set (s1 := with_elementState _ s).
  assert (observers_sound s1) as Hs1
    by (by apply (observers_sound_registry s); [repeat split|]).
  destruct b; cbn.
  - pose proof (observers_sound_registry s1 _ (animate_registry e s1) Hs1)
      as (Hconn & Hnd & Hfresh & Hwatch).
    set (s2 := animate e s1) in *.
    destruct (once (settings s2)); [|done].
    split; [|split; [|split]].
    + intros o' [Hne Hin]%list_elem_of_filter.
      change (connected (disconnect o s2) o' = true).
      rewrite connected_disconnect, (Hconn o' Hin). cbn.
      by apply bool_decide_eq_true_2.
    + cbn. by apply NoDup_filter.
    + intros o' Hl.
      change (is_Some (alter (fun p => (fst p, false)) o
                         (intersection_observers s2) !! o')) in Hl.
      change (o' < next_observer s2)%nat.
      apply Hfresh. destruct (decide (o' = o)) as [->|Hne].
      * rewrite lookup_alter_eq in Hl. by apply fmap_is_Some in Hl.
      * by rewrite lookup_alter_ne in Hl.
    + intros o' e' Hl.
      change (alter (fun p => (fst p, false)) o
                (intersection_observers s2) !! o' = Some (e', true)) in Hl.
      change (e' ∈ elements s2 /\ animatable s2 e' = true).
      destruct (decide (o' = o)) as [->|Hne].
      * rewrite lookup_alter_eq in Hl.
        destruct (intersection_observers s2 !! o) as [[??]|]; by cbn in Hl.
      * rewrite lookup_alter_ne in Hl by done. by apply (Hwatch o' e').
  - destruct (default false (elementState s !! e)); cbn; [|done].
    pose proof (observers_sound_registry s1 _ (cancelAnimation_registry e s1)
                  Hs1) as Hc.
    destruct (once (settings (cancelAnimation e s1))); cbn; [done|].
    by apply (observers_sound_registry (cancelAnimation e s1)); [repeat split|].
Qed.


Lemma disconnect_all_keys (l : list Observer) : forall s o,
  is_Some (intersection_observers
             (fold_left (fun s observer => disconnect observer s) l s) !! o)
  -> is_Some (intersection_observers s !! o).
Proof.
  induction l as [|x l IH]; intros s o; cbn; [done|].
  intros Hl. apply IH in Hl. unfold disconnect in Hl. cbn in Hl.
  destruct (decide (o = x)) as [->|Hne].
  - rewrite lookup_alter_eq in Hl. by apply fmap_is_Some in Hl.
  - by rewrite lookup_alter_ne in Hl.
Qed.

Lemma reset_keys s o :
  is_Some (intersection_observers (reset s) !! o) ->
  is_Some (intersection_observers s !! o).
Proof.
  unfold reset.
  rewrite (fold_left_preserves intersection_observers)
    by (intros; by apply (reset_restore_preserves intersection_observers)).
  cbn. intros Hl. apply disconnect_all_keys in Hl. cbn in Hl.
  by rewrite (cancel_frames_preserves intersection_observers) in Hl.
Qed.

Lemma reset_observers_sound s :
  connected_listed s -> observers_sound s -> observers_sound (reset s).
Proof.
  intros Hlisted (_ & _ & Hfresh & _).
  destruct (reset_frame s) as (_ & _ & _ & _ & _ & Hn & _ & Ho).
  split; [|split; [|split]].
  - intros o. rewrite Ho. by intros ?%elem_of_nil.
  - rewrite Ho. apply NoDup_nil_2.
  - intros o Hl. rewrite Hn. by apply Hfresh, reset_keys.
  - intros o e Hl.
    pose proof (reset_disconnects s o Hlisted) as Hd.
    unfold connected in Hd. by rewrite Hl in Hd.
Qed.

Lemma init_element_observers_sound x s :
  x ∈ elements s -> observers_sound s ->
  observers_sound (fst (init_element x s)).
Proof.
  intros Hx (Hconn & Hnd & Hfresh & Hwatch). unfold init_element.
  destruct (String.eqb _ _); [done|].
  destruct (parseValue _ _) as [[pd|]|] eqn:Eparse; [|done|done].
  apply parseValue_not_nan in Eparse.
  assert (forall o, o ∈ observers s -> o <> next_observer s) as Hold.
  { intros o Hin ->. apply Hconn in Hin. unfold connected in Hin.
    destruct (intersection_observers s !! next_observer s) as [p|] eqn:El;
      [|done].
    assert (next_observer s < next_observer s)%nat; [|lia].
    apply Hfresh. by eexists. }
  unfold new_observer. destruct (root_margin_accepted _); cycle 1.
  { split; [exact Hconn|]. split; [exact Hnd|]. split; [exact Hfresh|].
    intros o e Hl. destruct (Hwatch o e Hl) as [Hin Ha]. split; [done|].
    unfold animatable. cbn.
    destruct (decide (e = x)) as [->|Hne'].
    - rewrite lookup_insert_eq. cbn. destruct (pd_number pd); by cbn in *.
    - by rewrite lookup_insert_ne. }
  cbn. split; [|split; [|split]].
  - intros o [Hin | ->%list_elem_of_singleton]%elem_of_app; unfold connected; cbn.
    + rewrite lookup_insert_ne
        by (intros Heq; exact (Hold _ Hin (eq_sym Heq))).
      by apply Hconn.
    + by rewrite lookup_insert_eq.
  - cbn. apply NoDup_app. split; [done|]. split; [|apply NoDup_singleton].
    intros o Hin ->%list_elem_of_singleton. by apply (Hold _ Hin).
  - intros o. cbn. destruct (decide (o = next_observer s)) as [->|Hne]; [lia|].
    rewrite lookup_insert_ne by done. intros Hl%Hfresh. lia.
  - intros o e. unfold animatable. cbn.
    destruct (decide (o = next_observer s)) as [->|Hne].
    + rewrite lookup_insert_eq. intros [= <-]. split; [done|].
      rewrite lookup_insert_eq. cbn.
      destruct (pd_number pd); by cbn in *.
    + rewrite lookup_insert_ne by done. intros Hl.
      destruct (Hwatch o e Hl) as [Hin Ha]. split; [done|].
      destruct (decide (e = x)) as [->|Hne'].
      * rewrite lookup_insert_eq. cbn.
        destruct (pd_number pd); by cbn in *.
      * by rewrite lookup_insert_ne.
Qed.

Lemma forEach_keeps_in {A} (P : State -> Prop)
  (f : A -> State -> State * completion unit) (l : list A) s :
  (forall x s, x ∈ l -> P s -> P (fst (f x s))) ->
  P s -> P (fst (forEach f l s)).
Proof.
  revert s. induction l as [|x l IH]; intros s Hf Hs; cbn; [done|].
  pose proof (Hf x s ltac:(by left) Hs) as Hx.
  destruct (f x s) as [s' [[]|e]]; cbn in *; [|done].
  apply IH; [|done]. intros y s'' Hy. apply Hf. by right.
Qed.

Lemma init_element_elements x s : elements (fst (init_element x s)) = elements s.
Proof.
  unfold init_element, new_observer. destruct (String.eqb _ _); [done|].
  destruct (parseValue _ _) as [[pd|]|]; [|done|done].
  by destruct (root_margin_accepted _).
Qed.

Lemma init_observers_sound s :
  observers_sound s -> observers_sound (fst (init s)).
Proof.
  intros Hs. unfold init.
  destruct (forEach_keeps_in
              (fun s' => elements s' = elements s /\ observers_sound s')
              init_element (elements s) s) as [_ Hres]; [|done|done].
  intros x s' Hx [He Hs']. split.
  - by rewrite init_element_elements.
  - apply init_element_observers_sound; [by rewrite He|done].
Qed.

Lemma run_event_observers_sound ev s :
  connected_listed s -> observers_sound s -> observers_sound (run_event ev s).
Proof.
  intros Hlisted Hs. destruct ev; cbn [run_event].
  - unfold intersect.
    destruct (intersection_observers s !! observer) as [[e c]|]; [|done].
    unfold observer_callback.
    apply fold_left_keeps; [|done]. intros. by apply on_entry_observers_sound.
  - by apply (observers_sound_registry s); [apply frame_registry|].
  - unfold updateOptions. set (s1 := with_settings _ s).
    assert (observers_sound (fst (init (reset s1)))) as Hi.
    { apply init_observers_sound, reset_observers_sound; [done|].
      by apply (observers_sound_registry s); [repeat split|]. }
    by destruct (init (reset s1)) as [s' [[]|x]].
  - unfold restart.
    assert (observers_sound (fst (init (reset s)))) as Hi
      by (by apply init_observers_sound, reset_observers_sound).
    by destruct (init (reset s)) as [s' [[]|x]].
  - by apply (observers_sound_registry s); [apply replay_registry|].
  - unfold destroy.
    pose proof (reset_observers_sound s Hlisted Hs)
      as (Hconn & Hnd & Hfresh & Hwatch).
    split; [done|]. split; [done|]. split; [done|].
    intros o e Hl. pose proof (reset_disconnects s o Hlisted) as Hd.
    change (intersection_observers (reset s) !! o = Some (e, true)) in Hl.
    unfold connected in Hd. by rewrite Hl in Hd.
Qed.

Lemma reachable_observers_sound s : reachable s -> observers_sound s.
Proof.
  induction 1 as [text data selected options|s ev Hreach IH].
  - unfold constructor.
    set (s0 := with_elementState ∅ _).
    assert (observers_sound s0) as Hs.
    { split; [|split; [|split]].
      - by intros o ?%elem_of_nil.
      - apply NoDup_nil_2.
      - intros o [p Hl]. cbn in Hl. by rewrite lookup_empty in Hl.
      - intros o e Hl. cbn in Hl. by rewrite lookup_empty in Hl. }
    destruct selected as [|x selected].
    + by cbn.
    + pose proof (init_observers_sound s0 Hs) as Hi.
      by destruct (init s0) as [s' [[]|y]].
  - apply run_event_observers_sound; [|done].
    by apply reachable_connected_listed.
Qed.


(** ** A visibility entry starts an animation *)

Lemma cancelAnimation_document e s :
  settings (cancelAnimation e s) = settings s
  /\ innerText (cancelAnimation e s) = innerText s
  /\ console (cancelAnimation e s) = console s
  /\ elementState (cancelAnimation e s) = elementState s.
Proof. unfold cancelAnimation. by destruct (animations s !! e). Qed.

Lemma animate_valid e s d dec :
  dataset s !! e = Some d -> counterupDecimals d = Some dec ->
  isNaN (counterupNumber d) = false ->
  let s1 := cancelAnimation e s in
  animate e s
  = with_animations (<[e := next_handle s]> (animations s1))
      (with_next_handle (S (next_handle s))
         (with_frame_callbacks
            (<[next_handle s := first_step s e d dec]> (frame_callbacks s1))
            s1)).
Proof.
  intros Hd Hdec Hnan. cbn zeta. unfold animate.
  rewrite cancelAnimation_dataset, Hd. cbn. rewrite Hdec, Hnan. cbn.
  rewrite cancelAnimation_next_handle. unfold first_step.
  by destruct (cancelAnimation_document e s) as (-> & _).
Qed.

Lemma animatable_data s e :
  animatable s e = true ->
  exists d dec, dataset s !! e = Some d /\ counterupDecimals d = Some dec
                /\ isNaN (counterupNumber d) = false.
Proof.
  unfold animatable. destruct (dataset s !! e) as [d|]; [|done].
  intros [[dec Hdec]%bool_decide_eq_true Hnan%negb_true_iff]%andb_true_iff.
  by exists d, dec.
Qed.

(** X3.  In every state the instance can reach, [this.observers] lists
    exactly the observers that are still connected, each once, and a connected
    observer watches an element of [this.elements]. *)
Theorem observers_are_the_connected_ones (s : State) :
  reachable s ->
  (forall o, o ∈ observers s <-> connected s o = true)
  /\ NoDup (observers s)
  /\ (forall o e, intersection_observers s !! o = Some (e, true) ->
        e ∈ elements s).
Proof.
  intros Hreach.
  pose proof (reachable_connected_listed s Hreach) as Hlisted.
  pose proof (reachable_observers_sound s Hreach)
    as (Hconn & Hnd & _ & Hwatch).
  split; [|split; [done|]].
  - intros o. split; [apply Hconn|apply Hlisted].
  - intros o e Hl. by destruct (Hwatch o e Hl).
Qed.

(** X4.  In every state the instance can reach, the entry into view of an
    element watched by a connected observer starts an animation: the request
    carries the stored number, decimals and separator flag, the duration and
    easing of the settings, start value 0 and no start time; it is the only
    request of the element, which is recorded as visible.  The entry itself
    writes no text and logs nothing: [animate] never refuses data that [init]
    stored. *)
Theorem entry_starts_an_animation (s : State) (o : Observer) (e : Element) :
  reachable s ->
  intersection_observers s !! o = Some (e, true) ->
  let s' := on_entry o e true s in
  exists d dec,
    dataset s !! e = Some d /\ counterupDecimals d = Some dec
    /\ animations s' !! e = Some (next_handle s)
    /\ frame_callbacks s' !! next_handle s = Some (first_step s e d dec)
    /\ exactly_one_session s' e
    /\ elementState s' !! e = Some true
    /\ innerText s' = innerText s
    /\ console s' = console s.
Proof.
  intros Hreach Hl. cbn zeta.
  pose proof (reachable_invariant s Hreach) as Hinv.
  pose proof (reachable_observers_sound s Hreach) as (_ & _ & _ & Hwatch).
  destruct (Hwatch o e Hl) as [_ Ha].
  destruct (animatable_data s e Ha) as (d & dec & Hd & Hdec & Hnan).
  exists d, dec. split; [done|]. split; [done|].
  pose proof (on_entry_invariant o e true s Hinv) as [Hrec _].
  revert Hrec. unfold on_entry.
  set (s1 := with_elementState (<[e := true]> (elementState s)) s).
  rewrite (animate_valid e s1 d dec Hd Hdec Hnan).
  destruct (cancelAnimation_document e s1) as (Hset & Htext & Hcons & Hes).
  set (s2 := with_animations _ _).
  assert (animations s2 !! e = Some (next_handle s)
          /\ frame_callbacks s2 !! next_handle s = Some (first_step s e d dec)
          /\ elementState s2 !! e = Some true
          /\ innerText s2 = innerText s /\ console s2 = console s)
    as (Han & Hfr & Hst & Ht & Hc).
  { unfold s2. cbn. rewrite !lookup_insert_eq, Hes, Htext, Hcons. cbn.
    by rewrite lookup_insert_eq. }
  assert (forall s3, animations s3 = animations s2 ->
            frame_callbacks s3 = frame_callbacks s2 ->
            sessions_recorded s3 -> exactly_one_session s3 e) as Hone.
  { intros s3 Ha3 Hf3 Hrec. exists (next_handle s). split.
    - exists (first_step s e d dec). by rewrite Hf3.
    - intros h' (cl & Hcl & He). apply Hrec in Hcl.
      rewrite He, Ha3, Han in Hcl. by injection Hcl. }
  destruct (once (settings s2)); intros Hrec; cbn;
    (split; [done|]); (split; [done|]); (split; [by apply Hone|done]).
Qed.


(** ** Registering again *)

Lemma assign_no_options st : assign st no_options = st.
Proof. by destruct st. Qed.

Lemma with_settings_same s : with_settings (settings s) s = s.
Proof. by destruct s. Qed.

(** X5.  When the separator of the merged settings compiles as a pattern
    and their offset, followed by " 0px", is a margin the observers take,
    [updateOptions] returns normally with the merged settings and the same
    elements.  An element is read again from the text [reset] puts back, its
    [data-counterup-value] where there is one, not from the text an animation
    left: if that text parses under the new settings the element gets the new
    data and the hidden state, otherwise it keeps its old data and has no
    visibility state.  [restart] is [updateOptions] without options. *)
Theorem updateOptions_reads_the_original_text (s : State) (options : Options) :
  let st := assign (settings s) options in
  let s0 := reset (with_settings st s) in
  regexp_accepts (separator st) = true ->
  root_margin_accepted (offset st +:+ " 0px") = true ->
  exists s',
    updateOptions options s = (s', Normal tt)
    /\ settings s' = st
    /\ elements s' = elements s
    /\ (forall e, e ∈ elements s ->
          source_text s0 e
          = trim (default (get_innerText e s) (original_text s e))
          /\ match registration s0 e with
             | Some parsed =>
                 dataset s' !! e = Some (registered_data s0 e parsed)
                 /\ elementState s' !! e = Some false
             | None =>
                 dataset s' !! e = dataset s !! e
                 /\ elementState s' !! e = None
             end)
    /\ restart s = updateOptions no_options s.
Proof.
  cbn zeta. intros Hacc Hmargin.
  set (s1 := with_settings (assign (settings s) options) s).
  destruct (reset_frame s1) as (Hset & Hel & Hdata & _ & _ & _ & Hes & _).
  set (s0 := reset s1) in *.
  assert (regexp_accepts (separator (settings s0)) = true) as Hacc0
    by (by rewrite Hset).
  assert (root_margin_accepted (offset (settings s0) +:+ " 0px") = true)
    as Hmargin0 by (by rewrite Hset).
  destruct (forEach_init_element_spec s0 (elements s0) s0 Hacc0 Hmargin0
              eq_refl eq_refl)
    as (s' & Hrun & Hs & _ & _ & _ & _ & _ & _ & Hout & Hin).
  exists s'. split; [done|]. split; [by rewrite Hs, Hset|]. split.
  { change s' with (fst (s', @Normal unit tt)). rewrite <- Hrun.
    rewrite (forEach_preserves elements)
      by (intros; apply init_element_elements).
    by rewrite Hel. }
  split.
  - intros e He. split.
    + unfold source_text, s0. rewrite reset_innerText.
      change (elements s1) with (elements s).
      rewrite decide_True by done. done.
    + destruct (registration s0 e) as [parsed|] eqn:Ereg.
      * destruct (Hin e) as (parsed' & Hp & Hd & Hst).
        { apply list_elem_of_filter. split; [|by rewrite Hel].
          unfold is_registered. rewrite Ereg. by apply bool_decide_eq_true_2. }
        rewrite Ereg in Hp. by injection Hp as <-.
      * destruct (Hout e) as [Hd Hst].
        { intros [Hr _]%list_elem_of_filter. unfold is_registered in Hr.
          rewrite Ereg in Hr. apply bool_decide_eq_true in Hr. by destruct Hr. }
        by rewrite Hd, Hst, Hdata, Hes.
  - unfold restart, updateOptions.
    by rewrite assign_no_options, with_settings_same.
Qed.

(** ** A new instance *)

Lemma init_element_idle x s :
  innerText (fst (init_element x s)) = innerText s
  /\ settings (fst (init_element x s)) = settings s
  /\ (all_hidden s -> all_hidden (fst (init_element x s))).
Proof.
  unfold init_element, new_observer. destruct (String.eqb _ _); [done|].
  destruct (parseValue _ _) as [[pd|]|]; [|done|done].
  destruct (root_margin_accepted _); cbn; (repeat split); intros Hs e b; cbn.
  all: destruct (decide (e = x)) as [->|Hne];
    [ rewrite lookup_insert_eq; by intros [= <-]
    | rewrite lookup_insert_ne by done; apply Hs ].
Qed.

Lemma hidden_entries_do_nothing o e (entries : list bool) : forall s,
  all_hidden s -> Forall (fun b => b = false) entries ->
  let s' := observer_callback o e entries s in
  innerText s' = innerText s /\ frame_callbacks s' = frame_callbacks s
  /\ animations s' = animations s /\ console s' = console s
  /\ all_hidden s'.
Proof.
  cbn zeta. unfold observer_callback.
  induction entries as [|b entries IH]; intros s Hs Hall; [done|].
  apply Forall_cons in Hall as [-> Hall]. cbn [fold_left].
  assert (on_entry o e false s
          = with_elementState (<[e := false]> (elementState s)) s) as ->.
  { unfold on_entry. destruct (elementState s !! e) as [b|] eqn:Eb; [|done].
    by rewrite (Hs e b Eb). }
  destruct (IH (with_elementState (<[e := false]> (elementState s)) s))
    as (Ht & Hf & Ha & Hc & Hh); [|done|done].
  intros e' b. cbn. destruct (decide (e' = e)) as [->|Hne].
  - rewrite lookup_insert_eq. by intros [= <-].
  - rewrite lookup_insert_ne by done. apply Hs.
Qed.

(** X6.  A new instance has the defaults overridden by the options, the
    selected elements, and is idle: the constructor writes no text, requests
    no frame and records every registered element as hidden.  Notifications
    that report elements outside the viewport leave it so: no text changes,
    no frame is requested, nothing is logged. *)
Theorem construction_is_idle (text : gmap Element string)
  (data : gmap Element Dataset) (selected : list Element) (options : Options) :
  let s := report (constructor selected options (page text data)) in
  settings s = assign defaults options
  /\ elements s = selected
  /\ innerText s = text
  /\ frame_callbacks s = ∅ /\ animations s = ∅
  /\ all_hidden s
  /\ (forall o entries,
        Forall (fun b => b = false) entries ->
        let s' := intersect o entries s in
        innerText s' = text /\ frame_callbacks s' = ∅ /\ animations s' = ∅
        /\ console s' = console s).
Proof.
  cbn zeta. unfold constructor. set (s0 := with_elementState ∅ _).
  set (r := match selected with [] => _ | _ => init s0 end).
  assert (settings (fst r) = assign defaults options
          /\ elements (fst r) = selected /\ innerText (fst r) = text
          /\ frame_callbacks (fst r) = ∅ /\ animations (fst r) = ∅
          /\ all_hidden (fst r)) as Hr.
  { assert (all_hidden s0) as Hh0
      by (intros e b Hl; cbn in Hl; by rewrite lookup_empty in Hl).
    unfold r. destruct selected as [|x selected]; [done|].
    split; [|split; [|split; [|split; [|split]]]].
    - unfold init. rewrite (forEach_preserves settings); [done|].
      intros y s'. by destruct (init_element_idle y s') as (_ & -> & _).
    - unfold init. rewrite (forEach_preserves elements); [done|].
      intros; apply init_element_elements.
    - unfold init. rewrite (forEach_preserves innerText); [done|].
      intros y s'. by destruct (init_element_idle y s') as (-> & _).
    - by rewrite init_frame_callbacks.
    - by rewrite init_animations.
    - unfold init. apply forEach_keeps; [|done].
      intros y s'. by destruct (init_element_idle y s') as (_ & _ & Hh). }
  assert (forall (T : Type) (g : State -> T),
            (forall l s, g (with_console l s) = g s) ->
            g (report r) = g (fst r)) as Hrep.
  { intros T g Hg. destruct r as [s' [[]|x]]; [done|]. cbn. apply Hg. }
  destruct Hr as (Hs & He & Ht & Hf & Ha & Hh).
  assert (all_hidden (report r)) as Hh'.
  { by destruct r as [s' [[]|x]]. }
  rewrite !Hrep by done.
  split; [done|]. split; [done|]. split; [done|]. split; [done|].
  split; [done|]. split; [done|].
  intros o entries Hall. cbn zeta. unfold intersect.
  destruct (intersection_observers (report r) !! o) as [[e c]|].
  - destruct (hidden_entries_do_nothing o e entries (report r) Hh' Hall)
      as (-> & -> & -> & -> & _).
    by rewrite !Hrep by done.
  - by rewrite !Hrep by done.
Qed.

End Observers.

Lemma observers_are_the_connected_ones_witness :
  (forall o, o ∈ observers demo_running <-> connected demo_running o = true)
  /\ NoDup (observers demo_running)
  /\ (forall o e,
        intersection_observers demo_running !! o = Some (e, true) ->
        e ∈ elements demo_running).
Proof.
  exact (observers_are_the_connected_ones demo_running demo_running_reachable).
Defined.

Lemma entry_starts_an_animation_witness :
  intersection_observers demo_hidden !! 0%nat = Some (0%nat, true)
  /\ let s' := on_entry 0%nat 0%nat true demo_hidden in
     exists d dec,
       dataset demo_hidden !! 0%nat = Some d /\ counterupDecimals d = Some dec
       /\ animations s' !! 0%nat = Some (next_handle demo_hidden)
       /\ frame_callbacks s' !! next_handle demo_hidden
          = Some (first_step demo_hidden 0%nat d dec)
       /\ exactly_one_session s' 0%nat
       /\ elementState s' !! 0%nat = Some true
       /\ innerText s' = innerText demo_hidden
       /\ console s' = console demo_hidden.
Proof.
  split; [vm_compute; reflexivity|].
  apply (entry_starts_an_animation demo_hidden 0%nat 0%nat).
  - apply reachable_event, demo_running_reachable.
  - vm_compute. reflexivity.
Defined.

Lemma updateOptions_reads_the_original_text_witness :
  get_innerText 0%nat demo_running = "0"
  /\ regexp_accepts (separator (assign (settings demo_running)
                                 (with_prefix "$"))) = true
  /\ root_margin_accepted
       (offset (assign (settings demo_running) (with_prefix "$")) +:+ " 0px")
     = true
  /\ let st := assign (settings demo_running) (with_prefix "$") in
     let s0 := reset (with_settings st demo_running) in
     exists s',
       updateOptions (with_prefix "$") demo_running = (s', Normal tt)
       /\ settings s' = st
       /\ elements s' = elements demo_running
       /\ (forall e, e ∈ elements demo_running ->
             source_text s0 e
             = trim (default (get_innerText e demo_running)
                       (original_text demo_running e))
             /\ match registration s0 e with
                | Some parsed =>
                    dataset s' !! e = Some (registered_data s0 e parsed)
                    /\ elementState s' !! e = Some false
                | None =>
                    dataset s' !! e = dataset demo_running !! e
                    /\ elementState s' !! e = None
                end)
       /\ restart demo_running = updateOptions no_options demo_running.
Proof.
  split; [vm_compute; reflexivity|]. split; [reflexivity|].
  split; [reflexivity|].
  apply (updateOptions_reads_the_original_text demo_running (with_prefix "$"));
    reflexivity.
Defined.

Lemma reset_releases_and_restores_witness :
  frame_callbacks demo_running <> ∅
  /\ get_innerText 0%nat demo_running = "0"
  /\ get_innerText 0%nat (reset demo_running) = "1,500"
  /\ frame_callbacks (reset demo_running) = ∅
  /\ animations (reset demo_running) = ∅
  /\ elementState (reset demo_running) = ∅
  /\ observers (reset demo_running) = []
  /\ (forall o, connected (reset demo_running) o = false)
  /\ dataset (reset demo_running) = dataset demo_running
  /\ (forall e, get_innerText e (reset demo_running)
        = if decide (e ∈ elements demo_running)
          then default (get_innerText e demo_running)
                 (original_text demo_running e)
          else get_innerText e demo_running).
Proof.
  split; [vm_compute; discriminate|].
  split; [vm_compute; reflexivity|].
  split; [vm_compute; reflexivity|].
  exact (reset_releases_and_restores demo_running demo_running_reachable).
Defined.

Lemma destroy_is_final_witness :
  let s' := destroy demo_running in
  elements s' = []
  /\ (forall h ts, frame h ts s' = s')
  /\ (forall o, connected s' o = false)
  /\ replay s' = s'
  /\ restart s' = (s', Normal tt)
  /\ destroy s' = s'
  /\ (forall options,
        updateOptions options s'
        = (with_settings (assign (settings s') options) s', Normal tt)).
Proof. exact (destroy_is_final demo_running demo_running_reachable). Defined.

(* ===================================================================== *)
(** * Proofs: elements side by side *)
(* ===================================================================== *)

Section Elements.
Context `{Engine}.

(** ** Elements do not disturb each other *)

Lemma untouched_refl e s : untouched e s s.
Proof. by repeat split. Qed.

Lemma untouched_trans e s1 s2 s3 :
  untouched e s1 s2 -> untouched e s2 s3 -> untouched e s1 s3.
Proof.
  intros (Ht & Hd & Ha & Hs) (Ht' & Hd' & Ha' & Hs').
  split; [congruence|]. split; [congruence|]. split; [congruence|].
  intros h. by rewrite Hs', Hs.
Qed.

Lemma pending_is_old s h cl :
  invariant s -> frame_callbacks s !! h = Some cl -> (h < next_handle s)%nat.
Proof. intros (Hrec & _ & _ & Hfresh) Hl. by apply Hrec, Hfresh in Hl. Qed.

Lemma cancelAnimation_untouched x e s :
  invariant s -> x <> e -> untouched e s (cancelAnimation x s).
Proof.
  intros (Hrec & _ & Hown & _) Hne. unfold cancelAnimation.
  destruct (animations s !! x) as [hx|] eqn:Ex; [|apply untouched_refl].
  split; [done|]. split; [done|]. split.
  { cbn. by rewrite lookup_delete_ne. }
  intros h. split.
  - intros (cl & Hl & He). cbn in Hl.
    apply lookup_delete_Some in Hl as [_ Hl]. by exists cl.
  - intros (cl & Hl & He). exists cl. split; [|done]. cbn.
    rewrite lookup_delete_ne; [done|]. intros ->.
    apply Hne. rewrite <- He. symmetry. by eapply Hown.
Qed.

(** Registering a request of [x] under a fresh handle. *)
Lemma request_untouched x e s cl :
  invariant s -> x <> e -> cl_element cl = x ->
  let '(animId, s') := requestAnimationFrame cl s in
  untouched e s (with_animations (<[x := animId]> (animations s')) s').
Proof.
  intros Hinv Hne Hcl. cbn.
  split; [done|]. split; [done|]. split.
  { cbn. by rewrite lookup_insert_ne. }
  intros h. split.
  - intros (cl' & Hl & He). cbn in Hl.
    destruct (decide (h = next_handle s)) as [->|Hh].
    + rewrite lookup_insert_eq in Hl. injection Hl as <-. congruence.
    + rewrite lookup_insert_ne in Hl by done. by exists cl'.
  - intros (cl' & Hl & He). exists cl'. split; [|done]. cbn.
    rewrite lookup_insert_ne; [done|].
    pose proof (pending_is_old s h cl' Hinv Hl). lia.
Qed.

Lemma console_warn_untouched m a e s : untouched e s (console_warn m a s).
Proof. by repeat split. Qed.

Lemma animate_untouched x e s :
  invariant s -> x <> e -> untouched e s (animate x s).
Proof.
  intros Hinv Hne. unfold animate.
  pose proof (cancelAnimation_untouched x e s Hinv Hne) as Hc.
  pose proof (cancelAnimation_invariant x s Hinv) as Hinv1.
  set (s1 := cancelAnimation x s) in *.
  apply (untouched_trans e s s1); [done|].
  destruct (dataset s1 !! x) as [d|]; cbn; [|apply console_warn_untouched].
  destruct (counterupDecimals d) as [dec|]; cbn;
    [|apply console_warn_untouched].
  destruct (isNaN _); [apply console_warn_untouched|].
  by apply (request_untouched x e s1
              {| cl_element := x; cl_targetValue := counterupNumber d;
                 cl_decimals := dec; cl_hasComma := counterupHasCommas d;
                 cl_startValue := zero; cl_startTime := None;
                 cl_duration := duration (settings s1);
                 cl_easingFn := resolve_easing (easing (settings s1)) |}).
Qed.

Lemma set_innerText_untouched x e t s :
  x <> e -> untouched e s (set_innerText x t s).
Proof.
  intros Hne. split; [|done]. unfold get_innerText. cbn.
  by rewrite lookup_insert_ne.
Qed.

Lemma step_untouched cl ts e s :
  invariant s -> cl_element cl <> e -> untouched e s (fst (step cl ts s)).
Proof.
  intros Hinv Hne. unfold step.
  destruct (call_easing _ _) as [eased|]; [|apply untouched_refl].
  destruct (formatNumber _ _ _ _) as [text|]; [|apply untouched_refl].
  pose proof (set_innerText_untouched (cl_element cl) e text s Hne) as Ht.
  pose proof (set_innerText_invariant (cl_element cl) text s Hinv) as Hinv1.
  set (s1 := set_innerText (cl_element cl) text s) in *.
  destruct (ltb _ one).
  - apply (untouched_trans e s s1); [done|].
    set (cl' := Build_StepClosure _ _ _ _ _ _ _ _).
    by apply (request_untouched (cl_element cl) e s1 cl').
  - cbn [settings]. destruct (formatNumber _ _ _ _) as [text'|]; cbn [fst].
    + apply (untouched_trans e s s1); [done|].
      pose proof (set_innerText_untouched (cl_element cl) e text' s1 Hne) as Ht'.
      apply (untouched_trans e s1 (set_innerText (cl_element cl) text' s1));
        [done|].
      split; [done|]. split; [done|]. split; [|done].
      cbn. by rewrite lookup_delete_ne.
    + done.
Qed.

Lemma frame_untouched h cl ts e s :
  invariant s -> frame_callbacks s !! h = Some cl -> cl_element cl <> e ->
  untouched e s (frame h ts s).
Proof.
  intros Hinv Hl Hne. unfold frame. rewrite Hl.
  set (s1 := with_frame_callbacks (delete h (frame_callbacks s)) s).
  assert (untouched e s s1) as H1.
  { split; [done|]. split; [done|]. split; [done|]. intros h'. split.
    - intros (cl' & Hl' & He). cbn in Hl'.
      apply lookup_delete_Some in Hl' as [_ Hl']. by exists cl'.
    - intros (cl' & Hl' & He). exists cl'. split; [|done]. cbn.
      rewrite lookup_delete_ne; [done|]. intros ->. congruence. }
  pose proof (step_untouched cl ts e s1 (take_off_invariant h s Hinv) Hne) as H2.
  apply (untouched_trans e s s1); [done|].
  destruct (step cl ts s1) as [s' [[]|x]]; [done|].
  apply (untouched_trans e s1 s'); [done|]. by repeat split.
Qed.

Lemma on_entry_untouched o x b e s :
  invariant s -> x <> e -> untouched e s (on_entry o x b s).
Proof.
  intros Hinv Hne. unfold on_entry.
  set (s1 := with_elementState _ s).
  assert (invariant s1) as Hinv1 by (by destruct Hinv as (?&?&?&?)).
  assert (untouched e s s1) as H1 by (by repeat split).
  apply (untouched_trans e s s1); [done|].
  destruct b; cbn.
  - pose proof (animate_untouched x e s1 Hinv1 Hne) as Ha.
    destruct (once (settings (animate x s1))); [|done].
    apply (untouched_trans e s1 (animate x s1)); [done|]. by repeat split.
  - destruct (default false (elementState s !! x)); cbn; [|apply untouched_refl].
    pose proof (cancelAnimation_untouched x e s1 Hinv1 Hne) as Hc.
    destruct (once (settings (cancelAnimation x s1))); cbn; [done|].
    apply (untouched_trans e s1 (cancelAnimation x s1)); [done|].
    by apply set_innerText_untouched.
Qed.

(** X7.  In every state the instance can reach, what is done to one element
    leaves every other element as it was: starting or cancelling the
    animation of [x], a visibility notification about [x] and a frame of [x]
    change neither the text, the dataset, the recorded animation nor the
    pending requests of an element [e] other than [x]. *)
Theorem other_elements_are_untouched (s : State) (x e : Element) :
  reachable s -> x <> e ->
  untouched e s (animate x s)
  /\ untouched e s (cancelAnimation x s)
  /\ (forall o b, untouched e s (on_entry o x b s))
  /\ (forall h cl ts,
        frame_callbacks s !! h = Some cl -> cl_element cl = x ->
        untouched e s (frame h ts s)).
Proof.
  intros Hreach Hne. pose proof (reachable_invariant s Hreach) as Hinv.
  split; [by apply animate_untouched|].
  split; [by apply cancelAnimation_untouched|].
  split; [intros; by apply on_entry_untouched|].
  intros h cl ts Hl Hx. apply (frame_untouched h cl); [done|done|congruence].
Qed.


(** ** [replay] on an element without data *)

Lemma animate_invalid e s :
  animatable s e = false ->
  animate e s = console_warn "CounterUp: Invalid values for animation:"
                  (AboutElement e) (cancelAnimation e s).
Proof.
  unfold animatable, animate. rewrite cancelAnimation_dataset.
  destruct (dataset s !! e) as [d|]; cbn; [|done].
  destruct (counterupDecimals d) as [dec|]; cbn; [|done].
  by intros ->%negb_false_iff.
Qed.

Lemma animate_console x s w : In w (console s) -> In w (console (animate x s)).
Proof.
  intros Hw. unfold animate.
  destruct (cancelAnimation_document x s) as (_ & _ & Hc & _).
  destruct (dataset _ !! x) as [d|]; cbn; [|right; by rewrite Hc].
  destruct (counterupDecimals d); cbn; [|right; by rewrite Hc].
  destruct (isNaN _); cbn; [right|]; by rewrite Hc.
Qed.

Lemma replay_step_without_data x e s :
  invariant s -> animatable s e = false ->
  let P s := get_innerText e s = "0"
             /\ In (invalid_values e) (console s)
             /\ no_session s e /\ animations s !! e = None in
  x = e \/ P s -> P (animate x (set_innerText x "0" s)).
Proof.
  intros Hinv Hdata. cbn zeta. set (s0 := set_innerText x "0" s).
  assert (invariant s0) as Hinv0 by (by apply set_innerText_invariant).
  destruct (decide (x = e)) as [->|Hne].
  - intros _. rewrite (animate_invalid e s0) by done.
    destruct (cancelAnimation_document e s0) as (_ & Ht & _ & _).
    split; [|split; [|split]].
    + unfold get_innerText. cbn. rewrite Ht. cbn. by rewrite lookup_insert_eq.
    + by left.
    + apply (cancelAnimation_no_session e s0), Hinv0.
    + cbn. rewrite cancelAnimation_animations. by rewrite decide_True.
  - intros [->|(Ht & Hw & Hs & Ha)]; [done|].
    pose proof (set_innerText_untouched x e "0" s Hne) as H0.
    pose proof (animate_untouched x e s0 Hinv0 Hne) as H1.
    destruct (untouched_trans e s s0 _ H0 H1) as (Ht' & _ & Ha' & Hs').
    split; [congruence|]. split; [by apply animate_console|].
    split; [|congruence]. intros h Hh. by apply Hs', Hs in Hh.
Qed.

Lemma replay_fold_without_data e (l : list Element) : forall s,
  invariant s -> animatable s e = false ->
  let P s := get_innerText e s = "0"
             /\ In (invalid_values e) (console s)
             /\ no_session s e /\ animations s !! e = None in
  e ∈ l \/ P s ->
  P (fold_left (fun s x => animate x (set_innerText x "0" s)) l s).
Proof.
  cbn zeta. induction l as [|x l IH]; intros s Hinv Hdata Hstart.
  - destruct Hstart as [Hin|HP]; [by apply elem_of_nil in Hin|done].
  - cbn [fold_left]. set (s1 := animate x (set_innerText x "0" s)).
    assert (invariant s1) as Hinv1
      by (by apply animate_invariant, set_innerText_invariant).
    assert (animatable s1 e = false) as Hdata1.
    { unfold animatable, s1. by rewrite animate_dataset. }
    apply IH; [done|done|].
    destruct Hstart as [Hin|HP].
    + apply elem_of_cons in Hin as [->|Hin]; [|by left].
      right. apply (replay_step_without_data x x s); [done|done|by left].
    + right. apply (replay_step_without_data x e s); [done|done|by right].
Qed.

(** X8.  [replay] on an element of [this.elements] whose dataset lacks the
    decimals or a number overwrites its text with ["0"], logs the warning of
    [animate] and starts no animation; if the element has no
    [data-counterup-value] either, [reset] does not bring its text back. *)
Theorem replay_without_data (s : State) (e : Element) :
  reachable s -> e ∈ elements s -> animatable s e = false ->
  get_innerText e (replay s) = "0"
  /\ In (invalid_values e) (console (replay s))
  /\ no_session (replay s) e
  /\ animations (replay s) !! e = None
  /\ (original_text s e = None ->
      get_innerText e (reset (replay s)) = "0").
Proof.
  intros Hreach Hin Hdata. pose proof (reachable_invariant s Hreach) as Hinv.
  destruct (replay_fold_without_data e (elements s) s Hinv Hdata)
    as (Ht & Hw & Hs & Ha); [by left|].
  fold (replay s) in *.
  split; [done|]. split; [done|]. split; [done|]. split; [done|].
  intros Horig. rewrite reset_innerText.
  destruct (replay_registry s) as (-> & _ & Hd & _).
  rewrite decide_True by done.
  unfold original_text in *. rewrite Hd, Horig. done.
Qed.


(** ** The recorded animations are the pending ones *)

Lemma no_exception_warn m a s :
  no_exception (console_warn m a s) = no_exception s.
Proof. done. Qed.

Lemma cancelAnimation_recorded_pending e s :
  invariant s -> recorded_pending s -> recorded_pending (cancelAnimation e s).
Proof.
  intros (_ & _ & Hown & _) Hs. unfold cancelAnimation.
  destruct (animations s !! e) as [h|] eqn:Ea; [|done].
  intros e' h' Ha. cbn in *.
  apply lookup_delete_Some in Ha as [Hne Ha].
  destruct (Hs e' h' Ha) as [cl Hl].
  rewrite lookup_delete_ne; [by eexists|].
  intros ->. apply Hne. transitivity (cl_element cl).
  - symmetry. by eapply Hown.
  - by eapply Hown.
Qed.

Lemma request_recorded_pending s cl :
  recorded_pending s ->
  let '(animId, s') := requestAnimationFrame cl s in
  recorded_pending
    (with_animations (<[cl_element cl := animId]> (animations s')) s').
Proof.
  intros Hs e h Ha. cbn in *.
  destruct (decide (h = next_handle s)) as [->|Hne].
  - rewrite lookup_insert_eq. by eexists.
  - rewrite lookup_insert_ne by done.
    destruct (decide (cl_element cl = e)) as [<-|Hne'].
    + rewrite lookup_insert_eq in Ha. by injection Ha.
    + rewrite lookup_insert_ne in Ha by done. by apply (Hs e).
Qed.

Lemma animate_recorded_pending e s :
  invariant s -> recorded_pending s -> recorded_pending (animate e s).
Proof.
  intros Hinv Hs. unfold animate.
  pose proof (cancelAnimation_recorded_pending e s Hinv Hs) as Hc.
  set (s1 := cancelAnimation e s) in *.
  destruct (dataset s1 !! e) as [d|]; cbn; [|done].
  destruct (counterupDecimals d) as [dec|]; cbn; [|done].
  destruct (isNaN _); [done|].
  by apply (request_recorded_pending s1
              {| cl_element := e; cl_targetValue := counterupNumber d;
                 cl_decimals := dec; cl_hasComma := counterupHasCommas d;
                 cl_startValue := zero; cl_startTime := None;
                 cl_duration := duration (settings s1);
                 cl_easingFn := resolve_easing (easing (settings s1)) |}).
Qed.

Lemma animate_no_exception e s :
  no_exception (animate e s) = no_exception s.
Proof.
  unfold animate, no_exception.
  destruct (cancelAnimation_document e s) as (_ & _ & Hc & _).
  destruct (dataset _ !! e) as [d|]; cbn; [|by rewrite Hc].
  destruct (counterupDecimals d); cbn; [|by rewrite Hc].
  destruct (isNaN _); cbn; by rewrite Hc.
Qed.

Lemma on_entry_recorded_pending o e b s :
  invariant s -> recorded_pending s -> recorded_pending (on_entry o e b s).
Proof.
  intros Hinv Hs. unfold on_entry. set (s1 := with_elementState _ s).
  assert (invariant s1) as Hinv1 by (by destruct Hinv as (?&?&?&?)).
  assert (recorded_pending s1) as Hs1 by done.
  destruct b; cbn.
  - pose proof (animate_recorded_pending e s1 Hinv1 Hs1) as Ha.
    by destruct (once (settings (animate e s1))).
  - destruct (default false (elementState s !! e)); cbn; [|done].
    pose proof (cancelAnimation_recorded_pending e s1 Hinv1 Hs1) as Hc.
    by destruct (once (settings (cancelAnimation e s1))).
Qed.

Lemma on_entry_no_exception o e b s :
  no_exception (on_entry o e b s) = no_exception s.
Proof.
  unfold on_entry. set (s1 := with_elementState _ s).
  destruct b; cbn.
  - pose proof (animate_no_exception e s1) as Ha.
    by destruct (once (settings (animate e s1))).
  - destruct (default false (elementState s !! e)); cbn; [|done].
    destruct (cancelAnimation_document e s1) as (_ & _ & Hc & _).
    unfold no_exception.
    by destruct (once (settings (cancelAnimation e s1))); cbn; rewrite Hc.
Qed.

(** A frame that throws leaves its trace; one that does not keeps the
    records in line. *)
Lemma frame_recorded_pending h ts s :
  invariant s -> recorded_pending s ->
  no_exception (frame h ts s) = true ->
  no_exception s = true /\ recorded_pending (frame h ts s).
Proof.
  intros Hinv Hs. unfold frame.
  destruct (frame_callbacks s !! h) as [cl|] eqn:Ecl; [|done].
  set (s1 := with_frame_callbacks (delete h (frame_callbacks s)) s).
  destruct Hinv as (Hrec & _ & Hown & _).
  (* in [s1] every record but the one of the element is pending *)
  assert (forall e h', animations s1 !! e = Some h' -> e <> cl_element cl ->
            is_Some (frame_callbacks s1 !! h')) as Hs1.
  { intros e h' Ha Hne. cbn in *. destruct (Hs e h' Ha) as [cl' Hl].
    rewrite lookup_delete_ne; [by eexists|].
    intros ->. apply Hne. rewrite Ecl in Hl. injection Hl as <-.
    symmetry. by eapply Hown. }
  unfold step.
  destruct (call_easing _ _) as [eased|]; [|done].
  destruct (formatNumber _ _ _ _) as [text|]; [|done].
  destruct (ltb _ one); cbn.
  - intros Hq. split; [done|]. intros e h' Ha. cbn in *.
    destruct (decide (h' = next_handle s)) as [->|Hne].
    + rewrite lookup_insert_eq. by eexists.
    + rewrite lookup_insert_ne by done.
      destruct (decide (cl_element cl = e)) as [<-|Hne'].
      * rewrite lookup_insert_eq in Ha. by injection Ha.
      * rewrite lookup_insert_ne in Ha by done. by apply (Hs1 e).
  - destruct (formatNumber _ _ _ _) as [text'|]; cbn; [|done].
    intros Hq. split; [done|]. intros e h' Ha. cbn in *.
    apply lookup_delete_Some in Ha as [Hne Ha]. by apply (Hs1 e).
Qed.

Lemma idle_recorded_pending s : animations s = ∅ -> recorded_pending s.
Proof. intros Ha e h Hl. by rewrite Ha, lookup_empty in Hl. Qed.

Lemma fold_recorded_pending {A} (f : State -> A -> State) (l : list A) :
  (forall s x, invariant s -> invariant (f s x)) ->
  (forall s x, invariant s -> recorded_pending s -> recorded_pending (f s x)) ->
  forall s, invariant s -> recorded_pending s ->
    recorded_pending (fold_left f l s).
Proof.
  intros Hi Hf. induction l as [|x l IH]; intros s Hinv Hs; [done|].
  cbn [fold_left]. apply IH; [by apply Hi|by apply Hf].
Qed.

Lemma fold_no_exception {A} (f : State -> A -> State) (l : list A) :
  (forall s x, no_exception (f s x) = no_exception s) ->
  forall s, no_exception (fold_left f l s) = no_exception s.
Proof.
  intros Hq. induction l as [|x l IH]; intros s; [done|].
  cbn [fold_left]. by rewrite IH, Hq.
Qed.

Lemma frame_no_exception h ts s :
  no_exception (frame h ts s) = true -> no_exception s = true.
Proof.
  unfold frame. destruct (frame_callbacks s !! h) as [cl|]; [|done].
  destruct (step cl ts _) as [s' [[]|x]] eqn:Estep; [|done].
  cbn. revert Estep. unfold step.
  destruct (call_easing _ _) as [eased|]; [|done].
  destruct (formatNumber _ _ _ _) as [text|]; [|done].
  destruct (ltb _ one); cbn; [by intros [= <-]|].
  destruct (formatNumber _ _ _ _) as [text'|]; [|done].
  by intros [= <-].
Qed.

Lemma run_event_recorded_pending ev s :
  invariant s -> (no_exception s = true -> recorded_pending s) ->
  no_exception (run_event ev s) = true ->
  recorded_pending (run_event ev s).
Proof.
  intros Hinv Hs. destruct ev; cbn [run_event].
  - unfold intersect.
    destruct (intersection_observers s !! observer) as [[e c]|]; [|done].
    unfold observer_callback.
    rewrite fold_no_exception by (intros; apply on_entry_no_exception).
    intros Hq. apply fold_recorded_pending; [| |done|by apply Hs].
    + intros; by apply on_entry_invariant.
    + intros; by apply on_entry_recorded_pending.
  - intros Hq. pose proof (frame_no_exception _ _ _ Hq) as Hq0.
    by apply frame_recorded_pending; [|apply Hs|].
  - intros _. apply idle_recorded_pending.
    unfold updateOptions.
    set (r := init _). assert (animations (fst r) = ∅) as Ha
      by (unfold r; rewrite init_animations; apply reset_animations).
    by destruct r as [s' [[]|x]].
  - intros _. apply idle_recorded_pending. unfold restart.
    set (r := init _). assert (animations (fst r) = ∅) as Ha
      by (unfold r; rewrite init_animations; apply reset_animations).
    by destruct r as [s' [[]|x]].
  - unfold replay.
    rewrite fold_no_exception by (intros; by rewrite animate_no_exception).
    intros Hq. apply fold_recorded_pending; [| |done|by apply Hs].
    + intros; by apply animate_invariant, set_innerText_invariant.
    + intros s' x Hi Hp.
      by apply animate_recorded_pending; [apply set_innerText_invariant|].
  - intros _. apply idle_recorded_pending. unfold destroy. cbn.
    apply reset_animations.
Qed.

Lemma reachable_recorded_pending s :
  reachable s -> no_exception s = true -> recorded_pending s.
Proof.
  induction 1 as [text data selected options|s ev Hreach IH].
  - intros _. apply idle_recorded_pending.
    unfold constructor. destruct selected as [|x selected]; [done|].
    set (r := init _). assert (animations (fst r) = ∅) as Ha
      by (unfold r; by rewrite init_animations).
    by destruct r as [s' [[]|y]].
  - apply run_event_recorded_pending; [|done].
    by apply reachable_invariant.
Qed.

(** X9.  As long as no exception has left a callback or a method,
    [this.animations] records exactly the pending frame requests: an element
    is mapped to a handle just when the request under that handle is pending
    and is a step of that element. *)
Theorem recorded_animations_are_pending (s : State) :
  reachable s -> no_exception s = true ->
  forall e h, animations s !! e = Some h <-> session_of s e h.
Proof.
  intros Hreach Hq e h.
  pose proof (reachable_invariant s Hreach) as (Hrec & _ & Hown & _).
  pose proof (reachable_recorded_pending s Hreach Hq) as Hpend.
  split.
  - intros Ha. destruct (Hpend e h Ha) as [cl Hl]. exists cl.
    split; [done|]. by eapply Hown.
  - intros (cl & Hl & <-). by apply Hrec.
Qed.

End Elements.

Lemma demo_four_registered_reachable : reachable demo_four_registered.
Proof. apply reachable_new. Qed.

Lemma other_elements_are_untouched_witness :
  let s := run_event (Intersect 1%nat [true])
             (run_event (Intersect 0%nat [true]) demo_four_registered) in
  frame_callbacks s !! 1%nat <> None /\ frame_callbacks s !! 2%nat <> None
  /\ untouched 3%nat s (animate 0%nat s)
  /\ untouched 3%nat s (cancelAnimation 0%nat s)
  /\ (forall o b, untouched 3%nat s (on_entry o 0%nat b s))
  /\ (forall h cl ts,
        frame_callbacks s !! h = Some cl -> cl_element cl = 0%nat ->
        untouched 3%nat s (frame h ts s)).
Proof.
  cbv zeta. split; [vm_compute; discriminate|].
  split; [vm_compute; discriminate|].
  apply (other_elements_are_untouched _ 0%nat 3%nat); [|discriminate].
  apply reachable_event, reachable_event, demo_four_registered_reachable.
Defined.

Lemma replay_without_data_witness :
  (2%nat ∈ elements demo_four_registered
   /\ animatable demo_four_registered 2%nat = false
   /\ get_innerText 2%nat demo_four_registered = "n/a")
  /\ get_innerText 2%nat (replay demo_four_registered) = "0"
  /\ In (invalid_values 2%nat) (console (replay demo_four_registered))
  /\ no_session (replay demo_four_registered) 2%nat
  /\ animations (replay demo_four_registered) !! 2%nat = None
  /\ (original_text demo_four_registered 2%nat = None ->
      get_innerText 2%nat (reset (replay demo_four_registered)) = "0").
Proof.
  assert (2%nat ∈ elements demo_four_registered) as Hin.
  { vm_compute. apply list_elem_of_further, list_elem_of_further,
      list_elem_of_here. }
  split; [split; [exact Hin|split; vm_compute; reflexivity]|].
  apply (replay_without_data demo_four_registered 2%nat);
    [apply demo_four_registered_reachable | exact Hin | vm_compute; reflexivity].
Defined.

Lemma recorded_animations_are_pending_witness :
  no_exception demo_running = true
  /\ forall e h, animations demo_running !! e = Some h
                 <-> session_of demo_running e h.
Proof.
  split; [reflexivity|].
  apply (recorded_animations_are_pending demo_running);
    [apply demo_running_reachable | reflexivity].
Defined.

(* ===================================================================== *)
(** * Proofs: the first frame *)
(* ===================================================================== *)

Section Frames.
Context `{Engine}.

(** ** The first frame *)

Lemma sub_self x : is_finite x = true -> sub x x = zero.
Proof.
  destruct x as [[]| | |s m e]; try done. intros _.
  unfold sub, SFsub. by rewrite Z.sub_diag.
Qed.

Lemma sub_self_not_finite x : is_finite x = false -> sub x x = NaN.
Proof. by destruct x as [|[]| |]. Qed.

Lemma progress_first_frame ts duration :
  is_finite ts = true -> is_nonzero duration = true ->
  is_zero (progress_at ts duration ts) = true
  /\ ltb (progress_at ts duration ts) one = true.
Proof.
  intros Hts Hd. unfold progress_at. rewrite (sub_self ts Hts).
  by destruct duration as [| [] | |[] m e].
Qed.

Lemma progress_without_duration ts duration :
  is_nonzero duration = false ->
  progress_at ts duration ts = NaN.
Proof.
  intros Hd. unfold progress_at.
  destruct (is_finite ts) eqn:Hts.
  - rewrite (sub_self ts Hts). by destruct duration as [[]| | |].
  - rewrite (sub_self_not_finite ts Hts). by destruct duration.
Qed.

Lemma apply_curve_zero c t :
  is_zero t = true -> is_zero (apply_curve c t) = true.
Proof. by destruct t as [[]| | |? ? ?], c. Qed.

Lemma first_value eased target :
  is_zero eased = true -> is_finite target = true ->
  add zero (mul eased (sub target zero)) = zero.
Proof. by destruct eased as [[]| | |? ? ?], target as [[]| | |[] ? ?]. Qed.

Lemma formatNumber_zero st d hc :
  0 <= d <= 100 ->
  formatNumber st zero d hc
  = Normal (prefix st +:+ zero_text d +:+ suffix st).
Proof.
  intros Hd. unfold formatNumber. rewrite toFixed_fixed by done.
  unfold fixed_text, zero_text. cbn [rounded is_negative fst snd zero].
  rewrite Z.div_0_l by (apply Z.pow_nonzero; lia).
  rewrite digits_padded_zero. change (digits 0) with ["0"%char].
  destruct hc; [|by destruct (d =? 0)].
  destruct (d =? 0); [done|].
  rewrite (split_dot_one_point ["0"%char]); [done|done|].
  apply digits_have_no_point. rewrite <- digits_padded_zero.
  apply digits_padded_are_digits.
Qed.

(** X10.  The first frame of an animation renders zero.  For a request
    without start time, with start value 0, one of the eight curves, a finite
    target, a duration that is neither 0 nor [NaN] and 0 to 100 decimals, a
    frame at a finite time writes zero in fixed notation between prefix and
    suffix, and requests the next frame with the start time set to that time,
    recording its handle. *)
Theorem first_frame_renders_zero (cl : StepClosure) (c : curve) (ts : number)
  (s : State) :
  cl_startTime cl = None -> cl_startValue cl = zero ->
  cl_easingFn cl = EasingFunction c ->
  is_finite ts = true -> is_nonzero (cl_duration cl) = true ->
  is_finite (cl_targetValue cl) = true -> 0 <= cl_decimals cl <= 100 ->
  exists s',
    step cl ts s = (s', Normal tt)
    /\ get_innerText (cl_element cl) s'
       = prefix (settings s) +:+ zero_text (cl_decimals cl)
         +:+ suffix (settings s)
    /\ frame_callbacks s' !! next_handle s = Some (started cl ts)
    /\ animations s' !! cl_element cl = Some (next_handle s).
Proof.
  intros Hstart Hvalue Heasing Hts Hduration Htarget Hd.
  unfold step. rewrite Hstart, Heasing, Hvalue. cbn [default call_easing].
  destruct (progress_first_frame ts (cl_duration cl) Hts Hduration)
    as [Hzero ->].
  rewrite first_value by (by try apply apply_curve_zero).
  rewrite formatNumber_zero by done.
  eexists. split; [reflexivity|]. cbn.
  unfold get_innerText. cbn. rewrite !lookup_insert_eq. cbn.
  split; [done|]. split; [|done]. unfold started.
  by rewrite Hvalue, Heasing.
Qed.


(** X11.  Without a duration the first frame is the last.  When the duration
    is 0 or [NaN] the progress of the first frame is [NaN], which is not
    below 1: whatever the time, the frame ends by writing the target,
    formatted, removes the record of the animation and requests no further
    frame. *)
Theorem without_duration_the_first_frame_is_the_last (cl : StepClosure)
  (c : curve) (ts : number) (s : State) :
  cl_startTime cl = None -> cl_easingFn cl = EasingFunction c ->
  is_nonzero (cl_duration cl) = false -> 0 <= cl_decimals cl <= 100 ->
  exists text s',
    formatNumber (settings s) (cl_targetValue cl) (cl_decimals cl)
      (cl_hasComma cl) = Normal text
    /\ step cl ts s = (s', Normal tt)
    /\ get_innerText (cl_element cl) s' = text
    /\ animations s' !! cl_element cl = None
    /\ frame_callbacks s' = frame_callbacks s
    /\ next_handle s' = next_handle s.
Proof.
  intros Hstart Heasing Hduration Hd.
  destruct (formatNumber_in_range (settings s) (cl_targetValue cl)
              (cl_decimals cl) (cl_hasComma cl) Hd) as [text Htext].
  exists text. unfold step. rewrite Hstart, Heasing. cbn [default call_easing].
  rewrite (progress_without_duration ts (cl_duration cl) Hduration).
  match goal with |- context [formatNumber ?st ?x ?d ?hc] =>
    lazymatch x with
    | cl_targetValue cl => fail
    | _ => destruct (formatNumber_in_range st x d hc Hd) as [text1 ->]
    end end.
  change (ltb NaN one) with false. cbn [settings set_innerText with_innerText].
  rewrite Htext. eexists. split; [done|]. split; [reflexivity|]. cbn.
  unfold get_innerText. cbn. by rewrite lookup_insert_eq, lookup_delete_eq.
Qed.

End Frames.

Lemma first_frame_renders_zero_witness :
  exists s',
    step (first_step demo_visible 0%nat
            {| counterupValue := "1,500"; counterupNumber := of_Z 1500;
               counterupDecimals := Some 0; counterupHasCommas := true |} 0)
      (of_Z 1000) demo_visible = (s', Normal tt)
    /\ get_innerText 0%nat s' = "0"
    /\ frame_callbacks s' !! next_handle demo_visible
       = Some (started
                 (first_step demo_visible 0%nat
                    {| counterupValue := "1,500"; counterupNumber := of_Z 1500;
                       counterupDecimals := Some 0;
                       counterupHasCommas := true |} 0) (of_Z 1000))
    /\ animations s' !! 0%nat = Some (next_handle demo_visible).
Proof.
  apply (first_frame_renders_zero
           (first_step demo_visible 0%nat
              {| counterupValue := "1,500"; counterupNumber := of_Z 1500;
                 counterupDecimals := Some 0; counterupHasCommas := true |} 0)
           EaseOutExpo (of_Z 1000) demo_visible);
    try reflexivity. vm_compute. split; discriminate.
Defined.

Lemma without_duration_the_first_frame_is_the_last_witness :
  exists cl,
    frame_callbacks instant_visible !! 1%nat = Some cl
    /\ exists text s',
         formatNumber (settings instant_visible) (cl_targetValue cl)
           (cl_decimals cl) (cl_hasComma cl) = Normal text
         /\ text = "1,500"
         /\ step cl (of_Z 1000) instant_visible = (s', Normal tt)
         /\ get_innerText (cl_element cl) s' = text
         /\ animations s' !! cl_element cl = None
         /\ frame_callbacks s' = frame_callbacks instant_visible
         /\ next_handle s' = next_handle instant_visible.
Proof.
  eexists. split; [vm_compute; reflexivity|].
  destruct (without_duration_the_first_frame_is_the_last
              {| cl_element := 0%nat; cl_targetValue := of_Z 1500;
                 cl_decimals := 0; cl_hasComma := true; cl_startValue := zero;
                 cl_startTime := None; cl_duration := zero;
                 cl_easingFn := EasingFunction EaseOutExpo |}
              EaseOutExpo (of_Z 1000) instant_visible)
    as (text & s' & Htext & Hstep & Hrest);
    [reflexivity | reflexivity | reflexivity | vm_compute; split; discriminate |].
  exists text, s'. split; [exact Htext|]. split; [|split; [exact Hstep|exact Hrest]].
  vm_compute in Htext. by injection Htext.
Defined.

(* ===================================================================== *)
(** * Proofs: what is shown, read again *)
(* ===================================================================== *)

(** ** Strings *)

Lemma length_append (a b : string) :
  String.length (a +:+ b) = (String.length a + String.length b)%nat.
Proof.
  induction a as [|x a IH]; [done|]. rewrite append_cons. cbn. by rewrite IH.
Qed.

Lemma startsWith_append (p s : string) : startsWith (p +:+ s) p = true.
Proof.
  induction p as [|x p IH]; [by destruct s|].
  rewrite append_cons. cbn. by rewrite Ascii.eqb_refl.
Qed.

Lemma substring_from_append (p s : string) :
  substring_from (String.length p) (p +:+ s) = s.
Proof.
  induction p as [|x p IH]; [by destruct s|]. by rewrite append_cons.
Qed.

Lemma substring_to_append (a b : string) :
  substring_to (String.length a) (a +:+ b) = a.
Proof.
  induction a as [|x a IH]; [by destruct b|].
  rewrite append_cons. cbn. by rewrite IH.
Qed.

Lemma rev_app_append (a b : string) : String.rev_app a b = String.rev a +:+ b.
Proof.
  revert b. induction a as [|x a IH]; intros b; [done|].
  unfold String.rev. cbn. rewrite !IH. by rewrite append_assoc, append_cons.
Qed.

Lemma rev_append (a b : string) :
  String.rev (a +:+ b) = String.rev b +:+ String.rev a.
Proof.
  induction a as [|x a IH]; [by rewrite append_empty_r|].
  rewrite append_cons. unfold String.rev at 1 3. cbn.
  rewrite !rev_app_append, IH. by rewrite append_assoc.
Qed.

Lemma endsWith_append (a s : string) : endsWith (a +:+ s) s = true.
Proof. unfold endsWith. rewrite rev_append. apply startsWith_append. Qed.

Section Affixes.
Context `{Engine}.

(** What [formatNumber] wraps, [parseValue] unwraps. *)
Lemma strip_affixes_wrapped st body :
  strip_affixes st (prefix st +:+ body +:+ suffix st) = body.
Proof.
  unfold strip_affixes.
  assert ((if negb (String.eqb (prefix st) EmptyString)
              && startsWith (prefix st +:+ body +:+ suffix st) (prefix st)
           then substring_from (String.length (prefix st))
                  (prefix st +:+ body +:+ suffix st)
           else prefix st +:+ body +:+ suffix st) = body +:+ suffix st) as ->.
  { rewrite startsWith_append, substring_from_append, andb_true_r.
    destruct (String.eqb (prefix st) EmptyString) eqn:E; [|done].
    by apply String.eqb_eq in E as ->. }
  rewrite endsWith_append, andb_true_r.
  destruct (String.eqb (suffix st) EmptyString) eqn:E; cbn.
  - apply String.eqb_eq in E as ->. by rewrite append_empty_r.
  - rewrite length_append, Nat.add_sub. apply substring_to_append.
Qed.

End Affixes.

(** ** A separator of one plain character *)

Lemma compile_plain c :
  is_syntax_character c = false ->
  compile (String c EmptyString) = Some [[PatternChar c]].
Proof.
  unfold is_syntax_character, compile, compile_go, beyond_fragment. cbn.
  intros Hc. repeat (apply orb_false_elim in Hc as [?E Hc]).
  by rewrite ?E, ?E0, ?E1, ?E2, ?E3, ?E4, ?E5, ?E6, ?E7, ?E8, ?E9, ?E10, ?E11,
    ?E12, ?E13.
Qed.

Lemma remove_plain c (s : string) : forall at_start,
  remove_matches [[PatternChar c]] O at_start s = without_char c s.
Proof.
  induction s as [|a s IH]; intros b; [done|].
  cbn. destruct (Ascii.eqb c a); cbn; by rewrite IH.
Qed.

Lemma without_char_append c (a b : string) :
  without_char c (a +:+ b) = without_char c a +:+ without_char c b.
Proof.
  induction a as [|x a IH]; [done|]. rewrite append_cons. cbn.
  destruct (Ascii.eqb c x); [done|]. by rewrite append_cons, IH.
Qed.

Lemma without_char_absent c (l : list ascii) :
  forallb (fun a => negb (Ascii.eqb c a)) l = true ->
  without_char c (text l) = text l.
Proof.
  induction l as [|a l IH]; [done|]. cbn.
  intros [Ha Hl]%andb_true_iff. apply negb_true_iff in Ha. rewrite Ha.
  by rewrite IH.
Qed.

Section PlainSeparator.
Context `{Engine}.

Lemma remove_separator_plain c value :
  is_syntax_character c = false ->
  remove_separator (String c EmptyString) value = Normal (without_char c value).
Proof.
  intros Hc. unfold remove_separator. rewrite compile_plain by done.
  by rewrite remove_plain.
Qed.

(** X12.  With a separator of one character that is no syntax character of
    regular expressions, [parseValue] deletes every occurrence of it, wherever
    it stands, before it reads the number: the places of the separators are not
    checked. *)
Theorem plain_separator_is_deleted_everywhere (st : Settings) (c : ascii)
  (value : string) :
  separator st = String c EmptyString -> is_syntax_character c = false ->
  remove_separator (separator st) value = Normal (without_char c value)
  /\ parseValue st value
     = if String.eqb value EmptyString then Normal None
       else match scan_numeric (without_char c (strip_affixes st value)) with
            | Some lit =>
                Normal (Some {|
                  pd_number := literal_number lit;
                  pd_decimals := default (fraction_length lit) (decimals st);
                  pd_hasComma := includes value (separator st) |})
            | None => Normal None
            end.
Proof.
  intros Hsep Hc. split.
  - rewrite Hsep. by apply remove_separator_plain.
  - unfold parseValue. destruct (String.eqb value _); [done|].
    rewrite Hsep at 1. rewrite remove_separator_plain by done.
    destruct (scan_numeric _); [|done]. by destruct (decimals st).
Qed.

End PlainSeparator.

Lemma plain_separator_is_deleted_everywhere_witness :
  (remove_separator (separator defaults) ",1,5,,00,"
   = Normal (without_char ","%char ",1,5,,00,")
   /\ parseValue defaults ",1,5,,00,"
      = if String.eqb ",1,5,,00," EmptyString then Normal None
        else match scan_numeric
                     (without_char ","%char
                        (strip_affixes defaults ",1,5,,00,")) with
             | Some lit =>
                 Normal (Some {|
                   pd_number := literal_number lit;
                   pd_decimals :=
                     default (fraction_length lit) (decimals defaults);
                   pd_hasComma := includes ",1,5,,00," (separator defaults) |})
             | None => Normal None
             end)
  /\ parseValue defaults ",1,5,,00,"
     = Normal (Some {| pd_number := of_Z 1500; pd_decimals := 0;
                       pd_hasComma := true |}).
Proof.
  split; [|vm_compute; reflexivity].
  apply (plain_separator_is_deleted_everywhere defaults ","%char ",1,5,,00,");
    reflexivity.
Defined.

(** ** What is shown parses back *)

Lemma not_a_digit c a :
  is_digit c = false -> is_digit a = true -> Ascii.eqb c a = false.
Proof. intros Hc Ha. apply Ascii.eqb_neq. intros ->. congruence. Qed.

Lemma absent_from_digits c ds :
  is_digit c = false -> forallb is_digit ds = true ->
  forallb (fun a => negb (Ascii.eqb c a)) ds = true.
Proof.
  intros Hc. induction ds as [|a ds IH]; [done|]. cbn.
  intros [Ha Hds]%andb_true_iff. by rewrite (not_a_digit c a), IH.
Qed.

Lemma without_char_group_tail c ds :
  is_digit c = false -> forallb is_digit ds = true ->
  without_char c (group_tail (String c EmptyString) ds) = text ds.
Proof.
  intros Hc. induction ds as [|a ds IH]; [done|].
  intros [Ha Hds]%andb_true_iff. cbn [group_tail].
  rewrite without_char_append.
  assert (without_char c (if (length (a :: ds) mod 3 =? 0)%nat
                          then String c EmptyString else EmptyString)
          = EmptyString) as ->.
  { destruct (_ =? _)%nat; [|done]. cbn. by rewrite Ascii.eqb_refl. }
  cbn. by rewrite (not_a_digit c a), IH.
Qed.

Lemma without_char_group_thousands c ds :
  is_digit c = false -> forallb is_digit ds = true ->
  without_char c (group_thousands (String c EmptyString) ds) = text ds.
Proof.
  intros Hc. destruct ds as [|a ds]; [done|].
  intros [Ha Hds]%andb_true_iff. cbn.
  by rewrite (not_a_digit c a), without_char_group_tail.
Qed.

Lemma take_digits_text ds (rest : string) :
  forallb is_digit ds = true ->
  match rest with String a _ => is_digit a = false | EmptyString => True end ->
  take_digits (text ds +:+ rest) = (ds, rest).
Proof.
  intros Hds Hrest. induction ds as [|a ds IH].
  - change (text [] +:+ rest) with rest. destruct rest as [|a rest]; [done|].
    cbn. by rewrite Hrest.
  - apply andb_true_iff in Hds as [Ha Hds]. cbn [text string_of_list_ascii].
    rewrite append_cons. cbn. by rewrite Ha, IH.
Qed.

(** The fixed notation, read as a numeric literal. *)
Lemma scan_fixed_notation (negative : bool) int frac :
  forallb is_digit int = true -> int <> [] ->
  forallb is_digit frac = true ->
  scan_numeric
    (text (if negative then ["-"%char] else [])
     +:+ text int
     +:+ match frac with
         | [] => EmptyString
         | _ => String "."%char (text frac)
         end)
  = Some {| lit_negative := negative; lit_integer := int;
            lit_fraction := match frac with [] => None | _ => Some frac end;
            lit_exponent := None |}.
Proof.
  intros Hint Hne Hfrac. unfold scan_numeric.
  set (fp := match frac with [] => EmptyString | _ => _ end).
  assert (take_sign (text (if negative then ["-"%char] else [])
                     +:+ text int +:+ fp) = (negative, text int +:+ fp)) as ->.
  { destruct negative; [done|].
    change (text [] +:+ text int +:+ fp) with (text int +:+ fp).
    destruct int as [|a int]; [done|]. cbn [text string_of_list_ascii].
    rewrite append_cons. apply andb_true_iff in Hint as [Ha _].
    unfold take_sign.
    assert (Ascii.eqb a "-"%char = false) as ->
      by (apply Ascii.eqb_neq; intros ->; discriminate).
    assert (Ascii.eqb a "+"%char = false) as ->
      by (apply Ascii.eqb_neq; intros ->; discriminate).
    done. }
  rewrite take_digits_text; [|done|by destruct frac].
  destruct frac as [|f frac]; unfold fp.
  - destruct int; [done|]. done.
  - change (Ascii.eqb "." ".")%char with true. cbv iota.
    rewrite <- (append_empty_r (text (f :: frac))).
    rewrite take_digits_text by done. done.
Qed.

Lemma append_is_empty (a b : string) : a +:+ b = EmptyString -> b = EmptyString.
Proof.
  intros Hab. apply (f_equal String.length) in Hab.
  rewrite length_append in Hab. destruct b; [done|]. cbn in Hab. lia.
Qed.

Lemma append_is_empty_l (a b : string) : a +:+ b = EmptyString -> a = EmptyString.
Proof.
  intros Hab. apply (f_equal String.length) in Hab.
  rewrite length_append in Hab. destruct a; [done|]. cbn in Hab. lia.
Qed.

Lemma plain_has_no_dollar c :
  is_syntax_character c = false -> includes (String c EmptyString) "$" = false.
Proof.
  intros Hc. unfold is_syntax_character in Hc. cbn in Hc.
  apply orb_false_elim in Hc as [_ Hc].
  apply orb_false_elim in Hc as [Hc _].
  change (includes (String c EmptyString) "$")
    with (Ascii.eqb "$"%char c && true || false).
  by rewrite Ascii.eqb_sym, Hc.
Qed.

Lemma rounded_nonneg x d : 0 <= d -> 0 <= rounded x d.
Proof.
  intros Hd. destruct x as [| | |s m e]; try done. cbn.
  by destruct (round_half_up_nearest m e d Hd).
Qed.

Section ParseBack.
Context `{Engine}.

(** X13.  What [formatNumber] shows, [parseValue] reads back.  With a
    separator of one plain character that is neither a digit nor the minus
    sign, and automatic decimals, the text shown for a number below 1e21 in
    magnitude with 0 to 100 decimals is accepted by [parseValue] under the
    same settings: the number is the one nearest to the decimal shown, the
    decimals are those shown, and the separator flag tells whether the text
    holds the separator.  If the digits shown, read as one integer, are
    positive and below [2^52], that number is shown as the same text again. *)
Theorem shown_text_parses_back (st : Settings) (c : ascii) (x : number)
  (d : Z) (hasComma : bool) :
  separator st = String c EmptyString ->
  is_syntax_character c = false -> is_digit c = false -> c <> "-"%char ->
  decimals st = None ->
  fixed_range x = true -> 0 <= d <= 100 ->
  (exists shown,
     formatNumber st x d hasComma = Normal shown
     /\ parseValue st shown
        = Normal (Some {| pd_number := shown_number x d;
                          pd_decimals := d;
                          pd_hasComma := includes shown (separator st) |}))
  /\ (0 < rounded x d < 2 ^ 52 ->
      formatNumber st (shown_number x d) d hasComma
      = formatNumber st x d hasComma).
Proof.
  intros Hsep Hc Hdigit Hminus Hauto Hx Hd. split; cycle 1.
  { intros Hshort.
    assert (includes (separator st) "$" = false) as Hdollar
      by (rewrite Hsep; by apply plain_has_no_dollar).
    destruct (round_ratio_reads_back (is_negative x) (rounded x d) d Hshort Hd)
      as (m & e & Hround & Hrange & Hback).
    assert (shown_number x d = S754_finite (is_negative x) m e) as ->.
    { unfold shown_number. rewrite <- Hround.
      by destruct (Z.eqb_spec (rounded x d) 0); [lia|]. }
    rewrite !formatNumber_fixed by (try done; cbn; by rewrite Hrange).
    unfold format_body. cbn [rounded is_negative]. by rewrite Hback. }
  rewrite formatNumber_fixed
    by (try done; rewrite Hsep; by apply plain_has_no_dollar).
  eexists. split; [reflexivity|].
  pose proof (rounded_nonneg x d ltac:(lia)) as Hn.
  assert (0 < 10 ^ d) as Hpow by (apply Z.pow_pos_nonneg; lia).
  destruct (digits_are_digits (rounded x d / 10 ^ d)) as [Hint Hne];
    [by apply Z.div_pos|].
  pose proof (digits_padded_are_digits (Z.to_nat d) (rounded x d)) as Hfrac.
  pose proof (length_digits_padded (Z.to_nat d) (rounded x d)) as Hlen.
  (* the body, without the separators *)
  assert (without_char c (format_body (separator st) x d hasComma)
          = text (if is_negative x then ["-"%char] else [])
            +:+ text (digits (rounded x d / 10 ^ d))
            +:+ match digits_padded (Z.to_nat d) (rounded x d) with
                | [] => EmptyString
                | _ => String "."%char
                         (text (digits_padded (Z.to_nat d) (rounded x d)))
                end) as Hbody.
  { unfold format_body. cbv zeta. rewrite Hsep, !without_char_append.
    f_equal; [|f_equal].
    - apply without_char_absent. destruct (is_negative x); [|done]. cbn.
      assert (Ascii.eqb c "-"%char = false) as -> by (by apply Ascii.eqb_neq).
      done.
    - destruct hasComma; [by apply without_char_group_thousands|].
      by apply without_char_absent, absent_from_digits.
    - destruct (d =? 0) eqn:Ed.
      + apply Z.eqb_eq in Ed. subst d. done.
      + apply Z.eqb_neq in Ed.
        destruct (digits_padded (Z.to_nat d) (rounded x d)) as [|f frac] eqn:Ef;
          [cbn in Hlen; lia|].
        cbn [without_char].
        assert (Ascii.eqb c "."%char = false) as ->.
        { unfold is_syntax_character in Hc. cbn in Hc.
          repeat (apply orb_false_elim in Hc as [?E Hc]). done. }
        f_equal. by apply without_char_absent, absent_from_digits. }
  unfold parseValue.
  destruct (String.eqb _ EmptyString) eqn:Eempty.
  { apply String.eqb_eq, append_is_empty, (f_equal (without_char c)) in Eempty.
    rewrite without_char_append, Hbody in Eempty.
    apply append_is_empty_l, append_is_empty, append_is_empty_l in Eempty.
    by destruct (digits _). }
  assert (forall v, remove_separator (separator st) v
                    = Normal (without_char c v)) as Hremove
    by (intros v; rewrite Hsep; by apply remove_separator_plain).
  rewrite strip_affixes_wrapped, Hremove, Hbody.
  rewrite scan_fixed_notation by done. rewrite Hauto.
  do 3 f_equal.
  - (* the number *)
    unfold literal_number, shown_number. cbn [lit_integer lit_fraction
      lit_exponent lit_negative].
    assert (default [] match digits_padded (Z.to_nat d) (rounded x d) with
                       | [] => None
                       | _ => Some (digits_padded (Z.to_nat d) (rounded x d))
                       end = digits_padded (Z.to_nat d) (rounded x d)) as ->
      by (by destruct (digits_padded _ _)).
    rewrite fixed_digits_value, Hlen by lia.
    rewrite Z2Nat.id by lia.
    destruct (rounded x d =? 0); [done|].
    destruct (0 <=? 0 - d) eqn:E0.
    + apply Z.leb_le in E0. assert (d = 0) as -> by lia.
      by rewrite Z.mul_1_r.
    + by replace (- (0 - d)) with d by lia.
  - (* the decimals *)
    unfold fraction_length. cbn [lit_fraction].
    destruct (digits_padded (Z.to_nat d) (rounded x d)); cbn in *; lia.
Qed.

End ParseBack.

(** ** What is no finite number *)

Lemma group_name sep (hc : bool) x :
  (if hc then match split_dot (number_name x) with
              | part0 :: parts =>
                  join_dot (replace_group_boundaries sep EmptyString part0
                            :: parts)
              | [] => number_name x
              end
   else number_name x) = number_name x.
Proof. by destruct hc, x as [|[]| |]. Qed.

Lemma toFixed_name x d :
  is_finite x = false -> 0 <= d <= 100 -> toFixed x d = Normal (number_name x).
Proof.
  intros Hx Hd. unfold toFixed.
  assert ((d <? 0) || (100 <? d) = false) as ->
    by (apply orb_false_intro; apply Z.ltb_ge; lia).
  by destruct x as [|[]| |].
Qed.

Section NoFiniteNumber.
Context `{Engine}.

Lemma formatNumber_name st x d hc :
  is_finite x = false -> 0 <= d <= 100 ->
  formatNumber st x d hc = Normal (prefix st +:+ number_name x +:+ suffix st).
Proof.
  intros Hx Hd. unfold formatNumber. rewrite toFixed_name by done.
  by rewrite group_name.
Qed.

(** X14.  What is no finite number is shown by its name: [formatNumber]
    renders [NaN] and the infinities as "NaN", "Infinity" and "-Infinity"
    between prefix and suffix, whatever the decimals and the separator flag.
    An infinite target, which [parseValue] returns for a text such as
    "1e999", makes the first frame show "NaN", the product of progress 0 and
    the target, and request the next frame. *)
Theorem what_is_no_finite_number_is_shown_by_name (st : Settings) (x : number)
  (d : Z) (hasComma : bool) :
  is_finite x = false -> 0 <= d <= 100 ->
  formatNumber st x d hasComma
  = Normal (prefix st +:+ number_name x +:+ suffix st)
  /\ forall cl c ts s,
       cl_startTime cl = None -> cl_startValue cl = zero ->
       cl_easingFn cl = EasingFunction c -> cl_decimals cl = d ->
       is_finite ts = true -> is_nonzero (cl_duration cl) = true ->
       cl_targetValue cl = x -> isNaN x = false ->
       exists s',
         step cl ts s = (s', Normal tt)
         /\ get_innerText (cl_element cl) s'
            = prefix (settings s) +:+ "NaN" +:+ suffix (settings s)
         /\ frame_callbacks s' !! next_handle s = Some (started cl ts).
Proof.
  intros Hx Hd. split; [by apply formatNumber_name|].
  intros cl c ts s Hstart Hvalue Heasing Hdec Hts Hduration Htarget Hnan.
  unfold step. rewrite Hstart, Heasing, Hvalue, Hdec, Htarget.
  cbn [default call_easing].
  destruct (progress_first_frame ts (cl_duration cl) Hts Hduration)
    as [Hzero ->].
  pose proof (apply_curve_zero c _ Hzero) as Heased.
  assert (add zero (mul (apply_curve c (progress_at ts (cl_duration cl) ts))
                      (sub x zero)) = NaN) as ->.
  { destruct (apply_curve c _) as [[]| | |? ? ?]; try done;
      by destruct x as [|[]| |? ? ?]. }
  rewrite (formatNumber_name _ NaN) by done.
  eexists. split; [reflexivity|]. cbn.
  unfold get_innerText. cbn. rewrite !lookup_insert_eq. cbn.
  split; [done|]. unfold started. by rewrite Hvalue, Heasing, Hdec, Htarget.
Qed.

End NoFiniteNumber.

Lemma shown_text_parses_back_witness :
  (exists shown,
     formatNumber defaults (round_ratio false 12345 10) 1 true = Normal shown
     /\ parseValue defaults shown
        = Normal (Some {| pd_number := shown_number (round_ratio false 12345 10) 1;
                          pd_decimals := 1;
                          pd_hasComma := includes shown (separator defaults) |}))
  /\ formatNumber defaults (round_ratio false 12345 10) 1 true
     = Normal "1,234.5"
  /\ shown_number (round_ratio false 12345 10) 1 = round_ratio false 12345 10
  /\ (0 < rounded (round_ratio false 12345 10) 1 < 2 ^ 52 ->
      formatNumber defaults (shown_number (round_ratio false 12345 10) 1) 1 true
      = formatNumber defaults (round_ratio false 12345 10) 1 true).
Proof.
  destruct (shown_text_parses_back defaults ","%char
              (round_ratio false 12345 10) 1 true)
    as [Hshown Hagain]; try reflexivity; [discriminate|lia|].
  split; [exact Hshown|]. split; [vm_compute; reflexivity|].
  split; [vm_compute; reflexivity|exact Hagain].
Defined.

Lemma what_is_no_finite_number_is_shown_by_name_witness :
  parseValue defaults "1e999"
  = Normal (Some {| pd_number := S754_infinity false; pd_decimals := 0;
                    pd_hasComma := false |})
  /\ formatNumber defaults (S754_infinity false) 0 true = Normal "Infinity"
  /\ forall cl c ts s,
       cl_startTime cl = None -> cl_startValue cl = zero ->
       cl_easingFn cl = EasingFunction c -> cl_decimals cl = 0 ->
       is_finite ts = true -> is_nonzero (cl_duration cl) = true ->
       cl_targetValue cl = S754_infinity false ->
       isNaN (S754_infinity false) = false ->
       exists s',
         step cl ts s = (s', Normal tt)
         /\ get_innerText (cl_element cl) s'
            = prefix (settings s) +:+ "NaN" +:+ suffix (settings s)
         /\ frame_callbacks s' !! next_handle s = Some (started cl ts).
Proof.
  split; [vm_compute; reflexivity|].
  apply (what_is_no_finite_number_is_shown_by_name defaults
           (S754_infinity false) 0 true); [reflexivity|lia].
Defined.

(* ===================================================================== *)
(** * Proofs: settings that make the built-ins throw *)
(* ===================================================================== *)

Section Failures.
Context `{Engine}.

(** ** A separator that is no pattern *)

Lemma parseValue_rejected st v :
  regexp_accepts (separator st) = false -> v <> EmptyString ->
  parseValue st v = Throw SyntaxError.
Proof.
  intros Hacc Hv. unfold parseValue.
  apply String.eqb_neq in Hv. rewrite Hv.
  unfold regexp_accepts in Hacc. unfold remove_separator.
  destruct (compile (separator st)); [done|].
  destruct (regexp_beyond (separator st)) as [f|]; [|done].
  apply bool_decide_eq_false in Hacc. destruct Hacc. by eexists.
Qed.

Lemma blank_prefix_console l c s :
  blank_prefix (with_console c s) l = blank_prefix s l.
Proof. induction l as [|e l IH]; [done|]. cbn. by rewrite IH. Qed.

Lemma forEach_init_rejected (l : list Element) : forall s,
  regexp_accepts (separator (settings s)) = false ->
  forEach init_element l s
  = (with_console (rev (map empty_warning (blank_prefix s l)) ++ console s) s,
     if bool_decide (blank_prefix s l = l) then Normal tt
     else Throw SyntaxError).
Proof.
  induction l as [|e l IH]; intros s Hacc.
  - cbn. by destruct s.
  - cbn [forEach blank_prefix]. unfold init_element at 1, is_blank, source_text.
    destruct (String.eqb (trim (get_innerText e s)) "") eqn:Eblank.
    + set (s1 := console_warn _ _ s).
      rewrite (IH s1) by done. unfold s1, console_warn.
      rewrite blank_prefix_console. cbn [console with_console].
      f_equal.
      * cbn [map rev]. rewrite <- app_assoc. by destruct s.
      * rewrite (bool_decide_ext (blank_prefix s l = l)
                   (e :: blank_prefix s l = e :: l)); [done|].
        split; [by intros ->|by intros [= ->]].
    + apply String.eqb_neq in Eblank.
      rewrite parseValue_rejected by done.
      rewrite bool_decide_eq_false_2 by done. by destruct s.
Qed.

(** X15.  With a separator that [new RegExp] refuses, [init] registers
    nothing: it warns about the blank elements at the head of the list and
    throws [SyntaxError] at the first element that has text, returning
    normally only if every element is blank; no dataset, visibility state or
    observer is created. *)
Theorem rejected_separator_registers_nothing (s : State) :
  regexp_accepts (separator (settings s)) = false ->
  let blanks := blank_prefix s (elements s) in
  init s
  = (with_console (rev (map empty_warning blanks) ++ console s) s,
     if bool_decide (blanks = elements s) then Normal tt
     else Throw SyntaxError).
Proof. intros Hacc. by apply forEach_init_rejected. Qed.

(** ** Decimals that [toFixed] refuses *)

(** X16.  With decimals below 0 or above 100 [formatNumber] throws
    [RangeError] for every number, and so does every frame of an animation
    with such decimals, before it renders: the request is used up, the text,
    the record in [this.animations] and everything else stay as they were, and
    the exception is reported. *)
Theorem refused_decimals_stop_every_frame (d : Z) :
  d < 0 \/ 100 < d ->
  (forall st x hasComma, formatNumber st x d hasComma = Throw RangeError)
  /\ (forall h cl c ts s,
        frame_callbacks s !! h = Some cl ->
        cl_decimals cl = d -> cl_easingFn cl = EasingFunction c ->
        frame h ts s
        = with_console (Uncaught RangeError :: console s)
            (with_frame_callbacks (delete h (frame_callbacks s)) s)).
Proof.
  intros Hd.
  assert (forall st x hc, formatNumber st x d hc = Throw RangeError) as Hformat.
  { intros st x hc. unfold formatNumber, toFixed.
    assert ((d <? 0) || (100 <? d) = true) as ->; [|done].
    apply orb_true_iff. destruct Hd; [left|right]; by apply Z.ltb_lt. }
  split; [done|]. intros h cl c ts s Hl Hdec Heasing.
  unfold frame. rewrite Hl. unfold step. rewrite Heasing, Hdec.
  cbn [call_easing]. by rewrite Hformat.
Qed.

End Failures.

Lemma rejected_separator_registers_nothing_witness :
  let s := with_elements [1; 0]%nat
             (with_settings (with_separator "(" defaults) demo_four) in
  regexp_accepts (separator (settings s)) = false
  /\ blank_prefix s (elements s) = [1%nat]
  /\ init s
     = (with_console
          (rev (map empty_warning (blank_prefix s (elements s))) ++ console s) s,
        if bool_decide (blank_prefix s (elements s) = elements s)
        then Normal tt else Throw SyntaxError)
  /\ console demo_unbalanced = [Uncaught SyntaxError]
  /\ observers demo_unbalanced = [].
Proof.
  cbv zeta. split; [reflexivity|]. split; [vm_compute; reflexivity|].
  split; [|split; vm_compute; reflexivity].
  apply (rejected_separator_registers_nothing
           (with_elements [1; 0]%nat
              (with_settings (with_separator "(" defaults) demo_four))).
  reflexivity.
Defined.

Lemma refused_decimals_stop_every_frame_witness :
  (forall st x hasComma, formatNumber st x 101 hasComma = Throw RangeError)
  /\ (forall h cl c ts s,
        frame_callbacks s !! h = Some cl ->
        cl_decimals cl = 101 -> cl_easingFn cl = EasingFunction c ->
        frame h ts s
        = with_console (Uncaught RangeError :: console s)
            (with_frame_callbacks (delete h (frame_callbacks s)) s))
  /\ get_innerText 0%nat
       (run_event (Frame 1%nat (of_Z 1000)) demo_many_decimals) = "1,500"
  /\ console (run_event (Frame 1%nat (of_Z 1000)) demo_many_decimals)
     = [Uncaught RangeError].
Proof.
  destruct (refused_decimals_stop_every_frame 101) as [Hformat Hframe]; [lia|].
  split; [exact Hformat|]. split; [exact Hframe|].
  split; vm_compute; reflexivity.
Defined.
